(** * The spec store, error boundary and evaluator core of the server SDK

    A shallow embedding of [SpecStore] (the live snapshot and its two polling
    loops) and [ErrorBoundary], with the theorems that settle the claims of
    the specification about them.

    Conventions of the embedding.
    - A JavaScript value that comes out of [JSON.parse] is a [JSON] term; a
      property read that may yield [undefined] is an [option JSON].
    - Numbers of a payload are integers ([Z]): the fields the store reads
      ([time], the sampling rates, [size], [creationTime]) are integer in the
      endpoint's schema, and the code only compares and copies them. Where
      the code prints a number (as a property key) or makes one
      ([parseInt] on a Content-Length header, and the sum it is added to),
      the number is the double nearest to the integer; [JsNumber] has
      [NaN] and the infinities.
    - A string is held as its UTF-8 bytes.
    - A JavaScript object used as a dictionary is a [gmap string _], the
      properties the code assigned; reading one through a getter also
      answers what the object inherits ([Read]).
    - A method of a class takes the object's state and returns the new state
      beside its result; an exception is an explicit outcome. *)

From Stdlib Require Import ZArith String Ascii List Bool Lia.
From stdpp Require Import base option list gmap strings pretty.
Import ListNotations.

Set Warnings "-register-all,-clear-no-such-hyp".

Local Open Scope string_scope.
Local Open Scope Z_scope.

(** ** JSON values as the code reads them *)

Module Json.

Inductive JSON : Type :=
| JNull
| JBool (b : bool)
| JNum (n : Z)
| JStr (s : string)
| JArr (xs : list JSON)
| JObj (props : list (string * JSON)).

(** The properties of a parsed object are kept in the order [Object.entries]
    enumerates them; a parsed object has no two properties of one name. *)
Fixpoint assoc (k : string) (props : list (string * JSON)) : option JSON :=
  match props with
  | [] => None
  | (k', v) :: rest => if String.eqb k k' then Some v else assoc k rest
  end.

(** [j?.k] for the property names the SDK reads (none of them is a property
    of a prototype): [undefined] on everything but an object that has it. *)
Definition get (k : string) (j : JSON) : option JSON :=
  match j with
  | JObj props => assoc k props
  | _ => None
  end.

(** [obj[k]] where [obj] may itself be [undefined]. *)
Definition get_opt (k : string) (j : option JSON) : option JSON :=
  match j with
  | Some v => get k v
  | None => None
  end.

(** JavaScript truthiness ([!!v]); [None] is [undefined]. *)
Definition truthy (v : option JSON) : bool :=
  match v with
  | None => false
  | Some JNull => false
  | Some (JBool b) => b
  | Some (JNum n) => negb (Z.eqb n 0)
  | Some (JStr s) => negb (String.eqb s "")
  | Some (JArr _) => true
  | Some (JObj _) => true
  end.

(** [typeof v === 'object'] (true of [null], arrays and objects). *)
Definition typeof_object (v : option JSON) : bool :=
  match v with
  | Some JNull | Some (JArr _) | Some (JObj _) => true
  | _ => false
  end.

(** [a ?? b]: [b] when [a] is [null] or [undefined]. *)
Definition nullish_or (a : option JSON) (b : JSON) : JSON :=
  match a with
  | None | Some JNull => b
  | Some v => v
  end.

(** [v !== 0] *)
Definition not_zero (v : JSON) : bool :=
  match v with
  | JNum 0 => false
  | _ => true
  end.

Definition join (sep : string) (parts : list string) : string :=
  match parts with
  | [] => ""
  | p :: rest => fold_left (fun acc q => (acc ++ sep ++ q)%string) rest p
  end.

(** *** Numbers as strings

    A number of a payload is written as an integer [n]; the JavaScript
    number it parses to is the double nearest to [n]. *)

(** The double nearest to an integer, ties to the even mantissa; [None]
    beyond the doubles, where the number is an infinity. *)
Definition to_double (z : Z) : option Z :=
  let a := Z.abs z in
  let shift := Z.log2 a + 1 - 53 in
  if shift <=? 0 then Some z
  else
    let q := Z.shiftr a shift in
    let r := a - Z.shiftl q shift in
    let half := Z.shiftl 1 (shift - 1) in
    let q := if (half <? r) || (Z.eqb r half && Z.odd q) then q + 1 else q in
    let x := Z.shiftl q shift in
    if Z.shiftl 1 1024 <=? x then None else Some (Z.sgn z * x).

(** The decimal digits [s] (as a number of [k] digits) such that
    [s * 10^(n-k)] is read back as the double [x], if there are any; the
    nearest to [x] if two are, the even one if they are as near. *)
Definition digits_at (x n k : Z) : option Z :=
  let e := n - k in
  let lo := x / 10 ^ e in
  let hi := lo + 1 in
  let fits s :=
    (10 ^ (k - 1) <=? s) && (s <? 10 ^ k)
    && bool_decide (to_double (s * 10 ^ e) = Some x) in
  match fits lo, fits hi with
  | true, true =>
      let below := x - lo * 10 ^ e in
      let above := hi * 10 ^ e - x in
      if below <? above then Some lo
      else if above <? below then Some hi
      else if Z.even lo then Some lo else Some hi
  | true, false => Some lo
  | false, true => Some hi
  | false, false => None
  end.

(** The fewest digits that are read back as [x], from [k] digits on. *)
Fixpoint shortest (fuel : nat) (x n k : Z) : Z * Z :=
  match fuel with
  | O => (x, n)
  | S fuel =>
      match digits_at x n k with
      | Some s => (s, k)
      | None => shortest fuel x n (k + 1)
      end
  end.

Definition zeros (n : Z) : string := String.concat "" (repeat "0" (Z.to_nat n)).

(** [Number::toString] of a positive double that is an integer: the
    shortest digits that are read back as the number, then zeros up to
    10^21, and the exponent notation from there on. *)
Definition positive_toString (x : Z) : string :=
  let d := Z.of_nat (String.length (pretty x)) in
  let '(s, k, n) :=
    if bool_decide (to_double (10 ^ d) = Some x) then (1, 1, d + 1)
    else let '(s, k) := shortest (Z.to_nat d) x d 1 in (s, k, d) in
  if n <=? 21 then (pretty s ++ zeros (n - k))%string
  else
    match pretty s with
    | String c EmptyString => (String c "e+" ++ pretty (n - 1))%string
    | String c rest => (String c ("." ++ rest) ++ "e+" ++ pretty (n - 1))%string
    | EmptyString => ""
    end.

(** [String(n)] for the number an integer [n] of a payload parses to. *)
Definition number_toString (n : Z) : string :=
  match to_double n with
  | None => if n <? 0 then "-Infinity" else "Infinity"
  | Some 0 => "0"
  | Some x =>
      if x <? 0 then ("-" ++ positive_toString (- x))%string else positive_toString x
  end.

(** [all_keys f xs]: the strings of the elements, [None] if one throws. *)
Fixpoint all_keys {A : Type} (f : A -> option string) (xs : list A) : option (list string) :=
  match xs with
  | [] => Some []
  | x :: rest =>
      match f x, all_keys f rest with
      | Some k, Some ks => Some (k :: ks)
      | _, _ => None
      end
  end.

(** The conversion a computed property name [o[v]] goes through
    ([ToPropertyKey], which for these values is [String(v)]); [None] when
    it throws a [TypeError]. An array is joined with commas, [null]
    printing as the empty string inside it. A parsed object prints as
    [[object Object]] through [Object.prototype.toString], unless it has a
    property [toString] of its own: that is no function, the inherited
    [valueOf] returns the object, and the conversion throws. *)
Fixpoint toPropertyKey (v : JSON) : option string :=
  match v with
  | JNull => Some "null"
  | JBool true => Some "true"
  | JBool false => Some "false"
  | JNum n => Some (number_toString n)
  | JStr s => Some s
  | JArr xs =>
      option_map (join ",")
        (all_keys (fun x => match x with JNull => Some "" | _ => toPropertyKey x end) xs)
  | JObj props =>
      match assoc "toString" props with
      | Some _ => None
      | None => Some "[object Object]"
      end
  end.

(** A string is held as its UTF-8 bytes; a byte [10xxxxxx] continues the
    character of the byte before it. *)
Definition continues (c : ascii) : bool :=
  let n := nat_of_ascii c in
  ((128 <=? n) && (n <? 192))%nat.

(** The characters a [for ... of] loop over a string yields: its code
    points, one string each. *)
Fixpoint chars (s : string) : list string :=
  match s with
  | EmptyString => []
  | String c rest =>
      match chars rest with
      | String c' next :: more =>
          if continues c' then String c (String c' next) :: more
          else String c EmptyString :: String c' next :: more
      | _ => [String c EmptyString]
      end
  end.

(** [Object.entries(v)] for a value with [typeof v === 'object'], not null. *)
Definition entries (v : JSON) : list (string * JSON) :=
  match v with
  | JObj props => props
  | JArr xs => imap (fun i x => (pretty (Z.of_nat i), x)) xs
  | _ => []
  end.

(** What [for (const x of v)] iterates over; [None] when [v] is not
    iterable and the loop throws a [TypeError]. *)
Definition iterate (v : JSON) : option (list JSON) :=
  match v with
  | JArr xs => Some xs
  | JStr s => Some (map JStr (chars s))
  | _ => None
  end.

End Json.

(** ** ConfigSpec and its evaluation

    [ConfigSpec.ts] and the evaluator are not among the sources; the
    repository's test of them is ([__tests__/OutputLogger.test.ts], from
    line 40 on). The model below follows the specification, and the test is
    translated as it is written, as a check of any [evaluate]. *)

Module Evaluator.
Import Json.

Record ConfigCondition : Type := mkCondition {
  cond_type : string;
  targetValue : option JSON;
  operator : option string;
  field : option string;
}.

Record ConfigRule : Type := mkRule {
  rule_name : option string;
  rule_id : string;
  passPercentage : Z;
  conditions : list ConfigCondition;
  returnValue : JSON;
  rule_salt : string;
}.

Inductive SpecType : Type := feature_gate | dynamic_config | layer.

Record ConfigSpec : Type := mkSpec {
  name : string;
  type : SpecType;
  salt : string;
  defaultValue : JSON;
  enabled : bool;
  rules : list ConfigRule;
  idType : string;
}.

Definition get_string (k : string) (j : JSON) : option string :=
  match get k j with
  | Some (JStr s) => Some s
  | _ => None
  end.

Definition newCondition (j : JSON) : option ConfigCondition :=
  match get_string "type" j with
  | Some t => Some (mkCondition t (get "targetValue" j) (get_string "operator" j)
                                (get_string "field" j))
  | None => None
  end.

(** [mapM] over a list: [None] as soon as one element fails. *)
Fixpoint all_some {A B : Type} (f : A -> option B) (xs : list A) : option (list B) :=
  match xs with
  | [] => Some []
  | x :: rest =>
      match f x, all_some f rest with
      | Some y, Some ys => Some (y :: ys)
      | _, _ => None
      end
  end.

Definition newRule (specSalt : string) (j : JSON) : option ConfigRule :=
  match get_string "id" j, get "passPercentage" j, get "conditions" j, get "returnValue" j with
  | Some id, Some (JNum p), Some (JArr cs), Some ret =>
      match all_some newCondition cs with
      | Some conds =>
          Some (mkRule (get_string "name" j) id p conds ret
                       (match get_string "salt" j with Some s => s | None => specSalt end))
      | None => None
      end
  | _, _, _, _ => None
  end.

Definition specType (s : string) : option SpecType :=
  if String.eqb s "feature_gate" then Some feature_gate
  else if String.eqb s "dynamic_config" then Some dynamic_config
  else if String.eqb s "layer" then Some layer
  else None.

(** Modelled from the spec: the constructor of [ConfigSpec], section 4.4.
    It validates that the required fields are present (here: [name],
    [type], [salt], [enabled], [defaultValue], [rules], and in a rule [id],
    [passPercentage], [conditions], [returnValue]), that [type] is a
    recognised kind and that [rules] is a sequence; a rule without a salt
    inherits the spec's; [idType] defaults to [userID]. [None] stands for
    the exception of a failed construction. *)
Definition newConfigSpec (j : JSON) : option ConfigSpec :=
  match get_string "name" j, get_string "type" j, get_string "salt" j,
        get "defaultValue" j, get "enabled" j, get "rules" j with
  | Some n, Some t, Some sa, Some d, Some (JBool e), Some (JArr rs) =>
      match specType t, all_some (newRule sa) rs with
      | Some ty, Some rules =>
          Some (mkSpec n ty sa d e rules
                       (match get_string "idType" j with Some i => i | None => "userID" end))
      | _, _ => None
      end
  | _, _, _, _, _, _ => None
  end.

(** *** Evaluation *)

Definition lower (c : ascii) : ascii :=
  let n := nat_of_ascii c in
  if ((65 <=? n) && (n <=? 90))%nat then ascii_of_nat (n + 32) else c.

Fixpoint toLowerCase (s : string) : string :=
  match s with
  | EmptyString => EmptyString
  | String c rest => String (lower c) (toLowerCase rest)
  end.

Fixpoint includes (needle haystack : string) : bool :=
  String.prefix needle haystack
  || match haystack with
     | EmptyString => false
     | String _ rest => includes needle rest
     end.

(** A property of an object, by a name compared without case. *)
Fixpoint assoc_nocase (k : string) (props : list (string * JSON)) : option JSON :=
  match props with
  | [] => None
  | (k', v) :: rest =>
      if String.eqb (toLowerCase k) (toLowerCase k') then Some v else assoc_nocase k rest
  end.

Definition get_nocase (k : string) (j : option JSON) : option JSON :=
  match j with
  | Some (JObj props) => assoc_nocase k props
  | _ => None
  end.

Definition or_else (a b : option JSON) : option JSON :=
  match a with
  | Some _ => a
  | None => b
  end.

(** Section 4.2: the lookup of a field of the user context, without case,
    [privateAttributes] first, then the top level, then [custom]. *)
Definition getFromUser (user : JSON) (f : string) : option JSON :=
  or_else (get_nocase f (get "privateAttributes" user))
    (or_else (get_nocase f (Some user)) (get_nocase f (get "custom" user))).

Record ConfigEvaluation : Type := mkEval {
  value : JSON;
  ruleID : string;
}.

Section Evaluate.

(** Section 4.1: the first 8 bytes of SHA-256, as an unsigned number. *)
Variable h : string -> Z.

(** The condition types and operators that are not spelled out below. *)
Variable otherCondition : JSON -> ConfigSpec -> ConfigCondition -> bool.

(** The rule id an evaluation of a disabled spec reports (step 1). *)
Variable disabledRuleID : string.

Definition str_contains_any (v : JSON) (target : option JSON) : bool :=
  match v, target with
  | JStr v, Some (JArr targets) =>
      existsb (fun t => match t with
                        | JStr t => includes (toLowerCase t) (toLowerCase v)
                        | _ => false
                        end) targets
  | _, _ => false
  end.

Definition evalCondition (user : JSON) (spec : ConfigSpec) (c : ConfigCondition) : bool :=
  if String.eqb (cond_type c) "public" then true
  else
    match String.eqb (cond_type c) "user_field", operator c, field c with
    | true, Some "str_contains_any", Some f =>
        match getFromUser user f with
        | Some v => str_contains_any v (targetValue c)
        | None => false
        end
    | _, _, _ => otherCondition user spec c
    end.

(** The unit id as a string; one that cannot be made a string counts as
    none. *)
Definition unitID (user : JSON) (spec : ConfigSpec) : string :=
  match getFromUser user (idType spec) with
  | Some v => default "" (toPropertyKey v)
  | None => ""
  end.

(** Section 4.1: [h(spec.salt + "." + rule.salt + "." + unitID) mod 10000
    < P * 100]. *)
Definition evalPassPercent (user : JSON) (spec : ConfigSpec) (rule : ConfigRule) : bool :=
  h (salt spec ++ "." ++ rule_salt rule ++ "." ++ unitID user spec)%string mod 10000
    <? passPercentage rule * 100.

(** Steps 2 and 3 of section 4.3. *)
Fixpoint evalRules (user : JSON) (spec : ConfigSpec) (rs : list ConfigRule)
  : ConfigEvaluation :=
  match rs with
  | [] => mkEval (defaultValue spec) "default"
  | rule :: rest =>
      if forallb (evalCondition user spec) (conditions rule) then
        if evalPassPercent user spec rule then mkEval (returnValue rule) (rule_id rule)
        else mkEval (defaultValue spec) (rule_id rule)
      else evalRules user spec rest
  end.

(** Modelled from the spec: [evaluate], section 4.3 (the fields [value] and
    [ruleID] of its result). Step 1 returns the default value of a disabled
    spec under [disabledRuleID]; the rules are not looked at. *)
Definition evaluate_with (spec : ConfigSpec) (user : JSON) : ConfigEvaluation :=
  if negb (enabled spec) then mkEval (defaultValue spec) disabledRuleID
  else evalRules user spec (rules spec).

End Evaluate.

(** Modelled from the spec: [evaluate] with step 1 as section 4.3 words it,
    [ruleID = "disabled"]. *)
Definition evaluate_as_worded h other : ConfigSpec -> JSON -> ConfigEvaluation :=
  evaluate_with h other "disabled".

(** Modelled from the spec: [evaluate] with step 1 as scenario 2 of section
    8 and the repository's test have it, [ruleID = "default"]. *)
Definition evaluate h other : ConfigSpec -> JSON -> ConfigEvaluation :=
  evaluate_with h other "default".

(** *** The repository's test of [evaluate] on gates *)

Definition condition_json : JSON :=
  JObj [("type", JStr "user_field");
        ("targetValue", JArr [JStr "packers.com"; JStr "nfl.com"]);
        ("operator", JStr "str_contains_any");
        ("field", JStr "email")].

(** The object the test passes to [new ConfigSpec] for [gateSpec]
    ([enabled] true) and for [disabledGateSpec] ([enabled] false, rule id
    [rule_id_disabled_gate]). *)
Definition gate_json (enabled : bool) (id : string) : JSON :=
  JObj [("name", JStr "nfl");
        ("type", JStr "feature_gate");
        ("salt", JStr "na");
        ("defaultValue", JBool false);
        ("enabled", JBool enabled);
        ("rules", JArr [JObj [("name", JStr "employees");
                              ("id", JStr id);
                              ("passPercentage", JNum 100);
                              ("conditions", JArr [condition_json]);
                              ("returnValue", JBool true)]])].

Definition gateSpec : option ConfigSpec :=
  newConfigSpec (gate_json true "rule_id_gate").

Definition disabledGateSpec : option ConfigSpec :=
  newConfigSpec (gate_json false "rule_id_disabled_gate").

Definition user_tore_packers : JSON := JObj [("email", JStr "tore@packers.com")].
Definition user_tore_nfl : JSON := JObj [("custom", JObj [("email", JStr "tore@nfl.com")])].

(** [expect(spec.evaluate(user)).toEqual({ value, rule_id })] *)
Definition expect_evaluate (evaluate : ConfigSpec -> JSON -> ConfigEvaluation)
    (spec : option ConfigSpec) (user : JSON) (value : JSON) (rule_id : string) : Prop :=
  option_map (fun spec => evaluate spec user) spec = Some (mkEval value rule_id).

(** The test 'Test evaluate works for gates', of any [evaluate]. *)
Definition test_evaluate_works_for_gates
    (evaluate : ConfigSpec -> JSON -> ConfigEvaluation) : Prop :=
  expect_evaluate evaluate gateSpec (JObj []) (JBool false) "default"
  /\ expect_evaluate evaluate gateSpec (JObj [("userID", JStr "jkw")]) (JBool false) "default"
  /\ expect_evaluate evaluate gateSpec user_tore_packers (JBool true) "rule_id_gate"
  /\ expect_evaluate evaluate gateSpec user_tore_nfl (JBool true) "rule_id_gate"
  /\ expect_evaluate evaluate gateSpec (JObj [("email", JStr "jkw@seahawks.com")])
       (JBool false) "default"
  /\ expect_evaluate evaluate disabledGateSpec user_tore_packers (JBool false) "default"
  /\ expect_evaluate evaluate disabledGateSpec user_tore_nfl (JBool false) "default".

(** *** What the test and the specification say of a disabled spec *)

Lemma evalPassPercent_100 h user spec rule :
  passPercentage rule = 100 -> evalPassPercent h user spec rule = true.
Proof.
  intros Hp. unfold evalPassPercent. rewrite Hp.
  apply Z.ltb_lt. apply Z.mod_pos_bound. lia.
Qed.

(** The model with [ruleID = "default"] in step 1 passes the repository's
    test, whatever the hash and the other conditions are. *)
Lemma evaluate_passes_the_test h other :
  test_evaluate_works_for_gates (evaluate h other).
Proof.
  unfold test_evaluate_works_for_gates, expect_evaluate, evaluate, evaluate_with.
  repeat split; cbn -[evalPassPercent]; try reflexivity;
    rewrite evalPassPercent_100 by reflexivity; reflexivity.
Qed.

(** No [evaluate] that reports a disabled spec under [ruleID = "disabled"]
    passes the repository's test. *)
Lemma disabled_rule_id_fails_the_test
    (ev : ConfigSpec -> JSON -> ConfigEvaluation) :
  (forall spec user, enabled spec = false -> ruleID (ev spec user) = "disabled") ->
  ~ test_evaluate_works_for_gates ev.
Proof.
  intros Hclaim (_ & _ & _ & _ & _ & Hdisabled & _).
  unfold expect_evaluate in Hdisabled. cbn in Hdisabled.
  match type of Hdisabled with
  | Some (ev ?spec ?user) = _ => specialize (Hclaim spec user eq_refl)
  end.
  injection Hdisabled as Hd. rewrite Hd in Hclaim. discriminate Hclaim.
Qed.

Lemma worded_evaluate_fails_the_test h other :
  ~ test_evaluate_works_for_gates (evaluate_as_worded h other).
Proof.
  apply disabled_rule_id_fails_the_test. intros spec user He.
  unfold evaluate_as_worded, evaluate_with. rewrite He. reflexivity.
Qed.

Definition with_rules (rs : list ConfigRule) (spec : ConfigSpec) : ConfigSpec :=
  mkSpec (name spec) (type spec) (salt spec) (defaultValue spec) (enabled spec) rs
         (idType spec).

(** C4, as the code has it. For every ConfigSpec with [enabled = false] and
    every user, [evaluate] returns [value = spec.defaultValue] with
    [ruleID = "default"] (as the repository's test expects, not
    ["disabled"]), and no rule is evaluated: the result is the same under
    any hash, any evaluation of conditions and any list of rules. *)
Theorem evaluate_disabled_returns_default
    (h h' : string -> Z) (other other' : JSON -> ConfigSpec -> ConfigCondition -> bool)
    (spec : ConfigSpec) (user : JSON) (rs : list ConfigRule) :
  enabled spec = false ->
  evaluate h other spec user = mkEval (defaultValue spec) "default"
  /\ evaluate h' other' (with_rules rs spec) user = evaluate h other spec user.
Proof.
  intros He. unfold evaluate, evaluate_with. cbn. rewrite He. cbn. split; reflexivity.
Qed.

Definition disabled_nfl : ConfigSpec :=
  mkSpec "nfl" feature_gate "na" (JBool false) false [] "userID".

Lemma evaluate_disabled_returns_default_witness :
  evaluate (fun _ => 0) (fun _ _ _ => false) disabled_nfl user_tore_packers
    = mkEval (JBool false) "default"
  /\ evaluate (fun _ => 1) (fun _ _ _ => true) (with_rules [] disabled_nfl) user_tore_packers
     = evaluate (fun _ => 0) (fun _ _ _ => false) disabled_nfl user_tore_packers.
Proof.
  apply (evaluate_disabled_returns_default
           (fun _ => 0) (fun _ => 1) (fun _ _ _ => false) (fun _ _ _ => true)
           disabled_nfl user_tore_packers []).
  reflexivity.
Defined.

(** C4, as stated, fails on the test's own input: the disabled gate of the
    test, evaluated on the user of line 255, reports [ruleID = "default"],
    which is not ["disabled"]. *)
Lemma evaluate_disabled_gate_is_not_disabled_rule :
  option_map enabled disabledGateSpec = Some false
  /\ option_map (fun spec => evaluate (fun _ => 0) (fun _ _ _ => false) spec user_tore_packers)
       disabledGateSpec = Some (mkEval (JBool false) "default")
  /\ option_map (fun spec => ruleID (evaluate (fun _ => 0) (fun _ _ _ => false) spec
                                              user_tore_packers))
       disabledGateSpec <> Some "disabled".
Proof.
  repeat split; try reflexivity. cbn. discriminate.
Qed.

End Evaluator.

(** ** ErrorBoundary *)

Module ErrorBoundary.

(** The classes of [Errors] that [onCaught] tests with [instanceof]; they
    are taken to be four unrelated subclasses of [Error]. *)
Inductive ErrorClass : Type :=
| StatsigUninitializedError
| StatsigInvalidArgumentError
| StatsigTooManyRequestsError
| StatsigLocalModeNetworkError
| OtherError.

(** A thrown value (or the reason of a rejection): [null] or [undefined],
    an [Error] with its [name] and [stack], or any other value, given by
    what [getDescription] makes of it. *)
Inductive Thrown : Type :=
| Nullish
| AnError (cls : ErrorClass) (name : string) (stack : option string)
| NotAnError (description : string).

Inductive Promise (T : Type) : Type :=
| Resolved (v : T)
| Rejected (e : Thrown).
Arguments Resolved {T} v.
Arguments Rejected {T} e.

(** What a function returns: a plain value or a promise. *)
Inductive Value (T : Type) : Type :=
| Sync (v : T)
| Async (p : Promise T).
Arguments Sync {T} v.
Arguments Async {T} p.

(** What a call comes to: a returned value or an exception. *)
Inductive Outcome (T : Type) : Type :=
| Return (v : Value T)
| Throw (e : Thrown).
Arguments Return {T} v.
Arguments Throw {T} e.

(** What the boundary does to the world outside. *)
Inductive Effect : Type :=
| OutputLoggerError (message : string) (e : Thrown)
| Post (endpoint apiKey exception : string) (info : option string).

Definition ExceptionEndpoint : string := "https://statsigapi.net/v1/sdk_exception".

Record ErrorBoundary : Type := mkBoundary {
  sdkKey : string;
  seen : gset string;
}.

Section Boundary.

(** The [stack] of the [Error] made for an empty error: the runtime's. *)
Variable emptyErrorStack : option string.

Definition logError (error : Thrown) (key : option string) (this : ErrorBoundary)
  : ErrorBoundary * list Effect :=
  if String.eqb (sdkKey this) "" then (this, [])
  else
    let unwrapped :=
      match error with
      | Nullish => AnError OtherError "Error" emptyErrorStack
      | _ => error
      end in
    let name :=
      match unwrapped with
      | AnError _ n _ => if String.eqb n "" then "No Name" else n
      | _ => "No Name"
      end in
    if bool_decide (name ∈ seen this)
       || match key with
          | Some key => bool_decide (key ∈ seen this)
          | None => false
          end
    then (this, [])
    else
      let this := mkBoundary (sdkKey this) ({[name]} ∪ seen this) in
      let info :=
        match unwrapped with
        | AnError _ _ stack => stack
        | NotAnError description => Some description
        | Nullish => None
        end in
      (this, [Post ExceptionEndpoint (sdkKey this) name info]).

Definition propagated (error : Thrown) : bool :=
  match error with
  | AnError StatsigUninitializedError _ _
  | AnError StatsigInvalidArgumentError _ _
  | AnError StatsigTooManyRequestsError _ _ => true
  | _ => false
  end.

Definition localModeNetwork (error : Thrown) : bool :=
  match error with
  | AnError StatsigLocalModeNetworkError _ _ => true
  | _ => false
  end.

Definition onCaught {T : Type} (error : Thrown) (recover : Thrown -> Outcome T)
    (this : ErrorBoundary) : Outcome T * ErrorBoundary * list Effect :=
  if propagated error then (Throw error, this, [])
  else if localModeNetwork error then (recover error, this, [])
  else
    let '(this', posts) := logError error None this in
    (recover error, this',
     OutputLoggerError "[Statsig] An unexpected exception occurred." error :: posts).

(** The promise [p.catch(handler)] settles to when [p] rejected and the
    handler came to [o]: a promise returned by the handler is adopted. *)
Definition settled {T : Type} (o : Outcome T) : Promise T :=
  match o with
  | Return (Sync v) => Resolved v
  | Return (Async p) => p
  | Throw e => Rejected e
  end.

(** [task] is what calling the task comes to. *)
Definition capture {T : Type} (task : Outcome T) (recover : Thrown -> Outcome T)
    (this : ErrorBoundary) : Outcome T * ErrorBoundary * list Effect :=
  match task with
  | Return (Async (Rejected e)) =>
      let '(o, this', effects) := onCaught e recover this in
      (Return (Async (settled o)), this', effects)
  | Return result => (Return result, this, [])
  | Throw error => onCaught error recover this
  end.

(** A sequence of calls of [logError], each with the effects it had. *)
Fixpoint logErrors (calls : list (Thrown * option string)) (this : ErrorBoundary)
  : ErrorBoundary * list (option string * list Effect) :=
  match calls with
  | [] => (this, [])
  | (error, key) :: rest =>
      let '(this', effects) := logError error key this in
      let '(final, log) := logErrors rest this' in
      (final, (key, effects) :: log)
  end.

(** The names under which a list of effects reports an exception. *)
Definition posted (effects : list Effect) : list string :=
  omap (fun e => match e with
                 | Post _ _ exception _ => Some exception
                 | _ => None
                 end) effects.

(** *** The contract of [capture] *)

Definition unexpected : string := "[Statsig] An unexpected exception occurred.".

Lemma onCaught_propagated {T : Type} e (recover : Thrown -> Outcome T) this :
  propagated e = true -> onCaught e recover this = (Throw e, this, []).
Proof. intros H. unfold onCaught. rewrite H. reflexivity. Qed.

Lemma onCaught_localMode {T : Type} e (recover : Thrown -> Outcome T) this :
  localModeNetwork e = true -> onCaught e recover this = (recover e, this, []).
Proof.
  intros H. unfold onCaught. rewrite H.
  destruct e as [|[] ? ?|]; try discriminate H; reflexivity.
Qed.

Lemma onCaught_unexpected {T : Type} e (recover : Thrown -> Outcome T) this :
  propagated e = false -> localModeNetwork e = false ->
  onCaught e recover this
  = (recover e, fst (logError e None this),
     OutputLoggerError unexpected e :: snd (logError e None this)).
Proof.
  intros H1 H2. unfold onCaught. rewrite H1, H2.
  destruct (logError e None this). reflexivity.
Qed.

(** The name an error is reported under. *)
Definition reported_name (error : Thrown) : string :=
  match error with
  | AnError _ name _ => if String.eqb name "" then "No Name" else name
  | Nullish => "Error"
  | NotAnError _ => "No Name"
  end.

(** The [info] an error is reported with: its stack, or its description
    if it is no [Error]. *)
Definition reported_info (error : Thrown) : option string :=
  match error with
  | Nullish => emptyErrorStack
  | AnError _ _ stack => stack
  | NotAnError description => Some description
  end.

Lemma logError_without_key error this :
  logError error None this
  = if String.eqb (sdkKey this) "" || bool_decide (reported_name error ∈ seen this)
    then (this, [])
    else (mkBoundary (sdkKey this) ({[reported_name error]} ∪ seen this),
          [Post ExceptionEndpoint (sdkKey this) (reported_name error)
                (reported_info error)]).
Proof.
  unfold logError. destruct (String.eqb (sdkKey this) ""); [reflexivity|].
  destruct error as [|cls name stack|description]; cbn;
    match goal with
    | |- context [bool_decide ?P] => destruct (bool_decide P)
    end; reflexivity.
Qed.

(** C5, as the code has it. [capture(task, recover)] returns the task's
    result when it succeeds (a plain value, or a promise that resolves);
    when the task throws, or its promise rejects, with an Uninitialized,
    InvalidArgument or TooManyRequests error, the error propagates
    unchanged (thrown, or as the rejection) with no effect; a
    LocalModeNetwork error is recovered with no log and no telemetry; every
    other error is logged to the output logger and [capture] returns
    [recover(err)]; it is reported, by one POST to the exception endpoint
    under its name, only if the boundary has an SDK key and has not seen
    that name, which it then records. With no SDK key, or with a name
    already seen, nothing is reported. *)
Theorem capture_contract (T : Type) (recover : Thrown -> Outcome T) (this : ErrorBoundary) :
  (forall v : T, capture (Return (Sync v)) recover this = (Return (Sync v), this, []))
  /\ (forall v : T,
        capture (Return (Async (Resolved v))) recover this
        = (Return (Async (Resolved v)), this, []))
  /\ (forall e, propagated e = true ->
        capture (Throw e) recover this = (Throw e, this, [])
        /\ capture (Return (Async (Rejected e))) recover this
           = (Return (Async (Rejected e)), this, []))
  /\ (forall e, localModeNetwork e = true ->
        capture (Throw e) recover this = (recover e, this, [])
        /\ capture (Return (Async (Rejected e))) recover this
           = (Return (Async (settled (recover e))), this, []))
  /\ (forall e, propagated e = false -> localModeNetwork e = false ->
        if String.eqb (sdkKey this) "" || bool_decide (reported_name e ∈ seen this)
        then
          capture (Throw e) recover this
          = (recover e, this, [OutputLoggerError unexpected e])
          /\ capture (Return (Async (Rejected e))) recover this
             = (Return (Async (settled (recover e))), this,
                [OutputLoggerError unexpected e])
        else
          capture (Throw e) recover this
          = (recover e,
             mkBoundary (sdkKey this) ({[reported_name e]} ∪ seen this),
             [OutputLoggerError unexpected e;
              Post ExceptionEndpoint (sdkKey this) (reported_name e) (reported_info e)])
          /\ capture (Return (Async (Rejected e))) recover this
             = (Return (Async (settled (recover e))),
                mkBoundary (sdkKey this) ({[reported_name e]} ∪ seen this),
                [OutputLoggerError unexpected e;
                 Post ExceptionEndpoint (sdkKey this) (reported_name e)
                      (reported_info e)])).
Proof.
  split; [reflexivity|]. split; [reflexivity|].
  split; [|split].
  - intros e He. cbn. rewrite (onCaught_propagated e recover this He). split; reflexivity.
  - intros e He. cbn. rewrite (onCaught_localMode e recover this He). split; reflexivity.
  - intros e H1 H2. cbn. rewrite (onCaught_unexpected e recover this H1 H2).
    rewrite logError_without_key.
    destruct (String.eqb (sdkKey this) "" || bool_decide (reported_name e ∈ seen this));
      split; reflexivity.
Qed.

(** *** Deduplication in [logError] *)

Lemma logError_effects error key this :
  snd (logError error key this) = []
  \/ exists name info,
       snd (logError error key this) = [Post ExceptionEndpoint (sdkKey this) name info]
       /\ (name ∉ seen this)
       /\ seen (fst (logError error key this)) = {[name]} ∪ seen this.
Proof.
  unfold logError. destruct (String.eqb (sdkKey this) ""); [left; reflexivity|].
  match goal with
  | |- context [bool_decide (?n ∈ seen this)] => destruct (decide (n ∈ seen this)) as [Hin|Hin]
  end.
  - rewrite (bool_decide_eq_true_2 _ Hin). left. reflexivity.
  - rewrite (bool_decide_eq_false_2 _ Hin). cbn [orb].
    match goal with
    | |- context [if ?c then _ else _] => destruct c
    end; [left; reflexivity|].
    right. eexists _, _. cbn. split; [reflexivity|]. split; [exact Hin|reflexivity].
Qed.

(** With an SDK key set, an error whose name has not been seen is posted,
    and its name recorded. *)
Lemma logError_posts_unseen error this :
  String.eqb (sdkKey this) "" = false ->
  reported_name error ∉ seen this ->
  exists info,
    logError error None this
    = (mkBoundary (sdkKey this) ({[reported_name error]} ∪ seen this),
       [Post ExceptionEndpoint (sdkKey this) (reported_name error) info]).
Proof.
  intros Hkey Hfresh. unfold logError. rewrite Hkey.
  destruct error as [|cls name stack|description]; cbn in *;
    rewrite (bool_decide_eq_false_2 _ Hfresh); cbn; eexists; reflexivity.
Qed.

Lemma logError_seen_grows error key this :
  seen this ⊆ seen (fst (logError error key this)).
Proof.
  destruct (logError_effects error key this) as [H|(n & i & H & Hn & Hs)].
  - unfold logError in *. destruct (String.eqb (sdkKey this) ""); [done|].
    repeat match goal with
    | H : context [if ?c then _ else _] |- _ => destruct c eqn:?
    | |- context [if ?c then _ else _] => destruct c eqn:?
    end; cbn in *; try done; set_solver.
  - rewrite Hs. set_solver.
Qed.

Lemma logError_posted_recorded error key this n :
  n ∈ posted (snd (logError error key this)) ->
  (n ∉ seen this) /\ n ∈ seen (fst (logError error key this)).
Proof.
  destruct (logError_effects error key this) as [H|(m & i & H & Hm & Hs)]; rewrite H.
  - cbn. intros Hin. inversion Hin.
  - cbn. intros Hin. apply list_elem_of_singleton in Hin. subst n.
    split; [exact Hm|]. rewrite Hs. set_solver.
Qed.

(** Every exception name posted by a sequence of calls. *)
Definition all_posted (log : list (option string * list Effect)) : list string :=
  concat (map (fun entry => posted (snd entry)) log).

Lemma logErrors_posted_fresh calls : forall this n,
  n ∈ all_posted (snd (logErrors calls this)) ->
  (n ∉ seen this) /\ n ∈ seen (fst (logErrors calls this)).
Proof.
  induction calls as [|[error key] rest IH]; intros this n.
  - cbn. intros Hin. inversion Hin.
  - cbn. destruct (logError error key this) as [this' effects] eqn:Hone.
    destruct (logErrors rest this') as [final log] eqn:Hrest.
    cbn. unfold all_posted. cbn. fold (all_posted log). intros Hin.
    pose proof (logError_seen_grows error key this) as Hgrow. rewrite Hone in Hgrow.
    assert (Hsub : seen this' ⊆ seen final).
    { clear -Hrest. revert this' final log Hrest.
      induction rest as [|[e k] rest IHr]; intros this' final log Hrest.
      - cbn in Hrest. injection Hrest as <- _. done.
      - cbn in Hrest. destruct (logError e k this') as [t fx] eqn:H1.
        destruct (logErrors rest t) as [f l] eqn:H2. injection Hrest as <- _.
        pose proof (logError_seen_grows e k this') as Hg. rewrite H1 in Hg.
        specialize (IHr _ _ _ H2). set_solver. }
    apply elem_of_app in Hin as [Hin|Hin].
    + pose proof (logError_posted_recorded error key this n) as Hp.
      rewrite Hone in Hp. destruct (Hp Hin) as [Hfresh Hrec]. cbn in *.
      split; [exact Hfresh|set_solver].
    + specialize (IH this' n). rewrite Hrest in IH. destruct (IH Hin) as [Hfresh Hrec].
      cbn in *. split; [set_solver|exact Hrec].
Qed.

(** The part of the deduplication that holds: over any sequence of calls,
    from any state, no exception name is posted twice. *)
Lemma logErrors_post_once_per_name calls this :
  NoDup (all_posted (snd (logErrors calls this))).
Proof.
  revert this. induction calls as [|[error key] rest IH]; intros this.
  - cbn. constructor.
  - cbn. destruct (logError error key this) as [this' effects] eqn:Hone.
    destruct (logErrors rest this') as [final log] eqn:Hrest.
    cbn. unfold all_posted. cbn. fold (all_posted log).
    apply NoDup_app. split; [|split].
    + destruct (logError_effects error key this) as [H|(m & i & H & _)];
        rewrite Hone in H; cbn in H; rewrite H; cbn.
      * constructor.
      * apply NoDup_singleton.
    + intros n Hn Hn'.
      pose proof (logError_posted_recorded error key this n) as Hp.
      rewrite Hone in Hp. destruct (Hp Hn) as [_ Hrec]. cbn in Hrec.
      pose proof (logErrors_posted_fresh rest this' n) as Hf.
      rewrite Hrest in Hf. destruct (Hf Hn') as [Hfresh _]. contradiction.
    + specialize (IH this'). rewrite Hrest in IH. exact IH.
Qed.

(** *** [swallow] and a boundary with no key *)

(** [swallow(task)]: [capture] with a recovery that returns [undefined]
    ([None]); the value [capture] returns is dropped. The result is the
    exception that escapes, if one does. *)
(** What escapes a call of [swallow]: nothing; an exception, thrown to the
    caller; or a rejection that nobody handles, for [swallow] drops the
    promise that [capture] returns. *)
Inductive Escape : Type :=
| Nothing
| Throws (e : Thrown)
| Unhandled (e : Thrown).

Definition swallow {T : Type} (task : Outcome (option T)) (this : ErrorBoundary)
  : Escape * ErrorBoundary * list Effect :=
  let '(o, this', effects) := capture task (fun _ => Return (Sync None)) this in
  (match o with
   | Throw e => Throws e
   | Return (Async (Rejected e)) => Unhandled e
   | Return _ => Nothing
   end, this', effects).

Ltac escapes :=
  split;
  [ intros Hescape;
    first [ discriminate Hescape
          | injection Hescape as <-; split; [reflexivity|assumption] ]
  | intros [Htask Hpropagated];
    first [ discriminate Htask
          | injection Htask as <-; first [reflexivity|congruence] ] ].

(** [swallow] lets an error out only if it is an Uninitialized,
    InvalidArgument or TooManyRequests error: thrown to the caller when the
    task throws it, and left as an unhandled rejection when the task's
    promise rejects with it, in both cases that very error and with no
    effect. Every other failure of the task is swallowed. *)
Theorem swallow_lets_only_propagated_escape (T : Type) (task : Outcome (option T))
    (this : ErrorBoundary) (e : Thrown) :
  (fst (fst (swallow task this)) = Throws e
   <-> task = Throw e /\ propagated e = true)
  /\ (fst (fst (swallow task this)) = Unhandled e
      <-> task = Return (Async (Rejected e)) /\ propagated e = true)
  /\ (fst (fst (swallow task this)) <> Nothing ->
      snd (fst (swallow task this)) = this /\ snd (swallow task this) = []).
Proof.
  unfold swallow, capture, onCaught.
  destruct task as [[v|[v|e']]|e']; cbn;
    try destruct (propagated e') eqn:Hp; cbn;
    try destruct (localModeNetwork e'); cbn;
    try destruct (logError e' None this); cbn;
    (split; [escapes|split; [escapes|]]);
    intros Hne;
    first [ exfalso; apply Hne; reflexivity | split; reflexivity ].
Qed.

Lemma logError_no_key error key this :
  sdkKey this = "" -> logError error key this = (this, []).
Proof. intros H. unfold logError. rewrite H. reflexivity. Qed.

(** A boundary whose SDK key is empty reports nothing and records nothing:
    over any sequence of calls of [logError] no request is posted and the
    boundary is unchanged, and [capture] of a task that fails with an
    unexpected error only writes to the output logger before it recovers. *)
Theorem no_key_no_report (calls : list (Thrown * option string)) (this : ErrorBoundary)
    (T : Type) (recover : Thrown -> Outcome T) (e : Thrown) :
  sdkKey this = "" ->
  logErrors calls this = (this, map (fun call => (snd call, [])) calls)
  /\ (propagated e = false -> localModeNetwork e = false ->
      capture (Throw e) recover this
      = (recover e, this, [OutputLoggerError unexpected e])).
Proof.
  intros Hkey. split.
  - induction calls as [|[error key] rest IH]; [reflexivity|].
    cbn. rewrite (logError_no_key error key this Hkey), IH. reflexivity.
  - intros H1 H2. cbn. unfold onCaught. rewrite H1, H2.
    rewrite (logError_no_key e None this Hkey). reflexivity.
Qed.

End Boundary.

(** *** Concrete runs *)

Definition boundary0 : ErrorBoundary := mkBoundary "secret-key" ∅.
Definition type_error : Thrown := AnError OtherError "TypeError" (Some "TypeError: at evaluate").
Definition range_error : Thrown := AnError OtherError "RangeError" (Some "RangeError: at hash").
Definition invalid_argument : Thrown :=
  AnError StatsigInvalidArgumentError "StatsigInvalidArgumentError" None.
Definition local_mode : Thrown :=
  AnError StatsigLocalModeNetworkError "StatsigLocalModeNetworkError" None.
Definition recover_false (e : Thrown) : Outcome bool := Return (Sync false).

Lemma capture_contract_witness :
  capture None (Throw invalid_argument) recover_false boundary0
    = (Throw invalid_argument, boundary0, [])
  /\ capture None (Return (Async (Rejected local_mode))) recover_false boundary0
     = (Return (Async (Resolved false)), boundary0, [])
  /\ capture None (Throw type_error) recover_false boundary0
     = (Return (Sync false), mkBoundary "secret-key" ({["TypeError"]} ∪ ∅),
        [OutputLoggerError unexpected type_error;
         Post ExceptionEndpoint "secret-key" "TypeError" (Some "TypeError: at evaluate")]).
Proof.
  destruct (capture_contract None bool recover_false boundary0)
    as (_ & _ & Hpropagated & Hlocal & Hother).
  split; [|split].
  - apply (Hpropagated invalid_argument). reflexivity.
  - apply (Hlocal local_mode). reflexivity.
  - apply (Hother type_error eq_refl eq_refl).
Defined.

(** A boundary that has reported a TypeError before, and one with no key. *)
Definition boundary_seen : ErrorBoundary := mkBoundary "secret-key" {["TypeError"]}.
Definition boundary_no_key : ErrorBoundary := mkBoundary "" ∅.

(** C5, as stated, fails: an error that is none of the four kinds is not
    always reported. When the boundary has seen its name, or has no SDK
    key, [capture] logs it and returns [recover(err)], and posts nothing. *)
Lemma capture_seen_error_is_not_reported :
  propagated type_error = false
  /\ localModeNetwork type_error = false
  /\ capture None (Throw type_error) recover_false boundary_seen
     = (Return (Sync false), boundary_seen, [OutputLoggerError unexpected type_error])
  /\ posted (snd (capture None (Throw type_error) recover_false boundary_seen)) = []
  /\ capture None (Return (Async (Rejected type_error))) recover_false boundary_no_key
     = (Return (Async (Resolved false)), boundary_no_key,
        [OutputLoggerError unexpected type_error])
  /\ posted (snd (capture None (Return (Async (Rejected type_error))) recover_false
                    boundary_no_key)) = [].
Proof. repeat split; vm_compute; reflexivity. Qed.

(** An unexpected error under a fresh name is posted once, and the name is
    all that the boundary records. *)
Example logError_posts_and_records_the_name :
  logError None type_error (Some "evaluator") boundary0
  = (mkBoundary "secret-key" {["TypeError"]},
     [Post ExceptionEndpoint "secret-key" "TypeError" (Some "TypeError: at evaluate")]).
Proof. vm_compute. reflexivity. Qed.

(** C6, where the code departs from it: two errors of different names
    logged under one explicit key are both posted. The key is looked up in
    [seen], but only the name is ever added to it. *)
Theorem logError_same_key_posts_twice :
  snd (logErrors None [(type_error, Some "evaluator"); (range_error, Some "evaluator")]
                 boundary0)
  = [(Some "evaluator",
      [Post ExceptionEndpoint "secret-key" "TypeError" (Some "TypeError: at evaluate")]);
     (Some "evaluator",
      [Post ExceptionEndpoint "secret-key" "RangeError" (Some "RangeError: at hash")])].
Proof. vm_compute. reflexivity. Qed.

Lemma swallow_lets_only_propagated_escape_witness :
  fst (fst (swallow None (Throw invalid_argument : Outcome (option bool)) boundary0))
  = Throws invalid_argument
  /\ fst (fst (swallow None
                 (Return (Async (Rejected invalid_argument)) : Outcome (option bool))
                 boundary0))
     = Unhandled invalid_argument.
Proof.
  split.
  - apply (proj2 (proj1 (swallow_lets_only_propagated_escape None bool
                           (Throw invalid_argument) boundary0 invalid_argument))).
    split; reflexivity.
  - apply (proj2 (proj1 (proj2 (swallow_lets_only_propagated_escape None bool
                                  (Return (Async (Rejected invalid_argument)))
                                  boundary0 invalid_argument)))).
    split; reflexivity.
Defined.

Lemma no_key_no_report_witness :
  logErrors None [(type_error, None); (range_error, Some "evaluator")] boundary_no_key
  = (boundary_no_key, [(None, []); (Some "evaluator", [])])
  /\ (propagated type_error = false -> localModeNetwork type_error = false ->
      capture None (Throw type_error) recover_false boundary_no_key
      = (recover_false type_error, boundary_no_key,
         [OutputLoggerError unexpected type_error])).
Proof.
  apply (no_key_no_report None [(type_error, None); (range_error, Some "evaluator")]
           boundary_no_key bool recover_false type_error).
  reflexivity.
Defined.

Lemma logError_posts_unseen_witness :
  exists info,
    logError None type_error None boundary0
    = (mkBoundary (sdkKey boundary0) ({[reported_name type_error]} ∪ seen boundary0),
       [Post ExceptionEndpoint (sdkKey boundary0) (reported_name type_error) info]).
Proof.
  apply (logError_posts_unseen None type_error boundary0).
  - reflexivity.
  - vm_compute. intros H. discriminate H.
Defined.

End ErrorBoundary.

(** ** SpecStore: the snapshot and [_process] *)

Module SpecStore.
Import Json.

(** A JavaScript number that may be [NaN] or an infinity: what [parseInt]
    returns and what [readBytes] holds. *)
Inductive JsNumber : Type :=
| Num (z : Z)
| NaN
| Infinity (negative : bool).

(** The number an integer makes: the nearest double, or an infinity. *)
Definition js_number (z : Z) : JsNumber :=
  match to_double z with
  | Some x => Num x
  | None => Infinity (z <? 0)
  end.

(** [a + b] on doubles that are integers: the sum, rounded. *)
Definition js_add (a b : JsNumber) : JsNumber :=
  match a, b with
  | Num x, Num y => js_number (x + y)
  | Infinity s, Num _ => Infinity s
  | Num _, Infinity s => Infinity s
  | Infinity s, Infinity s' => if Bool.eqb s s' then Infinity s else NaN
  | NaN, _ => NaN
  | _, NaN => NaN
  end.

(** [a <= b]; any comparison with [NaN] is false. *)
Definition js_le (a b : JsNumber) : bool :=
  match a, b with
  | Num x, Num y => x <=? y
  | Num _, Infinity negative => negb negative
  | Infinity negative, Num _ => negative
  | Infinity negative, Infinity negative' => negative || negb negative'
  | NaN, _ => false
  | _, NaN => false
  end.

(** [typeof n === 'number']: true of every number, [NaN] included. *)
Definition typeof_number (n : JsNumber) : bool :=
  match n with
  | Num _ => true
  | NaN => true
  | Infinity _ => true
  end.

Definition is_space (c : ascii) : bool :=
  let n := nat_of_ascii c in
  ((9 <=? n) && (n <=? 13) || (n =? 32))%nat.

Fixpoint skip_space (s : string) : string :=
  match s with
  | String c rest => if is_space c then skip_space rest else s
  | EmptyString => s
  end.

Definition digit_value (c : ascii) : option Z :=
  let n := Z.of_nat (nat_of_ascii c) in
  if (48 <=? n) && (n <=? 57) then Some (n - 48)
  else if (97 <=? n) && (n <=? 122) then Some (n - 87)
  else if (65 <=? n) && (n <=? 90) then Some (n - 55)
  else None.

(** The longest prefix of digits of the radix, as a number; [acc] is [None]
    until a digit has been read. *)
Fixpoint digits (radix : Z) (s : string) (acc : option Z) : option Z :=
  match s with
  | String c rest =>
      match digit_value c with
      | Some d =>
          if d <? radix
          then digits radix rest (Some (match acc with Some a => a * radix + d | None => d end))
          else acc
      | None => acc
      end
  | EmptyString => acc
  end.

(** [parseInt(s)] with no radix: leading white space, a sign, [0x] for
    hexadecimal, then digits; [NaN] when there is no digit. The digits are
    read as the integer they write, and the result is the double nearest
    to it. *)
Definition parseInt (s : string) : JsNumber :=
  let s := skip_space s in
  let '(sign, s) :=
    match s with
    | String "-" rest => (-1, rest)
    | String "+" rest => (1, rest)
    | _ => (1, s)
    end in
  let '(radix, s) :=
    match s with
    | String "0" (String "x" rest) => (16, rest)
    | String "0" (String "X" rest) => (16, rest)
    | _ => (10, s)
    end in
  match digits radix s None with
  | Some n => js_number (sign * n)
  | None => NaN
  end.

Record IDList : Type := mkIDList {
  ids : gset string;
  readBytes : JsNumber;
  url : string;
  fileID : string;
  creationTime : Z;
}.

Record DiagnosticsSamplingRate : Type := mkRates {
  dcs : Z;
  log : Z;
  idlist : Z;
  initialize : Z;
}.

Inductive SamplingKey : Type := Kdcs | Klog | Kidlist | Kinitialize.

Definition rate (k : SamplingKey) (r : DiagnosticsSamplingRate) : Z :=
  match k with
  | Kdcs => dcs r
  | Klog => log r
  | Kidlist => idlist r
  | Kinitialize => initialize r
  end.

(** [samplingRates[key] = v] *)
Definition set_rate (k : SamplingKey) (v : Z) (r : DiagnosticsSamplingRate)
  : DiagnosticsSamplingRate :=
  match k with
  | Kdcs => mkRates v (log r) (idlist r) (initialize r)
  | Klog => mkRates (dcs r) v (idlist r) (initialize r)
  | Kidlist => mkRates (dcs r) (log r) v (initialize r)
  | Kinitialize => mkRates (dcs r) (log r) (idlist r) v
  end.

Definition key_name (k : SamplingKey) : string :=
  match k with
  | Kdcs => "dcs"
  | Klog => "log"
  | Kidlist => "idlist"
  | Kinitialize => "initialize"
  end.

(** A timer handle, as [poll] returns it. *)
Definition Timer : Type := nat.

Inductive InitStrategy : Type := StrategyAwait | StrategyLazy | StrategyNone.

(** What the store asks of a data adapter besides [get] and [set]:
    [supportsPollingUpdatesFor?.(key) === true] for the two keys. *)
Record AdapterCaps : Type := mkAdapterCaps {
  pollsRulesets : bool;
  pollsIDLists : bool;
}.

(** A string handed to [JSON.parse]: the value it parses to, or
    [Unparsable] when [JSON.parse] throws (as it does on the empty string). *)
Inductive Text : Type :=
| Unparsable
| Parses (j : JSON).

(** The options the constructor copies into fields that are never assigned
    again. *)
Record ExplicitStatsigOptions : Type := mkOptions {
  rulesetsSyncIntervalMs : Z;
  idListsSyncIntervalMs : Z;
  dataAdapter : option AdapterCaps;
  bootstrapValues : option Text;
  initStrategyForIDLists : InitStrategy;
}.

(** *** Reading a plain object *)

(** The property names of [Object.prototype], which every plain object
    inherits. *)
Definition Object_prototype : list string :=
  ["constructor"; "__defineGetter__"; "__defineSetter__"; "hasOwnProperty";
   "__lookupGetter__"; "__lookupSetter__"; "isPrototypeOf"; "propertyIsEnumerable";
   "toString"; "valueOf"; "__proto__"; "toLocaleString"].

(** What [obj[name] ?? null] comes to on one of the store's objects: a
    value the store put there; a member of [Object.prototype] (a function,
    or [Object.prototype] itself for [__proto__]), which is not [null];
    whatever [proto[name] ?? null] is, on the prototype an assignment under
    [__proto__] gave the object; or [null]. *)
Inductive Read (A : Type) : Type :=
| Found (a : A)
| Inherited (name : string)
| Through (proto : A) (name : string)
| Null.
Arguments Found {A} a.
Arguments Inherited {A} name.
Arguments Through {A} proto name.
Arguments Null {A}.

Definition read {A : Type} (obj : gmap string A) (name : string) : Read A :=
  match obj !! name with
  | Some a => Found a
  | None =>
      match obj !! "__proto__" with
      | Some proto => Through proto name
      | None => if bool_decide (name ∈ Object_prototype) then Inherited name else Null
      end
  end.

Section Store.

(** [ConfigSpec] and its constructor are not among the sources: the store
    only calls the constructor and assigns the spec under its [name], in one
    [try] block: [None] when either throws, and [spec_name] is the property
    key the [name] makes. *)
Variable ConfigSpec : Type.
Variable newConfigSpec : JSON -> option ConfigSpec.
Variable spec_name : ConfigSpec -> string.

(** Exported by [Diagnostics] in the repository, not in the sources. *)
Variable MAX_SAMPLING_RATE : Z.

(** The objects of the store are plain objects ([{}]) that the code fills
    by assignments [obj[name] = value]; each is held as the map such
    assignments build. In [gates], [configs] and [layers] the values are
    specs, and an assignment under [__proto__] adds no property but makes
    the spec the prototype of the object: the entry of the map under
    [__proto__] stands for that prototype ([read]). In [experimentToLayer]
    the values are strings, and an assignment under [__proto__] does
    nothing ([assign_layer]). *)
Record ConfigStore : Type := mkConfigStore {
  gates : gmap string ConfigSpec;
  configs : gmap string ConfigSpec;
  idLists : gmap string IDList;
  layers : gmap string ConfigSpec;
  experimentToLayer : gmap string string;
}.

(** The fields of a [SpecStore] that are assigned after construction.
    [lastUpdateTime] is declared [number], but [specsJSON.time as number] is
    no check: it holds whatever value the payload carried. *)
Record SpecStore : Type := mkSpecStore {
  initReason : string;
  initialUpdateTime : JSON;
  lastUpdateTime : JSON;
  store : ConfigStore;
  initialized : bool;
  rulesetsSyncTimer : option Timer;
  idListsSyncTimer : option Timer;
  rulesetsSyncTimerLastActiveTime : Z;
  idListsSyncTimerLastActiveTime : Z;
  rulesetsSyncFailureCount : Z;
  idListsSyncFailureCount : Z;
  samplingRates : DiagnosticsSamplingRate;
  clientSDKKeyToAppMap : JSON;
}.

(** Assignments to a field: [this.f = v]. *)
Definition set_initReason v (this : SpecStore) : SpecStore :=
  mkSpecStore v (initialUpdateTime this) (lastUpdateTime this) (store this)
    (initialized this) (rulesetsSyncTimer this) (idListsSyncTimer this)
    (rulesetsSyncTimerLastActiveTime this) (idListsSyncTimerLastActiveTime this)
    (rulesetsSyncFailureCount this) (idListsSyncFailureCount this) (samplingRates this)
    (clientSDKKeyToAppMap this).
Definition set_initialUpdateTime v (this : SpecStore) : SpecStore :=
  mkSpecStore (initReason this) v (lastUpdateTime this) (store this) (initialized this)
    (rulesetsSyncTimer this) (idListsSyncTimer this)
    (rulesetsSyncTimerLastActiveTime this) (idListsSyncTimerLastActiveTime this)
    (rulesetsSyncFailureCount this) (idListsSyncFailureCount this) (samplingRates this)
    (clientSDKKeyToAppMap this).
Definition set_lastUpdateTime v (this : SpecStore) : SpecStore :=
  mkSpecStore (initReason this) (initialUpdateTime this) v (store this)
    (initialized this) (rulesetsSyncTimer this) (idListsSyncTimer this)
    (rulesetsSyncTimerLastActiveTime this) (idListsSyncTimerLastActiveTime this)
    (rulesetsSyncFailureCount this) (idListsSyncFailureCount this) (samplingRates this)
    (clientSDKKeyToAppMap this).
Definition set_store v (this : SpecStore) : SpecStore :=
  mkSpecStore (initReason this) (initialUpdateTime this) (lastUpdateTime this) v
    (initialized this) (rulesetsSyncTimer this) (idListsSyncTimer this)
    (rulesetsSyncTimerLastActiveTime this) (idListsSyncTimerLastActiveTime this)
    (rulesetsSyncFailureCount this) (idListsSyncFailureCount this) (samplingRates this)
    (clientSDKKeyToAppMap this).
Definition set_initialized v (this : SpecStore) : SpecStore :=
  mkSpecStore (initReason this) (initialUpdateTime this) (lastUpdateTime this)
    (store this) v (rulesetsSyncTimer this) (idListsSyncTimer this)
    (rulesetsSyncTimerLastActiveTime this) (idListsSyncTimerLastActiveTime this)
    (rulesetsSyncFailureCount this) (idListsSyncFailureCount this) (samplingRates this)
    (clientSDKKeyToAppMap this).
Definition set_rulesetsSyncTimer v (this : SpecStore) : SpecStore :=
  mkSpecStore (initReason this) (initialUpdateTime this) (lastUpdateTime this)
    (store this) (initialized this) v (idListsSyncTimer this)
    (rulesetsSyncTimerLastActiveTime this) (idListsSyncTimerLastActiveTime this)
    (rulesetsSyncFailureCount this) (idListsSyncFailureCount this) (samplingRates this)
    (clientSDKKeyToAppMap this).
Definition set_idListsSyncTimer v (this : SpecStore) : SpecStore :=
  mkSpecStore (initReason this) (initialUpdateTime this) (lastUpdateTime this)
    (store this) (initialized this) (rulesetsSyncTimer this) v
    (rulesetsSyncTimerLastActiveTime this) (idListsSyncTimerLastActiveTime this)
    (rulesetsSyncFailureCount this) (idListsSyncFailureCount this) (samplingRates this)
    (clientSDKKeyToAppMap this).
Definition set_rulesetsSyncTimerLastActiveTime v (this : SpecStore) : SpecStore :=
  mkSpecStore (initReason this) (initialUpdateTime this) (lastUpdateTime this)
    (store this) (initialized this) (rulesetsSyncTimer this) (idListsSyncTimer this) v
    (idListsSyncTimerLastActiveTime this) (rulesetsSyncFailureCount this)
    (idListsSyncFailureCount this) (samplingRates this) (clientSDKKeyToAppMap this).
Definition set_idListsSyncTimerLastActiveTime v (this : SpecStore) : SpecStore :=
  mkSpecStore (initReason this) (initialUpdateTime this) (lastUpdateTime this)
    (store this) (initialized this) (rulesetsSyncTimer this) (idListsSyncTimer this)
    (rulesetsSyncTimerLastActiveTime this) v (rulesetsSyncFailureCount this)
    (idListsSyncFailureCount this) (samplingRates this) (clientSDKKeyToAppMap this).
Definition set_rulesetsSyncFailureCount v (this : SpecStore) : SpecStore :=
  mkSpecStore (initReason this) (initialUpdateTime this) (lastUpdateTime this)
    (store this) (initialized this) (rulesetsSyncTimer this) (idListsSyncTimer this)
    (rulesetsSyncTimerLastActiveTime this) (idListsSyncTimerLastActiveTime this) v
    (idListsSyncFailureCount this) (samplingRates this) (clientSDKKeyToAppMap this).
Definition set_idListsSyncFailureCount v (this : SpecStore) : SpecStore :=
  mkSpecStore (initReason this) (initialUpdateTime this) (lastUpdateTime this)
    (store this) (initialized this) (rulesetsSyncTimer this) (idListsSyncTimer this)
    (rulesetsSyncTimerLastActiveTime this) (idListsSyncTimerLastActiveTime this)
    (rulesetsSyncFailureCount this) v (samplingRates this) (clientSDKKeyToAppMap this).
Definition set_samplingRates v (this : SpecStore) : SpecStore :=
  mkSpecStore (initReason this) (initialUpdateTime this) (lastUpdateTime this)
    (store this) (initialized this) (rulesetsSyncTimer this) (idListsSyncTimer this)
    (rulesetsSyncTimerLastActiveTime this) (idListsSyncTimerLastActiveTime this)
    (rulesetsSyncFailureCount this) (idListsSyncFailureCount this) v
    (clientSDKKeyToAppMap this).
Definition set_clientSDKKeyToAppMap v (this : SpecStore) : SpecStore :=
  mkSpecStore (initReason this) (initialUpdateTime this) (lastUpdateTime this)
    (store this) (initialized this) (rulesetsSyncTimer this) (idListsSyncTimer this)
    (rulesetsSyncTimerLastActiveTime this) (idListsSyncTimerLastActiveTime this)
    (rulesetsSyncFailureCount this) (idListsSyncFailureCount this) (samplingRates this)
    v.

Definition set_idLists v (c : ConfigStore) : ConfigStore :=
  mkConfigStore (gates c) (configs c) v (layers c) (experimentToLayer c).

(** The store as the constructor leaves it. *)
Definition new_SpecStore (now : Z) : SpecStore :=
  {| initReason := "Uninitialized";
     initialUpdateTime := JNum 0;
     lastUpdateTime := JNum 0;
     store := mkConfigStore ∅ ∅ ∅ ∅ ∅;
     initialized := false;
     rulesetsSyncTimer := None;
     idListsSyncTimer := None;
     rulesetsSyncTimerLastActiveTime := now;
     idListsSyncTimerLastActiveTime := now;
     rulesetsSyncFailureCount := 0;
     idListsSyncFailureCount := 0;
     samplingRates := mkRates 0 0 0 MAX_SAMPLING_RATE;
     clientSDKKeyToAppMap := JObj [] |}.

(** *** The getters *)

Definition getGate (gateName : string) (this : SpecStore) : Read ConfigSpec :=
  read (gates (store this)) gateName.

Definition getConfig (configName : string) (this : SpecStore) : Read ConfigSpec :=
  read (configs (store this)) configName.

Definition getLayer (layerName : string) (this : SpecStore) : Read ConfigSpec :=
  read (layers (store this)) layerName.

(** The reverse mapping never has an entry under [__proto__]. *)
Definition getExperimentLayer (experimentName : string) (this : SpecStore) : Read string :=
  read (experimentToLayer (store this)) experimentName.

(** *** Sampling rates *)

Definition safeSet (samplingRates : DiagnosticsSamplingRate) (key : SamplingKey)
    (value : option JSON) : DiagnosticsSamplingRate :=
  match value with
  | Some (JNum value) =>
      if value <? 0 then set_rate key 0 samplingRates
      else if value >? MAX_SAMPLING_RATE then set_rate key MAX_SAMPLING_RATE samplingRates
      else set_rate key value samplingRates
  | _ => samplingRates
  end.

Definition updateSamplingRates (obj : option JSON) (this : SpecStore) : SpecStore :=
  if negb (truthy obj) || negb (typeof_object obj) then this
  else
    let r := samplingRates this in
    let r := safeSet r Kdcs (get_opt "dcs" obj) in
    let r := safeSet r Kidlist (get_opt "idlist" obj) in
    let r := safeSet r Kinitialize (get_opt "initialize" obj) in
    let r := safeSet r Klog (get_opt "log" obj) in
    set_samplingRates r this.

(** *** Snapshot replacement *)

(** One of the three loops of [_process]: [None] as soon as a constructor
    throws. *)
Fixpoint buildSpecs (arr : list JSON) (updated : gmap string ConfigSpec)
  : option (gmap string ConfigSpec) :=
  match arr with
  | [] => Some updated
  | json :: rest =>
      match newConfigSpec json with
      | Some spec => buildSpecs rest (<[spec_name spec := spec]> updated)
      | None => None
      end
  end.

(** [reverseMapping[experimentName] = layerName]. The mapping is a plain
    object and the value a string: under [__proto__] the assignment goes to
    the setter of [Object.prototype], which ignores a string and adds no
    property. *)
Definition assign_layer (key layerName : string) (reverseMapping : gmap string string)
  : gmap string string :=
  if String.eqb key "__proto__" then reverseMapping
  else <[key := layerName]> reverseMapping.

(** The inner loop of [_reverseLayerExperimentMapping]; [None] when an
    experiment's name cannot be made a property key and the assignment
    throws. *)
Fixpoint reverseLayer (layerName : string) (experiments : list JSON)
    (reverseMapping : gmap string string) : option (gmap string string) :=
  match experiments with
  | [] => Some reverseMapping
  | experimentName :: rest =>
      match toPropertyKey experimentName with
      | Some key => reverseLayer layerName rest (assign_layer key layerName reverseMapping)
      | None => None
      end
  end.

Fixpoint reverseEntries (es : list (string * JSON)) (reverseMapping : gmap string string)
  : option (gmap string string) :=
  match es with
  | [] => Some reverseMapping
  | (layerName, experiments) :: rest =>
      match iterate experiments with
      | Some xs =>
          match reverseLayer layerName xs reverseMapping with
          | Some reverseMapping => reverseEntries rest reverseMapping
          | None => None
          end
      | None => None
      end
  end.

(** [None] when the loop throws: a layer's experiments cannot be iterated,
    or an experiment's name cannot be made a property key. *)
Definition _reverseLayerExperimentMapping (layersMapping : option JSON)
  : option (gmap string string) :=
  match layersMapping with
  | Some (JObj _ as v) | Some (JArr _ as v) => reverseEntries (entries v) ∅
  | _ => Some ∅
  end.

(** What a call of [_process] comes to: the object it returns, or an
    exception that escapes it. *)
Inductive ProcessResult : Type :=
| Returned (success hasUpdates : bool)
| Threw.

Definition _process (specsJSON : JSON) (this : SpecStore) : ProcessResult * SpecStore :=
  if negb (truthy (get "has_updates" specsJSON)) then (Returned true false, this)
  else
    let gateArray := get "feature_gates" specsJSON in
    let configArray := get "dynamic_configs" specsJSON in
    let layersArray := get "layer_configs" specsJSON in
    let layerToExperimentMap := get "layers" specsJSON in
    let samplingRates := get "diagnostics" specsJSON in
    let this := updateSamplingRates samplingRates this in
    match gateArray, configArray, layersArray with
    | Some (JArr gateArray), Some (JArr configArray), Some (JArr layersArray) =>
        match buildSpecs gateArray ∅ with
        | None => (Returned false true, this)
        | Some updatedGates =>
        match buildSpecs configArray ∅ with
        | None => (Returned false true, this)
        | Some updatedConfigs =>
        match buildSpecs layersArray ∅ with
        | None => (Returned false true, this)
        | Some updatedLayers =>
        match _reverseLayerExperimentMapping layerToExperimentMap with
        | None => (Threw, this)
        | Some updatedExpToLayer =>
            let st := mkConfigStore updatedGates updatedConfigs (idLists (store this))
                                    updatedLayers updatedExpToLayer in
            let this := set_store st this in
            let this :=
              set_lastUpdateTime
                (nullish_or (get "time" specsJSON) (lastUpdateTime this)) this in
            let this :=
              set_clientSDKKeyToAppMap
                (nullish_or (get "sdk_keys_to_app_ids" specsJSON) (JObj [])) this in
            (Returned true true, this)
        end end end end
    | _, _, _ => (Returned false true, this)
    end.


(** *** Timers and the liveness watchdog *)

Variable options : ExplicitStatsigOptions.

Definition SYNC_OUTDATED_MAX : Z := 120 * 1000.

Inductive Loop : Type := Rulesets | IdLists.

(** What the store does to the timers of the runtime. *)
Inductive TimerEvent : Type :=
| Polled (loop : Loop) (interval : Z) (t : Timer)
| Cleared (t : Timer).

(** The timers of the runtime: the next handle [poll] will return, and the
    calls made so far. *)
Record Runtime : Type := mkRuntime {
  nextTimer : Timer;
  timerLog : list TimerEvent;
}.

(** Modelled from the spec: [poll] of [utils/core] is not among the sources.
    It is the periodic-task scheduler: it starts a timer that runs the
    loop's task every [interval] ms and returns the timer's handle. *)
Definition poll (loop : Loop) (interval : Z) (rt : Runtime) : Timer * Runtime :=
  (nextTimer rt,
   mkRuntime (S (nextTimer rt)) (timerLog rt ++ [Polled loop interval (nextTimer rt)])%list).

Definition clearInterval (t : Timer) (rt : Runtime) : Runtime :=
  mkRuntime (nextTimer rt) (timerLog rt ++ [Cleared t])%list.

Definition clearRulesetsSyncTimer (this : SpecStore) (rt : Runtime) : SpecStore * Runtime :=
  match rulesetsSyncTimer this with
  | Some t => (set_rulesetsSyncTimer None this, clearInterval t rt)
  | None => (this, rt)
  end.

Definition clearIdListsSyncTimer (this : SpecStore) (rt : Runtime) : SpecStore * Runtime :=
  match idListsSyncTimer this with
  | Some t => (set_idListsSyncTimer None this, clearInterval t rt)
  | None => (this, rt)
  end.

Definition clearTimers (this : SpecStore) (rt : Runtime) : SpecStore * Runtime :=
  let '(this, rt) := clearRulesetsSyncTimer this rt in
  clearIdListsSyncTimer this rt.

(** [now] is what [Date.now()] reads during the call. *)
Definition pollForUpdates (now : Z) (this : SpecStore) (rt : Runtime) : SpecStore * Runtime :=
  let '(this, rt) :=
    match rulesetsSyncTimer this with
    | None =>
        let this := set_rulesetsSyncTimerLastActiveTime now this in
        let '(t, rt) := poll Rulesets (rulesetsSyncIntervalMs options) rt in
        (set_rulesetsSyncTimer (Some t) this, rt)
    | Some _ => (this, rt)
    end in
  match idListsSyncTimer this with
  | None =>
      let this := set_idListsSyncTimerLastActiveTime now this in
      let '(t, rt) := poll IdLists (idListsSyncIntervalMs options) rt in
      (set_idListsSyncTimer (Some t) this, rt)
  | Some _ => (this, rt)
  end.

Definition rulesetsSyncTimerInactive (now : Z) (this : SpecStore) : bool :=
  rulesetsSyncTimerLastActiveTime this
    <? now - Z.max SYNC_OUTDATED_MAX (rulesetsSyncIntervalMs options).

Definition idListsSyncTimerInactive (now : Z) (this : SpecStore) : bool :=
  idListsSyncTimerLastActiveTime this
    <? now - Z.max SYNC_OUTDATED_MAX (idListsSyncIntervalMs options).

Definition rulesetsResetMessage (lastActive now : Z) : string :=
  ("Force reset sync timer. Last update time: " ++ pretty lastActive
     ++ ", now: " ++ pretty now)%string.

Definition idListsResetMessage (lastActive now : Z) : string :=
  ("Force reset id list sync timer. Last update time: " ++ pretty lastActive
     ++ ", now: " ++ pretty now)%string.

(** The result is the message of the [Error] returned, [None] for [null]. *)
Definition resetSyncTimerIfExited (now : Z) (this : SpecStore) (rt : Runtime)
  : option string * SpecStore * Runtime :=
  let rulesetsInactive := rulesetsSyncTimerInactive now this in
  let idListsInactive := idListsSyncTimerInactive now this in
  if negb rulesetsInactive && negb idListsInactive then (None, this, rt)
  else
    let message := "" in
    let '(this, rt, message) :=
      if rulesetsInactive then
        let '(this', rt') := clearRulesetsSyncTimer this rt in
        (this', rt',
         (message ++ rulesetsResetMessage (rulesetsSyncTimerLastActiveTime this') now)%string)
      else (this, rt, message) in
    let '(this, rt, message) :=
      if idListsInactive then
        let '(this', rt') := clearIdListsSyncTimer this rt in
        (this', rt',
         (message ++ idListsResetMessage (idListsSyncTimerLastActiveTime this') now)%string)
      else (this, rt, message) in
    let '(this, rt) := pollForUpdates now this rt in
    (Some message, this, rt).

Definition isServingChecks (this : SpecStore) : bool :=
  not_zero (lastUpdateTime this).

Definition setInitialUpdateTime (this : SpecStore) : SpecStore :=
  set_initialUpdateTime
    (if not_zero (lastUpdateTime this) then lastUpdateTime this else JNum (-1)) this.

(** [shutdown()]: the adapter's own shutdown is outside the store. *)
Definition shutdown (this : SpecStore) (rt : Runtime) : SpecStore * Runtime :=
  clearTimers this rt.


(** *** ID lists *)

(** [IDListUtil] is not among the sources. The store hands it the map of
    lists, which it updates in place; only what the store calls is taken as
    a parameter. An exception of [updateIdList] is caught by each of its
    callers, so only the map it leaves matters. *)
Record IDListItem : Type := mkItem {
  item_url : option string;
  item_fileID : option string;
  item_creationTime : Z;
  item_size : option Z;
}.

Variable updateIdList : gmap string IDList -> string -> string -> gmap string IDList.
Variable parseLookupResponse : JSON -> option (list (string * IDListItem)).
Variable removeOldIdLists :
  gmap string IDList -> list (string * IDListItem) -> gmap string IDList.
Variable parseBootstrapLookup : string -> option (list string).
Variable getIdListDataStoreKey : string -> string.

Definition set_readBytes (n : JsNumber) (l : IDList) : IDList :=
  mkIDList (ids l) n (url l) (fileID l) (creationTime l).

Definition with_idLists (lists : gmap string IDList) (this : SpecStore) : SpecStore :=
  set_store (set_idLists lists (store this)) this.

(** What [safeFetch] comes to for a ranged GET: it throws, resolves to
    nothing, or resolves to a response with its Content-Length header (if
    any) and its body ([None] when reading the body fails). *)
Inductive FetchResult : Type :=
| FetchThrows
| FetchNull
| Fetched (contentLength : option string) (text : option string).

(** The network, as a function of the request: url and first byte asked. *)
Definition Network : Type := string -> JsNumber -> FetchResult.

Definition genFetchIDList (safeFetch : Network) (name url : string)
    (readSize : JsNumber) (this : SpecStore) : SpecStore :=
  match safeFetch url readSize with
  | FetchThrows | FetchNull => this
  | Fetched contentLength text =>
      match contentLength with
      | None => this
      | Some contentLength =>
          let length := parseInt contentLength in
          if typeof_number length then
            match idLists (store this) !! name with
            | None => this
            | Some l =>
                let lists :=
                  <[name := set_readBytes (js_add (readBytes l) length) l]>
                    (idLists (store this)) in
                match text with
                | None => with_idLists lists this
                | Some text => with_idLists (updateIdList lists name text) this
                end
            end
          else with_idLists (delete name (idLists (store this))) this
      end
  end.

(** The outcome of a sync: [{ synced, error }], [error] telling whether an
    error is reported. *)
Record SyncResult : Type := mkSync {
  synced : bool;
  error : bool;
}.

(** One entry of the lookup in [syncIdListsFromNetwork]: the store, and the
    fetches started so far (name, url, first byte). [None] if reading the
    entry's list throws. *)
Definition lookupEntry (name : string) (item : IDListItem)
    (acc : SpecStore * list (string * string * JsNumber))
  : option (SpecStore * list (string * string * JsNumber)) :=
  let '(this, promises) := acc in
  let lists := idLists (store this) in
  let newCreationTime := item_creationTime item in
  let oldCreationTime :=
    match lists !! name with Some l => creationTime l | None => 0 end in
  match item_url item, item_fileID item with
  | Some url, Some newFileID =>
      if newCreationTime <? oldCreationTime then Some acc
      else
        let newFile :=
          negb (bool_decide ((fileID <$> lists !! name) = Some newFileID))
          && (oldCreationTime <=? newCreationTime) in
        let lists :=
          if negb (bool_decide (is_Some (lists !! name))) || newFile
          then <[name := mkIDList ∅ (Num 0) url newFileID newCreationTime]> lists
          else lists in
        let this := with_idLists lists this in
        let fileSize := match item_size item with Some n => n | None => 0 end in
        match lists !! name with
        | None => None
        | Some l =>
            let readSize := readBytes l in
            if js_le (Num fileSize) readSize then Some (this, promises)
            else Some (this, (promises ++ [(name, url, readSize)])%list)
        end
  | _, _ => Some acc
  end.

Fixpoint lookupEntries (lookup : list (string * IDListItem))
    (acc : SpecStore * list (string * string * JsNumber))
  : option (SpecStore * list (string * string * JsNumber)) :=
  match lookup with
  | [] => Some acc
  | (name, item) :: rest =>
      match lookupEntry name item acc with
      | Some acc => lookupEntries rest acc
      | None => None
      end
  end.

(** What [fetcher.getIDLists()] comes to: it throws (a local-mode error or
    another), resolves to nothing, or to a response whose body parses
    ([None] when [response.json()] fails). *)
Inductive LookupFetch : Type :=
| LookupThrows (localMode : bool)
| LookupNull
| LookupResponse (json : option JSON).

(** What [dataAdapter.get(key)] comes to: a rejection, or [{ result }]. *)
Inductive AdapterString : Type :=
| GetRejects
| GotString (result : option string).

(** The world outside the store during an ID-list sync. *)
Record IdListsEnv : Type := mkIdListsEnv {
  getIDLists : LookupFetch;
  safeFetch : Network;
  saveToDataAdapterThrows : bool;
  adapterIDLists : AdapterString;
  adapterList : string -> AdapterString;
}.

(** The ranged fetches settle one after the other, in the order started. *)
Definition settle (safeFetch : Network) (promises : list (string * string * JsNumber))
    (this : SpecStore) : SpecStore :=
  fold_left (fun this '(name, url, readSize) => genFetchIDList safeFetch name url readSize this)
            promises this.

Definition syncIdListsFromNetwork (env : IdListsEnv) (this : SpecStore)
  : SyncResult * SpecStore :=
  match getIDLists env with
  | LookupThrows localMode => (mkSync false (negb localMode), this)
  | LookupNull => (mkSync false false, this)
  | LookupResponse None => (mkSync false true, this)
  | LookupResponse (Some json) =>
      match parseLookupResponse json with
      | None => (mkSync false true, this)
      | Some lookup =>
          match lookupEntries lookup (this, []) with
          | None => (mkSync false true, this)
          | Some (this, promises) =>
              let this :=
                with_idLists (removeOldIdLists (idLists (store this)) lookup) this in
              let this := settle (safeFetch env) promises this in
              match dataAdapter options with
              | Some _ =>
                  if saveToDataAdapterThrows env then (mkSync false true, this)
                  else (mkSync true false, this)
              | None => (mkSync true false, this)
              end
          end
      end
  end.

(** A string is truthy unless it is empty. *)
Definition truthy_string (o : option string) : option string :=
  match o with
  | Some "" => None
  | _ => o
  end.

(** One task of [syncIdListsFromDataAdapter]; the flag tells whether the
    task rejects. *)
Definition adapterTask (env : IdListsEnv) (name : string) (acc : SpecStore * bool)
  : SpecStore * bool :=
  let '(this, rejected) := acc in
  match adapterList env (getIdListDataStoreKey name) with
  | GetRejects => (this, rejected)
  | GotString result =>
      match truthy_string result with
      | None => (this, true)
      | Some data =>
          let lists :=
            <[name := mkIDList ∅ (Num 0) "bootstrap" "bootstrap" 0]> (idLists (store this)) in
          (with_idLists (updateIdList lists name data) this, rejected)
      end
  end.

Definition syncIdListsFromDataAdapter (env : IdListsEnv) (this : SpecStore)
  : SyncResult * SpecStore :=
  match dataAdapter options with
  | None => (mkSync false false, this)
  | Some _ =>
      match adapterIDLists env with
      | GetRejects => (mkSync false true, this)
      | GotString result =>
          match truthy_string result with
          | None => (mkSync false true, this)
          | Some listsLookupString =>
              match parseBootstrapLookup listsLookupString with
              | None => (mkSync false true, this)
              | Some lookup =>
                  let '(this, rejected) :=
                    fold_left (fun acc name => adapterTask env name acc) lookup (this, false) in
                  if rejected then (mkSync false true, this) else (mkSync true false, this)
              end
          end
      end
  end.

Definition _initIDLists (env : IdListsEnv) (this : SpecStore) : SpecStore :=
  let '(r, this) :=
    match dataAdapter options with
    | Some _ => syncIdListsFromDataAdapter env this
    | None => syncIdListsFromNetwork env this
    end in
  if error r then
    match dataAdapter options with
    | Some _ => snd (syncIdListsFromNetwork env this)
    | None => this
    end
  else this.

Definition shouldSyncIDListsFromAdapter : bool :=
  match dataAdapter options with
  | Some adapter => pollsIDLists adapter
  | None => false
  end.

Definition _syncIdLists (env : IdListsEnv) (this : SpecStore) : SpecStore :=
  match initStrategyForIDLists options with
  | StrategyNone => this
  | _ =>
      let '(result, this) :=
        if shouldSyncIDListsFromAdapter then syncIdListsFromDataAdapter env this
        else syncIdListsFromNetwork env this in
      let '(result, this) :=
        if shouldSyncIDListsFromAdapter && error result
        then syncIdListsFromNetwork env this
        else (result, this) in
      if synced result then set_idListsSyncFailureCount 0 this
      else if error result then
        let count := idListsSyncFailureCount this + 1 in
        if count * idListsSyncIntervalMs options >? SYNC_OUTDATED_MAX
        then set_idListsSyncFailureCount 0 this
        else set_idListsSyncFailureCount count this
      else this
  end.


(** *** Ruleset sources: adapter, bootstrap, network *)

(** What [dataAdapter.get(Rulesets)] comes to: a rejection, or
    [{ result, error }] with [result] a truthy string or not ([None] for
    [undefined] and for the empty string) and [error] set or not. *)
Inductive AdapterGet : Type :=
| AdapterGetThrows
| AdapterGot (result : option Text) (hasError : bool).

(** What [fetcher.downloadConfigSpecs] and reading the body come to: an
    exception (a local-mode error or another), or the text of the body. *)
Inductive Download : Type :=
| DownloadThrows (localMode : bool)
| Downloaded (specsString : Text).

(** The world outside the store during a ruleset sync.
    [rulesUpdatedCallbackThrows] is false when no callback is set. *)
Record RulesetsEnv : Type := mkRulesetsEnv {
  adapterRulesets : AdapterGet;
  downloadConfigSpecs : Download;
  rulesUpdatedCallbackThrows : bool;
}.

Definition _fetchConfigSpecsFromServer (env : RulesetsEnv) (this : SpecStore)
  : SyncResult * SpecStore :=
  match downloadConfigSpecs env with
  | DownloadThrows localMode => (mkSync false (negb localMode), this)
  | Downloaded Unparsable => (mkSync false true, this)
  | Downloaded (Parses specsJSON) =>
      match _process specsJSON this with
      | (Threw, this) => (mkSync false true, this)
      | (Returned false _, this) => (mkSync false true, this)
      | (Returned true hasUpdates, this) =>
          let this := set_initReason "Network" this in
          if rulesUpdatedCallbackThrows env then (mkSync false true, this)
          else (mkSync true false, this)
      end
  end.

Definition _fetchConfigSpecsFromAdapter (env : RulesetsEnv) (this : SpecStore)
  : SyncResult * SpecStore :=
  match dataAdapter options with
  | None => (mkSync false false, this)
  | Some _ =>
      match adapterRulesets env with
      | AdapterGetThrows => (mkSync false true, this)
      | AdapterGot (Some result) false =>
          match result with
          | Unparsable => (mkSync false true, this)
          | Parses configSpecs =>
              match _process configSpecs this with
              | (Returned true _, this) =>
                  (mkSync true false, set_initReason "DataAdapter" this)
              | (Returned false _, this) => (mkSync false true, this)
              | (Threw, this) => (mkSync false true, this)
              end
          end
      | AdapterGot _ _ => (mkSync false true, this)
      end
  end.

Definition shouldSyncRulesetsFromAdapter : bool :=
  match dataAdapter options with
  | Some adapter => pollsRulesets adapter
  | None => false
  end.

Definition _syncConfigSpecs (env : RulesetsEnv) (this : SpecStore) : SpecStore :=
  let '(result, this) :=
    if shouldSyncRulesetsFromAdapter then _fetchConfigSpecsFromAdapter env this
    else _fetchConfigSpecsFromServer env this in
  if synced result then set_rulesetsSyncFailureCount 0 this
  else if error result then
    let count := rulesetsSyncFailureCount this + 1 in
    if count * rulesetsSyncIntervalMs options >? SYNC_OUTDATED_MAX
    then set_rulesetsSyncFailureCount 0 this
    else set_rulesetsSyncFailureCount count this
  else this.

(** The tasks the two timers run ([rulesetsSyncPromise], [idListsSyncPromise]). *)
Definition rulesetsSyncPromise (now : Z) (env : RulesetsEnv) (this : SpecStore) : SpecStore :=
  _syncConfigSpecs env (set_rulesetsSyncTimerLastActiveTime now this).

Definition idListsSyncPromise (now : Z) (env : IdListsEnv) (this : SpecStore) : SpecStore :=
  _syncIdLists env (set_idListsSyncTimerLastActiveTime now this).

(** The bootstrap step of [init]: an exception of [JSON.parse] or of
    [_process] is caught and logged. *)
Definition initFromBootstrap (this : SpecStore) : SpecStore :=
  match bootstrapValues options with
  | Some bootstrap =>
      if String.eqb (initReason this) "Uninitialized" then
        match bootstrap with
        | Unparsable => this
        | Parses specsJSON =>
            match _process specsJSON this with
            | (Threw, this) => this
            | (Returned _ _, this) =>
                if not_zero (lastUpdateTime this) then set_initReason "Bootstrap" this
                else this
            end
        end
      else this
  | None => this
  end.

(** [init()]. [None] when [dataAdapter.initialize()] rejects and [init]
    with it. With the lazy strategy the ID lists are initialised by a later
    task ([_initIDLists]), not by [init]. *)
Definition init (now : Z) (adapterInitializeThrows : bool) (env : RulesetsEnv)
    (ids_env : IdListsEnv) (this : SpecStore) (rt : Runtime)
  : option (SpecStore * Runtime) :=
  let afterAdapter :=
    match dataAdapter options with
    | Some _ =>
        if adapterInitializeThrows then None
        else Some (snd (_fetchConfigSpecsFromAdapter env this))
    | None => Some this
    end in
  match afterAdapter with
  | None => None
  | Some this =>
      let this := initFromBootstrap this in
      let this :=
        if String.eqb (initReason this) "Uninitialized"
        then snd (_fetchConfigSpecsFromServer env this)
        else this in
      let this := setInitialUpdateTime this in
      let this :=
        match initStrategyForIDLists options with
        | StrategyLazy | StrategyNone => this
        | StrategyAwait => _initIDLists ids_env this
        end in
      let '(this, rt) := pollForUpdates now this rt in
      Some (set_initialized true this, rt)
  end.

(** *** The operations on a store after [init] *)

(** [shutdownAsync()] on a store that [init] has set polling: after
    [shutdown] it calls the two tasks of the timers, which run one more sync
    each. *)
Definition shutdownAsync (now : Z) (env : RulesetsEnv) (now' : Z) (ids_env : IdListsEnv)
    (this : SpecStore) (rt : Runtime) : SpecStore * Runtime :=
  let '(this, rt) := shutdown this rt in
  let this := rulesetsSyncPromise now env this in
  (idListsSyncPromise now' ids_env this, rt).

(** What runs on a store after [init]: the ticks of the two timers, the
    deferred initialisation of the ID lists (lazy strategy), and the public
    methods that change the store. *)
Inductive Operation : Type :=
| RulesetsTick (now : Z) (env : RulesetsEnv)
| IdListsTick (now : Z) (env : IdListsEnv)
| LazyInitIDLists (env : IdListsEnv)
| ResetSyncTimerIfExited (now : Z)
| Shutdown
| ShutdownAsync (now : Z) (env : RulesetsEnv) (now' : Z) (ids_env : IdListsEnv).

Definition run (op : Operation) (this : SpecStore) (rt : Runtime) : SpecStore * Runtime :=
  match op with
  | RulesetsTick now env => (rulesetsSyncPromise now env this, rt)
  | IdListsTick now env => (idListsSyncPromise now env this, rt)
  | LazyInitIDLists env => (_initIDLists env this, rt)
  | ResetSyncTimerIfExited now =>
      let '(_, this, rt) := resetSyncTimerIfExited now this rt in (this, rt)
  | Shutdown => shutdown this rt
  | ShutdownAsync now env now' ids_env => shutdownAsync now env now' ids_env this rt
  end.

(** The ruleset sync an operation runs, if it runs one: the clock, the
    world outside, and the store the sync starts from. *)
Definition ruleset_sync (op : Operation) (this : SpecStore) (rt : Runtime)
  : option (Z * RulesetsEnv * SpecStore) :=
  match op with
  | RulesetsTick now env => Some (now, env, this)
  | ShutdownAsync now env _ _ => Some (now, env, fst (shutdown this rt))
  | _ => None
  end.

(** ** Properties of [_process] *)

(** Case analysis on every condition of the goal. *)
Ltac split_ifs :=
  repeat match goal with
  | |- context [if ?c then _ else _] => destruct c
  end.

(** A malformed payload, in the specification's sense: one of the three top-level
    arrays is not an array, or a constructor throws on an element. *)
Definition constructs (arr : list JSON) : bool :=
  forallb (fun json => bool_decide (is_Some (newConfigSpec json))) arr.

Definition well_formed (specsJSON : JSON) : bool :=
  match get "feature_gates" specsJSON, get "dynamic_configs" specsJSON,
        get "layer_configs" specsJSON with
  | Some (JArr gateArray), Some (JArr configArray), Some (JArr layersArray) =>
      constructs gateArray && constructs configArray && constructs layersArray
  | _, _, _ => false
  end.

Definition malformed (specsJSON : JSON) : bool := negb (well_formed specsJSON).

Lemma buildSpecs_constructs arr : forall updated,
  constructs arr = false <-> buildSpecs arr updated = None.
Proof.
  induction arr as [|json rest IH]; intros updated; cbn.
  - split; discriminate.
  - destruct (newConfigSpec json) as [spec|] eqn:Hnew; cbn.
    + apply IH.
    + split; reflexivity.
Qed.

Lemma process_no_updates specsJSON this :
  truthy (get "has_updates" specsJSON) = false ->
  _process specsJSON this = (Returned true false, this).
Proof. intros H. unfold _process. rewrite H. reflexivity. Qed.

(** With updates, [_process] first updates the sampling rates and then ends
    in one of three ways: a rejection or an exception, that leave the rest
    as it was, or the replacement of the snapshot. *)
Lemma process_outcomes specsJSON this :
  truthy (get "has_updates" specsJSON) = true ->
  let this1 := updateSamplingRates (get "diagnostics" specsJSON) this in
  _process specsJSON this = (Returned false true, this1)
  \/ _process specsJSON this = (Threw, this1)
  \/ exists updatedGates updatedConfigs updatedLayers updatedExpToLayer,
       well_formed specsJSON = true
       /\ _process specsJSON this
          = (Returned true true,
             set_clientSDKKeyToAppMap
               (nullish_or (get "sdk_keys_to_app_ids" specsJSON) (JObj []))
               (set_lastUpdateTime
                  (nullish_or (get "time" specsJSON) (lastUpdateTime this))
                  (set_store (mkConfigStore updatedGates updatedConfigs
                                            (idLists (store this))
                                            updatedLayers updatedExpToLayer)
                             this1))).
Proof.
  intros Hup this1. unfold _process, well_formed. rewrite Hup. cbn [negb].
  fold this1.
  destruct (get "feature_gates" specsJSON) as [[| | | |gateArray|]|]; auto.
  destruct (get "dynamic_configs" specsJSON) as [[| | | |configArray|]|]; auto.
  destruct (get "layer_configs" specsJSON) as [[| | | |layersArray|]|]; auto.
  destruct (buildSpecs gateArray ∅) as [g|] eqn:Hg; auto.
  destruct (buildSpecs configArray ∅) as [c|] eqn:Hc; auto.
  destruct (buildSpecs layersArray ∅) as [l|] eqn:Hl; auto.
  destruct (_reverseLayerExperimentMapping (get "layers" specsJSON)) as [e|]; auto.
  right. right. exists g, c, l, e. split.
  - assert (Hok : forall arr r, buildSpecs arr ∅ = Some r -> constructs arr = true).
    { intros arr r Hb. destruct (constructs arr) eqn:Hcs; [reflexivity|].
      apply (buildSpecs_constructs arr ∅) in Hcs. congruence. }
    rewrite (Hok _ _ Hg), (Hok _ _ Hc), (Hok _ _ Hl). reflexivity.
  - unfold this1, updateSamplingRates.
    destruct (negb (truthy (get "diagnostics" specsJSON))
              || negb (typeof_object (get "diagnostics" specsJSON))); reflexivity.
Qed.

Lemma process_malformed specsJSON this :
  truthy (get "has_updates" specsJSON) = true ->
  malformed specsJSON = true ->
  _process specsJSON this
  = (Returned false true, updateSamplingRates (get "diagnostics" specsJSON) this).
Proof.
  intros Hup Hmal. unfold malformed, well_formed in Hmal.
  unfold _process. rewrite Hup. cbn [negb].
  destruct (get "feature_gates" specsJSON) as [[| | | |gateArray|]|]; auto.
  destruct (get "dynamic_configs" specsJSON) as [[| | | |configArray|]|]; auto.
  destruct (get "layer_configs" specsJSON) as [[| | | |layersArray|]|]; auto.
  destruct (buildSpecs gateArray ∅) as [g|] eqn:Hg; auto.
  destruct (buildSpecs configArray ∅) as [c|] eqn:Hc; auto.
  destruct (buildSpecs layersArray ∅) as [l|] eqn:Hl; auto.
  exfalso.
  assert (Hok : forall arr r, buildSpecs arr ∅ = Some r -> constructs arr = true).
  { intros arr r Hb. destruct (constructs arr) eqn:Hcs; [reflexivity|].
    apply (buildSpecs_constructs arr ∅) in Hcs. congruence. }
  rewrite (Hok _ _ Hg), (Hok _ _ Hc), (Hok _ _ Hl) in Hmal. discriminate Hmal.
Qed.

(** A well-formed payload with updates is applied, unless its [layers]
    mapping holds a value that cannot be iterated, on which
    [_reverseLayerExperimentMapping] throws. *)
Lemma process_well_formed specsJSON this :
  truthy (get "has_updates" specsJSON) = true ->
  well_formed specsJSON = true ->
  fst (_process specsJSON this)
  = match _reverseLayerExperimentMapping (get "layers" specsJSON) with
    | Some _ => Returned true true
    | None => Threw
    end.
Proof.
  intros Hup Hwf. unfold well_formed in Hwf. unfold _process. rewrite Hup. cbn [negb].
  destruct (get "feature_gates" specsJSON) as [[| | | |gateArray|]|]; try discriminate Hwf.
  destruct (get "dynamic_configs" specsJSON) as [[| | | |configArray|]|];
    try discriminate Hwf.
  destruct (get "layer_configs" specsJSON) as [[| | | |layersArray|]|];
    try discriminate Hwf.
  apply andb_prop in Hwf as [Hwf Hl]. apply andb_prop in Hwf as [Hg Hc].
  assert (Hsome : forall arr, constructs arr = true -> buildSpecs arr ∅ <> None).
  { intros arr Hcs Hnone. apply (buildSpecs_constructs arr ∅) in Hnone. congruence. }
  destruct (buildSpecs gateArray ∅) eqn:Eg; [|exfalso; exact (Hsome _ Hg Eg)].
  destruct (buildSpecs configArray ∅) eqn:Ec; [|exfalso; exact (Hsome _ Hc Ec)].
  destruct (buildSpecs layersArray ∅) eqn:El; [|exfalso; exact (Hsome _ Hl El)].
  destruct (_reverseLayerExperimentMapping (get "layers" specsJSON)); reflexivity.
Qed.

Lemma updateSamplingRates_frame obj this :
  updateSamplingRates obj this
  = set_samplingRates (samplingRates (updateSamplingRates obj this)) this.
Proof.
  unfold updateSamplingRates.
  destruct (negb (truthy obj) || negb (typeof_object obj)); [|reflexivity].
  destruct this; reflexivity.
Qed.

(** C1, as the code has it. For every malformed payload with [has_updates]
    truthy, [_process] returns [success = false] and leaves gates, configs,
    layers, experimentToLayer (and the ID lists), lastUpdateTime and
    clientSDKKeyToAppMap, and every other field but one, unchanged. The
    sampling rates are not part of what is preserved: they have been
    updated from the payload's [diagnostics] before the payload is checked. *)
Theorem process_malformed_keeps_snapshot (specsJSON : JSON) (this : SpecStore) :
  truthy (get "has_updates" specsJSON) = true ->
  malformed specsJSON = true ->
  fst (_process specsJSON this) = Returned false true
  /\ store (snd (_process specsJSON this)) = store this
  /\ lastUpdateTime (snd (_process specsJSON this)) = lastUpdateTime this
  /\ clientSDKKeyToAppMap (snd (_process specsJSON this)) = clientSDKKeyToAppMap this
  /\ snd (_process specsJSON this)
     = set_samplingRates
         (samplingRates (updateSamplingRates (get "diagnostics" specsJSON) this)) this.
Proof.
  intros Hup Hmal. rewrite (process_malformed specsJSON this Hup Hmal). cbn [fst snd].
  rewrite updateSamplingRates_frame. cbn. repeat split; reflexivity.
Qed.

(** C2, as the code has it. For a payload with [has_updates] truthy, if
    [_process] returns success then the payload is well-formed and
    [lastUpdateTime] is the payload's [time] if it carries one that is not
    [null], and is left as it was if the payload carries no [time] (or
    [null]): the assignment is [specsJSON.time ?? this.lastUpdateTime]. For
    a payload with [has_updates] falsy, [_process] returns success, reports
    no updates and changes no state. *)
Theorem process_sets_lastUpdateTime (specsJSON : JSON) (this : SpecStore) :
  (forall hasUpdates this',
     truthy (get "has_updates" specsJSON) = true ->
     _process specsJSON this = (Returned true hasUpdates, this') ->
     well_formed specsJSON = true
     /\ lastUpdateTime this'
        = match get "time" specsJSON with
          | None | Some JNull => lastUpdateTime this
          | Some time => time
          end)
  /\ (truthy (get "has_updates" specsJSON) = false ->
      _process specsJSON this = (Returned true false, this)).
Proof.
  split.
  - intros hasUpdates this' Hup Hrun.
    destruct (process_outcomes specsJSON this Hup)
      as [H|[H|(g & c & l & e & Hwf & H)]]; rewrite H in Hrun; try discriminate Hrun.
    injection Hrun as _ <-. split; [exact Hwf|]. cbn.
    destruct (get "time" specsJSON) as [[| | | | |]|]; reflexivity.
  - apply process_no_updates.
Qed.

(** *** Sampling rates *)

Lemma rate_set_rate_same k v r : rate k (set_rate k v r) = v.
Proof. destruct k; reflexivity. Qed.

Lemma rate_set_rate_other k k' v r : k <> k' -> rate k' (set_rate k v r) = rate k' r.
Proof. destruct k, k'; intros H; try reflexivity; contradiction. Qed.

Lemma rate_safeSet_same r k value :
  rate k (safeSet r k value)
  = match value with
    | Some (JNum v) =>
        if v <? 0 then 0 else if v >? MAX_SAMPLING_RATE then MAX_SAMPLING_RATE else v
    | _ => rate k r
    end.
Proof.
  unfold safeSet. destruct value as [[| |v| | |]|]; try reflexivity.
  destruct (v <? 0); [apply rate_set_rate_same|].
  destruct (v >? MAX_SAMPLING_RATE); apply rate_set_rate_same.
Qed.

Lemma rate_safeSet_other r k k' value :
  k <> k' -> rate k' (safeSet r k value) = rate k' r.
Proof.
  intros Hk. unfold safeSet. destruct value as [[| |v| | |]|]; try reflexivity.
  destruct (v <? 0); [apply rate_set_rate_other, Hk|].
  destruct (v >? MAX_SAMPLING_RATE); apply rate_set_rate_other, Hk.
Qed.

Lemma get_opt_object k obj v :
  get_opt k obj = Some v -> truthy obj = true /\ typeof_object obj = true.
Proof. destruct obj as [[| | | | |]|]; cbn; intros H; try discriminate H; auto. Qed.

Lemma updateSamplingRates_rate obj this key :
  rate key (samplingRates (updateSamplingRates obj this))
  = match get_opt (key_name key) obj with
    | Some (JNum v) =>
        if v <? 0 then 0 else if v >? MAX_SAMPLING_RATE then MAX_SAMPLING_RATE else v
    | _ => rate key (samplingRates this)
    end.
Proof.
  unfold updateSamplingRates.
  destruct (negb (truthy obj) || negb (typeof_object obj)) eqn:Hobj.
  - destruct (get_opt (key_name key) obj) as [v|] eqn:Hget; [|reflexivity].
    apply get_opt_object in Hget as [Ht Ho]. rewrite Ht, Ho in Hobj. discriminate Hobj.
  - cbn [samplingRates set_samplingRates].
    destruct key; cbn [key_name];
      repeat first
        [ rewrite rate_safeSet_same | rewrite rate_safeSet_other by discriminate ];
      reflexivity.
Qed.

Lemma process_samplingRates specsJSON this :
  truthy (get "has_updates" specsJSON) = true ->
  samplingRates (snd (_process specsJSON this))
  = samplingRates (updateSamplingRates (get "diagnostics" specsJSON) this).
Proof.
  intros Hup.
  destruct (process_outcomes specsJSON this Hup)
    as [H|[H|(g & c & l & e & _ & H)]]; rewrite H; reflexivity.
Qed.

(** C10. On every call of [_process] with [has_updates] truthy, whatever
    the call comes to (success, rejection with [success = false], or an
    exception), each sampling rate for which the payload's [diagnostics]
    object holds a number is set to that number clamped to
    [0, MAX_SAMPLING_RATE], and every other rate is left as it was. *)
Theorem process_updates_sampling_rates (specsJSON : JSON) (this : SpecStore)
    (key : SamplingKey) :
  0 <= MAX_SAMPLING_RATE ->
  truthy (get "has_updates" specsJSON) = true ->
  let updated := rate key (samplingRates (snd (_process specsJSON this))) in
  match get_opt (key_name key) (get "diagnostics" specsJSON) with
  | Some (JNum v) =>
      updated = Z.max 0 (Z.min v MAX_SAMPLING_RATE) /\ 0 <= updated <= MAX_SAMPLING_RATE
  | _ => updated = rate key (samplingRates this)
  end.
Proof.
  intros Hmax Hup updated. unfold updated.
  rewrite (process_samplingRates specsJSON this Hup), updateSamplingRates_rate.
  destruct (get_opt (key_name key) (get "diagnostics" specsJSON))
    as [[| |v| | |]|]; try reflexivity.
  destruct (Z.ltb_spec v 0); [lia|].
  destruct (v >? MAX_SAMPLING_RATE) eqn:Hgt.
  - apply Z.gtb_lt in Hgt. lia.
  - assert (v <= MAX_SAMPLING_RATE) by (rewrite Z.gtb_ltb in Hgt; apply Z.ltb_ge in Hgt; lia).
    lia.
Qed.

(** *** Sequences of applications *)

(** A run of successful applications of [_process], from one state to
    another. *)
Inductive applied : SpecStore -> list JSON -> SpecStore -> Prop :=
| applied_nil this : applied this [] this
| applied_cons this specsJSON hasUpdates this' rest final :
    _process specsJSON this = (Returned true hasUpdates, this') ->
    applied this' rest final ->
    applied this (specsJSON :: rest) final.

(** No payload with updates carries a time older than the one in force
    before it ([t] at first, then the time of the last payload that had
    one); a time is a number, or is absent. *)
Fixpoint times_from (t : Z) (payloads : list JSON) : bool :=
  match payloads with
  | [] => true
  | specsJSON :: rest =>
      if truthy (get "has_updates" specsJSON) then
        match get "time" specsJSON with
        | Some (JNum t') => (t <=? t') && times_from t' rest
        | Some JNull | None => times_from t rest
        | Some _ => false
        end
      else times_from t rest
  end.

Lemma process_success_lastUpdateTime specsJSON this hasUpdates this' :
  _process specsJSON this = (Returned true hasUpdates, this') ->
  lastUpdateTime this'
  = if truthy (get "has_updates" specsJSON)
    then nullish_or (get "time" specsJSON) (lastUpdateTime this)
    else lastUpdateTime this.
Proof.
  intros Hrun. destruct (truthy (get "has_updates" specsJSON)) eqn:Hup.
  - destruct (process_outcomes specsJSON this Hup)
      as [H|[H|(g & c & l & e & _ & H)]]; rewrite H in Hrun; try discriminate Hrun.
    injection Hrun as _ <-. reflexivity.
  - rewrite (process_no_updates specsJSON this Hup) in Hrun.
    injection Hrun as _ <-. reflexivity.
Qed.

(** C3, as the code has it. Across every sequence of successful
    applications of [_process] whose payloads carry no time older than the
    one in force when they are applied, [lastUpdateTime] does not decrease.
    [_process] itself compares nothing: a successful application with
    updates sets [lastUpdateTime] to the payload's time, older or not. *)
Theorem lastUpdateTime_monotone_for_fresh_payloads
    (payloads : list JSON) (this final : SpecStore) (t : Z) :
  applied this payloads final ->
  lastUpdateTime this = JNum t ->
  times_from t payloads = true ->
  exists t', lastUpdateTime final = JNum t' /\ t <= t'.
Proof.
  intros Hrun. revert t.
  induction Hrun as [this|this specsJSON hasUpdates this' rest final Hone _ IH];
    intros t Ht Hfresh.
  - exists t. split; [exact Ht|lia].
  - apply process_success_lastUpdateTime in Hone. cbn in Hfresh.
    destruct (truthy (get "has_updates" specsJSON)).
    + destruct (get "time" specsJSON) as [[| |t1| | |]|]; try discriminate Hfresh;
        cbn in Hone.
      * apply (IH t); [congruence|exact Hfresh].
      * apply andb_prop in Hfresh as [Hle Hrest]. apply Z.leb_le in Hle.
        destruct (IH t1 Hone Hrest) as (t' & Hfinal & Hle'). exists t'. split; [exact Hfinal|lia].
      * apply (IH t); [congruence|exact Hfresh].
    + apply (IH t); [congruence|exact Hfresh].
Qed.

(** ** The liveness watchdog *)

(** The [clearInterval] a dead timer gets, if it is set. *)
Definition cleared (dead : bool) (timer : option Timer) : list TimerEvent :=
  match dead, timer with
  | true, Some t => [Cleared t]
  | _, _ => []
  end.

(** Whether [pollForUpdates] finds the timer unset: it was cleared as dead,
    or was not set to begin with. *)
Definition unset (dead : bool) (timer : option Timer) : bool :=
  match timer with
  | Some _ => dead
  | None => true
  end.

Lemma append_empty_l (s : string) : ("" ++ s)%string = s.
Proof. reflexivity. Qed.

Lemma append_empty_r (s : string) : (s ++ "")%string = s.
Proof.
  induction s as [|c s IH]; [reflexivity|].
  change (String c (s ++ "")%string = String c s). f_equal. exact IH.
Qed.

Lemma rulesetsSyncTimerInactive_spec now this :
  rulesetsSyncTimerInactive now this = false
  <-> now - rulesetsSyncTimerLastActiveTime this
      <= Z.max SYNC_OUTDATED_MAX (rulesetsSyncIntervalMs options).
Proof. unfold rulesetsSyncTimerInactive. rewrite Z.ltb_ge. lia. Qed.

Lemma idListsSyncTimerInactive_spec now this :
  idListsSyncTimerInactive now this = false
  <-> now - idListsSyncTimerLastActiveTime this
      <= Z.max SYNC_OUTDATED_MAX (idListsSyncIntervalMs options).
Proof. unfold idListsSyncTimerInactive. rewrite Z.ltb_ge. lia. Qed.

(** C9, as the code has it. [resetSyncTimerIfExited()] returns null exactly
    when both loops' last-active timestamps are within
    [max(120000, period)] of now, and then changes nothing. Otherwise it
    clears every timer that is set and whose timestamp is older than that
    bound, then starts anew each timer that is unset at that point (a
    cleared one, or one that was not running) with its timestamp set to
    now, leaves a timer that is alive and set as it is (same handle, same
    timestamp, no new schedule), and returns an error whose message names
    the loops found dead. *)
Theorem resetSyncTimerIfExited_contract (now : Z) (this : SpecStore) (rt : Runtime) :
  let deadR := rulesetsSyncTimerInactive now this in
  let deadI := idListsSyncTimerInactive now this in
  let newR := unset deadR (rulesetsSyncTimer this) in
  let newI := unset deadI (idListsSyncTimer this) in
  let handleR := nextTimer rt in
  let handleI := if newR then S (nextTimer rt) else nextTimer rt in
  let result := resetSyncTimerIfExited now this rt in
  let this' := snd (fst result) in
  let rt' := snd result in
  (fst (fst result) = None
   <-> now - rulesetsSyncTimerLastActiveTime this
         <= Z.max SYNC_OUTDATED_MAX (rulesetsSyncIntervalMs options)
       /\ now - idListsSyncTimerLastActiveTime this
         <= Z.max SYNC_OUTDATED_MAX (idListsSyncIntervalMs options))
  /\ (fst (fst result) = None -> this' = this /\ rt' = rt)
  /\ (fst (fst result) <> None ->
      fst (fst result)
      = Some ((if deadR
               then rulesetsResetMessage (rulesetsSyncTimerLastActiveTime this) now
               else "")
              ++ (if deadI
                  then idListsResetMessage (idListsSyncTimerLastActiveTime this) now
                  else ""))%string
      /\ rulesetsSyncTimer this' = (if newR then Some handleR else rulesetsSyncTimer this)
      /\ rulesetsSyncTimerLastActiveTime this'
         = (if newR then now else rulesetsSyncTimerLastActiveTime this)
      /\ idListsSyncTimer this' = (if newI then Some handleI else idListsSyncTimer this)
      /\ idListsSyncTimerLastActiveTime this'
         = (if newI then now else idListsSyncTimerLastActiveTime this)
      /\ timerLog rt'
         = (timerLog rt
            ++ cleared deadR (rulesetsSyncTimer this)
            ++ cleared deadI (idListsSyncTimer this)
            ++ (if newR then [Polled Rulesets (rulesetsSyncIntervalMs options) handleR] else [])
            ++ (if newI then [Polled IdLists (idListsSyncIntervalMs options) handleI] else []))%list).
Proof.
  cbv zeta.
  rewrite <- rulesetsSyncTimerInactive_spec, <- idListsSyncTimerInactive_spec.
  unfold resetSyncTimerIfExited.
  destruct (rulesetsSyncTimerInactive now this) eqn:HR,
           (idListsSyncTimerInactive now this) eqn:HI; cbn [negb andb];
    unfold clearRulesetsSyncTimer, clearIdListsSyncTimer, pollForUpdates, poll,
      clearInterval, cleared, unset;
    destruct this as [? ? ? ? ? [tR|] [tI|] ? ? ? ? ? ?]; cbn;
    (split;
     [ split; [intros Hnone; try discriminate Hnone; auto
              |intros [Hr Hi]; try discriminate Hr; try discriminate Hi; reflexivity]
     | split;
       [ intros Hnone; try discriminate Hnone; auto
       | intros Hsome; try contradiction;
         rewrite <- ?app_assoc, ?app_nil_r, ?append_empty_l, ?append_empty_r; cbn;
         repeat split; reflexivity ] ]).
Qed.

(** ** Ranged fetches of an ID list *)

(** The branch of [genFetchIDList] that deletes the list is never taken:
    [parseInt] always returns a number, [NaN] included. *)
Lemma typeof_parseInt contentLength : typeof_number (parseInt contentLength) = true.
Proof. destruct (parseInt contentLength); reflexivity. Qed.

(** With no Content-Length header the call changes nothing: the list stays
    in the store. *)
Lemma genFetchIDList_missing_content_length safeFetch name url readSize this text :
  safeFetch url readSize = Fetched None text ->
  genFetchIDList safeFetch name url readSize this = this.
Proof. intros H. unfold genFetchIDList. rewrite H. reflexivity. Qed.

(** With a Content-Length header, whatever it holds, [readBytes] is
    increased by what [parseInt] reads in it, and the body is applied. *)
Lemma genFetchIDList_content_length safeFetch name url readSize this contentLength text l :
  safeFetch url readSize = Fetched (Some contentLength) text ->
  idLists (store this) !! name = Some l ->
  let lists :=
    <[name := set_readBytes (js_add (readBytes l) (parseInt contentLength)) l]>
      (idLists (store this)) in
  genFetchIDList safeFetch name url readSize this
  = with_idLists (match text with
                  | Some text => updateIdList lists name text
                  | None => lists
                  end) this.
Proof.
  intros H Hl. unfold genFetchIDList. rewrite H, typeof_parseInt, Hl.
  destruct text; reflexivity.
Qed.

(** An integer below 2^53 in size is a double. *)
Lemma js_number_exact z : Z.abs z < 2 ^ 53 -> js_number z = Num z.
Proof.
  intros Hz. unfold js_number, to_double.
  assert (Hlog : Z.log2 (Z.abs z) < 53).
  { destruct (Z.eq_dec (Z.abs z) 0) as [->|Hne]; [reflexivity|].
    apply Z.log2_lt_pow2; lia. }
  destruct (Z.leb_spec (Z.log2 (Z.abs z) + 1 - 53) 0); [reflexivity|lia].
Qed.

(** The valid case of C7: a header that is a decimal number [n] adds
    exactly [n] to a [readBytes] that is a number, as long as the sum is
    below 2^53 in size; beyond, the sum is rounded. *)
Lemma genFetchIDList_adds_content_length safeFetch name url readSize this contentLength l n m :
  safeFetch url readSize = Fetched (Some contentLength) None ->
  idLists (store this) !! name = Some l ->
  parseInt contentLength = Num n ->
  readBytes l = Num m ->
  Z.abs (m + n) < 2 ^ 53 ->
  readBytes <$> idLists (store (genFetchIDList safeFetch name url readSize this)) !! name
  = Some (Num (m + n)).
Proof.
  intros H Hl Hn Hm Hsum.
  rewrite (genFetchIDList_content_length _ _ _ _ _ _ _ _ H Hl). cbn.
  rewrite lookup_insert_eq. cbn. rewrite Hn, Hm. cbn. rewrite (js_number_exact _ Hsum).
  reflexivity.
Qed.

(** Reading the list of a lookup entry does not throw: the entry is in
    the store, or has just been put there. *)
Lemma lookupEntry_returns name item acc : is_Some (lookupEntry name item acc).
Proof.
  unfold lookupEntry. destruct acc as [this promises].
  destruct (item_url item) as [u|]; [|eauto].
  destruct (item_fileID item) as [f|]; [|eauto].
  destruct (item_creationTime item <? _); [eauto|].
  match goal with
  | |- context [if ?c then <[name := ?l]> ?m else ?m] =>
      destruct c eqn:Hreset; [rewrite lookup_insert_eq|]
  end.
  - split_ifs; eauto.
  - apply orb_false_elim in Hreset as [Hthere _].
    apply negb_false_iff, bool_decide_eq_true_1 in Hthere as [l Hl].
    rewrite Hl. split_ifs; eauto.
Qed.

Lemma lookupEntries_returns lookup : forall acc, is_Some (lookupEntries lookup acc).
Proof.
  induction lookup as [|[name item] rest IH]; intros acc; cbn [lookupEntries]; [eauto|].
  destruct (lookupEntry_returns name item acc) as [acc' Hacc]. rewrite Hacc. apply IH.
Qed.

(** ** Who assigns [initReason] *)

Definition known_reason (r : string) : Prop :=
  r = "Uninitialized" \/ r = "Network" \/ r = "Bootstrap" \/ r = "DataAdapter".

Lemma initReason_updateSamplingRates obj this :
  initReason (updateSamplingRates obj this) = initReason this.
Proof. rewrite updateSamplingRates_frame. reflexivity. Qed.

Lemma initReason_process specsJSON this :
  initReason (snd (_process specsJSON this)) = initReason this.
Proof.
  destruct (truthy (get "has_updates" specsJSON)) eqn:Hup.
  - destruct (process_outcomes specsJSON this Hup)
      as [H|[H|(g & c & l & e & _ & H)]]; rewrite H; cbn;
      apply initReason_updateSamplingRates.
  - rewrite (process_no_updates specsJSON this Hup). reflexivity.
Qed.

Lemma initReason_genFetchIDList safeFetch name url readSize this :
  initReason (genFetchIDList safeFetch name url readSize this) = initReason this.
Proof.
  unfold genFetchIDList.
  destruct (safeFetch url readSize) as [| |[contentLength|] text]; try reflexivity.
  destruct (typeof_number (parseInt contentLength)); [|reflexivity].
  destruct (idLists (store this) !! name); [|reflexivity].
  destruct text; reflexivity.
Qed.

Lemma initReason_settle safeFetch promises : forall this,
  initReason (settle safeFetch promises this) = initReason this.
Proof.
  unfold settle. induction promises as [|[[name url] readSize] rest IH]; intros this.
  - reflexivity.
  - cbn. rewrite IH. apply initReason_genFetchIDList.
Qed.

Lemma initReason_lookupEntry name item this promises this' promises' :
  lookupEntry name item (this, promises) = Some (this', promises') ->
  initReason this' = initReason this.
Proof.
  unfold lookupEntry. intros H.
  repeat match type of H with
  | context [match ?x with _ => _ end] => destruct x
  end; try discriminate H; injection H as <- _; reflexivity.
Qed.

Lemma initReason_lookupEntries lookup : forall this promises this' promises',
  lookupEntries lookup (this, promises) = Some (this', promises') ->
  initReason this' = initReason this.
Proof.
  induction lookup as [|[name item] rest IH]; intros this promises this' promises' H.
  - injection H as <- _. reflexivity.
  - cbn [lookupEntries] in H.
    destruct (lookupEntry name item (this, promises)) as [[this1 promises1]|] eqn:Hone;
      [|discriminate H].
    rewrite (IH _ _ _ _ H). exact (initReason_lookupEntry _ _ _ _ _ _ Hone).
Qed.

Lemma initReason_syncIdListsFromNetwork env this :
  initReason (snd (syncIdListsFromNetwork env this)) = initReason this.
Proof.
  unfold syncIdListsFromNetwork.
  destruct (getIDLists env) as [?| |[json|]]; try reflexivity.
  destruct (parseLookupResponse json) as [lookup|]; [|reflexivity].
  destruct (lookupEntries lookup (this, [])) as [[this1 promises]|] eqn:Hl; [|reflexivity].
  apply initReason_lookupEntries in Hl.
  assert (initReason
            (settle (safeFetch env) promises
               (with_idLists (removeOldIdLists (idLists (store this1)) lookup) this1))
          = initReason this) as Hs.
  { rewrite initReason_settle. exact Hl. }
  destruct (dataAdapter options); [destruct (saveToDataAdapterThrows env)|]; exact Hs.
Qed.

Lemma initReason_adapterTask env name this rejected :
  initReason (fst (adapterTask env name (this, rejected))) = initReason this.
Proof.
  unfold adapterTask.
  destruct (adapterList env (getIdListDataStoreKey name)) as [|result]; [reflexivity|].
  destruct (truthy_string result); reflexivity.
Qed.

Lemma initReason_syncIdListsFromDataAdapter env this :
  initReason (snd (syncIdListsFromDataAdapter env this)) = initReason this.
Proof.
  unfold syncIdListsFromDataAdapter.
  destruct (dataAdapter options); [|reflexivity].
  destruct (adapterIDLists env) as [|result]; [reflexivity|].
  destruct (truthy_string result) as [listsLookupString|]; [|reflexivity].
  destruct (parseBootstrapLookup listsLookupString) as [lookup|]; [|reflexivity].
  assert (forall acc,
            initReason (fst (fold_left (fun acc name => adapterTask env name acc) lookup acc))
            = initReason (fst acc)) as Hfold.
  { induction lookup as [|name rest IH]; intros [this1 rejected]; [reflexivity|].
    cbn [fold_left]. rewrite IH. apply initReason_adapterTask. }
  specialize (Hfold (this, false)).
  destruct (fold_left _ lookup (this, false)) as [this1 [|]]; exact Hfold.
Qed.

Lemma initReason_initIDLists env this :
  initReason (_initIDLists env this) = initReason this.
Proof.
  unfold _initIDLists.
  destruct (dataAdapter options) eqn:Hadapter.
  - pose proof (initReason_syncIdListsFromDataAdapter env this) as H1.
    destruct (syncIdListsFromDataAdapter env this) as [r this1]. cbn in H1.
    destruct (error r); [|exact H1].
    rewrite initReason_syncIdListsFromNetwork. exact H1.
  - pose proof (initReason_syncIdListsFromNetwork env this) as H1.
    destruct (syncIdListsFromNetwork env this) as [r this1]. cbn in H1.
    destruct (error r); exact H1.
Qed.

Lemma initReason_syncIdLists env this :
  initReason (_syncIdLists env this) = initReason this.
Proof.
  unfold _syncIdLists.
  pose proof (initReason_syncIdListsFromDataAdapter env this) as H1.
  pose proof (initReason_syncIdListsFromNetwork env this) as H2.
  destruct (syncIdListsFromDataAdapter env this) as [r1 this1].
  destruct (syncIdListsFromNetwork env this) as [r2 this2].
  cbn [snd] in H1, H2.
  destruct (initStrategyForIDLists options); try reflexivity;
    destruct shouldSyncIDListsFromAdapter; cbn [andb];
    try (destruct (error r1) eqn:He1;
         [ pose proof (initReason_syncIdListsFromNetwork env this1) as H3;
           destruct (syncIdListsFromNetwork env this1) as [r3 this3]; cbn [snd] in H3
         | ]);
    split_ifs; cbn; congruence.
Qed.

Lemma initReason_pollForUpdates now this rt :
  initReason (fst (pollForUpdates now this rt)) = initReason this.
Proof.
  unfold pollForUpdates, poll.
  destruct this as [? ? ? ? ? [tR|] [tI|] ? ? ? ? ? ?]; reflexivity.
Qed.

Lemma initReason_clearTimers this rt :
  initReason (fst (clearTimers this rt)) = initReason this.
Proof.
  unfold clearTimers, clearRulesetsSyncTimer, clearIdListsSyncTimer.
  destruct this as [? ? ? ? ? [tR|] [tI|] ? ? ? ? ? ?]; reflexivity.
Qed.

Lemma initReason_resetSyncTimerIfExited now this rt :
  initReason (snd (fst (resetSyncTimerIfExited now this rt))) = initReason this.
Proof.
  unfold resetSyncTimerIfExited, clearRulesetsSyncTimer, clearIdListsSyncTimer,
    pollForUpdates, poll.
  destruct (rulesetsSyncTimerInactive now this), (idListsSyncTimerInactive now this);
    destruct this as [? ? ? ? ? [tR|] [tI|] ? ? ? ? ? ?]; reflexivity.
Qed.

(** [_process] returned [success = true]. *)
Definition succeeded (r : ProcessResult) : bool :=
  match r with
  | Returned true _ => true
  | _ => false
  end.

(** The payload downloaded from the network is applied with success. *)
Definition networkLoads (env : RulesetsEnv) (this : SpecStore) : bool :=
  match downloadConfigSpecs env with
  | Downloaded (Parses specsJSON) => succeeded (fst (_process specsJSON this))
  | _ => false
  end.

(** A data adapter is configured, and the payload it holds is applied with
    success. *)
Definition adapterLoads (env : RulesetsEnv) (this : SpecStore) : bool :=
  match dataAdapter options, adapterRulesets env with
  | Some _, AdapterGot (Some (Parses configSpecs)) false =>
      succeeded (fst (_process configSpecs this))
  | _, _ => false
  end.

(** Bootstrap values are given, and applying them leaves a
    [lastUpdateTime] other than 0. *)
Definition bootstrapLoads (this : SpecStore) : bool :=
  match bootstrapValues options with
  | Some (Parses specsJSON) =>
      match _process specsJSON this with
      | (Returned _ _, this') => not_zero (lastUpdateTime this')
      | (Threw, _) => false
      end
  | _ => false
  end.

Lemma initReason_fetchConfigSpecsFromServer env this :
  initReason (snd (_fetchConfigSpecsFromServer env this))
  = if networkLoads env this then "Network" else initReason this.
Proof.
  unfold _fetchConfigSpecsFromServer, networkLoads.
  destruct (downloadConfigSpecs env) as [?|[|specsJSON]]; try reflexivity.
  pose proof (initReason_process specsJSON this) as H.
  destruct (_process specsJSON this) as [[[|] hasUpdates|] this1]; cbn in *; try exact H.
  destruct (rulesUpdatedCallbackThrows env); reflexivity.
Qed.

Lemma initReason_fetchConfigSpecsFromAdapter env this :
  initReason (snd (_fetchConfigSpecsFromAdapter env this))
  = if adapterLoads env this then "DataAdapter" else initReason this.
Proof.
  unfold _fetchConfigSpecsFromAdapter, adapterLoads.
  destruct (dataAdapter options); [|reflexivity].
  destruct (adapterRulesets env) as [|[[|configSpecs]|] [|]]; try reflexivity.
  pose proof (initReason_process configSpecs this) as H.
  destruct (_process configSpecs this) as [[[|] hasUpdates|] this1]; cbn in *;
    try exact H; reflexivity.
Qed.

Lemma initReason_syncConfigSpecs env this :
  initReason (_syncConfigSpecs env this)
  = if shouldSyncRulesetsFromAdapter
    then if adapterLoads env this then "DataAdapter" else initReason this
    else if networkLoads env this then "Network" else initReason this.
Proof.
  unfold _syncConfigSpecs.
  rewrite <- initReason_fetchConfigSpecsFromAdapter, <- initReason_fetchConfigSpecsFromServer.
  destruct shouldSyncRulesetsFromAdapter;
    [ destruct (_fetchConfigSpecsFromAdapter env this) as [r this1]
    | destruct (_fetchConfigSpecsFromServer env this) as [r this1] ];
    split_ifs; reflexivity.
Qed.

Lemma initReason_initFromBootstrap this :
  initReason (initFromBootstrap this)
  = if String.eqb (initReason this) "Uninitialized" && bootstrapLoads this
    then "Bootstrap" else initReason this.
Proof.
  unfold initFromBootstrap, bootstrapLoads.
  destruct (bootstrapValues options) as [[|specsJSON]|];
    rewrite ?andb_false_r; try reflexivity;
    destruct (String.eqb (initReason this) "Uninitialized"); try reflexivity.
  pose proof (initReason_process specsJSON this) as H.
  destruct (_process specsJSON this) as [[success hasUpdates|] this1]; cbn in *;
    [|exact H].
  destruct (not_zero (lastUpdateTime this1)); [reflexivity|exact H].
Qed.

Lemma init_initReason now env ids_env this rt :
  match init now false env ids_env this rt with
  | Some (this', _) =>
      let s1 := snd (_fetchConfigSpecsFromAdapter env this) in
      let s2 := initFromBootstrap s1 in
      initReason this'
      = if String.eqb (initReason s2) "Uninitialized"
        then initReason (snd (_fetchConfigSpecsFromServer env s2))
        else initReason s2
  | None => False
  end.
Proof.
  unfold init.
  assert (Hs1 : match dataAdapter options with
                | Some _ => Some (snd (_fetchConfigSpecsFromAdapter env this))
                | None => Some this
                end = Some (snd (_fetchConfigSpecsFromAdapter env this))).
  { unfold _fetchConfigSpecsFromAdapter. destruct (dataAdapter options); reflexivity. }
  rewrite Hs1. clear Hs1.
  set (s1 := snd (_fetchConfigSpecsFromAdapter env this)).
  set (s2 := initFromBootstrap s1).
  set (s3 := if String.eqb (initReason s2) "Uninitialized"
             then snd (_fetchConfigSpecsFromServer env s2) else s2).
  assert (H3 : initReason s3
               = if String.eqb (initReason s2) "Uninitialized"
                 then initReason (snd (_fetchConfigSpecsFromServer env s2))
                 else initReason s2).
  { unfold s3. destruct (String.eqb (initReason s2) "Uninitialized"); reflexivity. }
  rewrite <- H3. clear H3.
  set (s4 := match initStrategyForIDLists options with
             | StrategyAwait => _initIDLists ids_env (setInitialUpdateTime s3)
             | _ => setInitialUpdateTime s3
             end).
  assert (H4 : initReason s4 = initReason s3).
  { unfold s4. destruct (initStrategyForIDLists options);
      rewrite ?initReason_initIDLists; reflexivity. }
  pose proof (initReason_pollForUpdates now s4 rt) as H5.
  destruct (pollForUpdates now s4 rt) as [s5 rt5]. cbn in *. congruence.
Qed.

(** The source [init] takes the rulesets from: the adapter, else the
    bootstrap values, else the network, the first that loads. *)
Definition first_successful_source (env : RulesetsEnv) (this : SpecStore) : string :=
  let afterAdapter := snd (_fetchConfigSpecsFromAdapter env this) in
  let afterBootstrap := initFromBootstrap afterAdapter in
  if adapterLoads env this then "DataAdapter"
  else if bootstrapLoads afterAdapter then "Bootstrap"
  else if networkLoads env afterBootstrap then "Network"
  else "Uninitialized".

Lemma known_first_successful_source env this :
  known_reason (first_successful_source env this).
Proof.
  unfold first_successful_source, known_reason. split_ifs; auto.
Qed.

(** C8, as the code has it. [initReason] is always one of Uninitialized,
    Network, Bootstrap, DataAdapter: the constructor sets Uninitialized,
    [init()] sets it to the first source that loads (adapter, bootstrap,
    network), and after [init] it changes only in a ruleset sync (a tick of
    the ruleset timer, or the sync [shutdownAsync] runs): a sync from the
    network whose payload is applied with success sets it to Network, and a
    sync from a data adapter that supports polling for rulesets, whose
    payload is applied with success, sets it to DataAdapter. No other
    operation modifies it. *)
Theorem initReason_changes_only_in_ruleset_syncs :
  (forall created, initReason (new_SpecStore created) = "Uninitialized")
  /\ (forall created now env ids_env rt,
        match init now false env ids_env (new_SpecStore created) rt with
        | Some (this', _) =>
            initReason this' = first_successful_source env (new_SpecStore created)
        | None => False
        end)
  /\ (forall op this rt,
        known_reason (initReason this) ->
        let this' := fst (run op this rt) in
        known_reason (initReason this')
        /\ (initReason this' <> initReason this ->
            exists now env before,
              ruleset_sync op this rt = Some (now, env, before)
              /\ let started := set_rulesetsSyncTimerLastActiveTime now before in
                 (shouldSyncRulesetsFromAdapter = false
                  /\ networkLoads env started = true
                  /\ initReason this' = "Network")
                 \/ (shouldSyncRulesetsFromAdapter = true
                     /\ adapterLoads env started = true
                     /\ initReason this' = "DataAdapter"))).
Proof.
  split; [reflexivity|]. split.
  - intros created now env ids_env rt.
    pose proof (init_initReason now env ids_env (new_SpecStore created) rt) as H.
    destruct (init now false env ids_env (new_SpecStore created) rt) as [[this' rt']|];
      [|exact H].
    cbv zeta in H. rewrite H. clear H. unfold first_successful_source.
    rewrite initReason_initFromBootstrap, initReason_fetchConfigSpecsFromServer,
      initReason_initFromBootstrap, initReason_fetchConfigSpecsFromAdapter.
    cbn [initReason new_SpecStore].
    destruct (adapterLoads env (new_SpecStore created)); cbn; [reflexivity|].
    destruct (bootstrapLoads _); cbn; reflexivity.
  - intros op this rt Hknown. cbv zeta.
    assert (Hsync : forall now env before,
              initReason before = initReason this ->
              let started := set_rulesetsSyncTimerLastActiveTime now before in
              known_reason (initReason (rulesetsSyncPromise now env before))
              /\ (initReason (rulesetsSyncPromise now env before) <> initReason this ->
                  (shouldSyncRulesetsFromAdapter = false
                   /\ networkLoads env started = true
                   /\ initReason (rulesetsSyncPromise now env before) = "Network")
                  \/ (shouldSyncRulesetsFromAdapter = true
                      /\ adapterLoads env started = true
                      /\ initReason (rulesetsSyncPromise now env before) = "DataAdapter"))).
    { intros now env before Hsame started.
      unfold rulesetsSyncPromise. rewrite initReason_syncConfigSpecs. fold started.
      change (initReason started) with (initReason before). rewrite Hsame.
      destruct shouldSyncRulesetsFromAdapter.
      - destruct (adapterLoads env started).
        + split; [unfold known_reason; auto|]. intros _. right. auto.
        + split; [exact Hknown|]. intros Hne. contradiction.
      - destruct (networkLoads env started).
        + split; [unfold known_reason; auto|]. intros _. left. auto.
        + split; [exact Hknown|]. intros Hne. contradiction. }
    destruct op as [now env|now env|env|now| |now env now' ids_env]; cbn [run fst].
    + destruct (Hsync now env this eq_refl) as [Hk Hc]. split; [exact Hk|].
      intros Hne. exists now, env, this. split; [reflexivity|]. exact (Hc Hne).
    + unfold idListsSyncPromise. rewrite initReason_syncIdLists. cbn.
      split; [exact Hknown|]. intros Hne. contradiction.
    + rewrite initReason_initIDLists.
      split; [exact Hknown|]. intros Hne. contradiction.
    + pose proof (initReason_resetSyncTimerIfExited now this rt) as H.
      destruct (resetSyncTimerIfExited now this rt) as [[result this1] rt1].
      cbn in *. rewrite H. split; [exact Hknown|]. intros Hne. contradiction.
    + unfold shutdown. rewrite initReason_clearTimers.
      split; [exact Hknown|]. intros Hne. contradiction.
    + unfold shutdownAsync, ruleset_sync.
      pose proof (initReason_clearTimers this rt) as Hshut. fold (shutdown this rt) in Hshut.
      destruct (shutdown this rt) as [this1 rt1]. cbn [fst] in *.
      unfold idListsSyncPromise. rewrite initReason_syncIdLists.
      change (initReason (set_idListsSyncTimerLastActiveTime now'
                            (rulesetsSyncPromise now env this1)))
        with (initReason (rulesetsSyncPromise now env this1)).
      destruct (Hsync now env this1 Hshut) as [Hk Hc]. split; [exact Hk|].
      intros Hne. exists now, env, this1. split; [reflexivity|]. exact (Hc Hne).
Qed.

(** ** What a sync leaves alone *)

Lemma with_idLists_same this : with_idLists (idLists (store this)) this = this.
Proof. destruct this as [? ? ? [? ? ? ? ?] ? ? ? ? ? ? ? ? ?]. reflexivity. Qed.

Lemma with_idLists_twice lists lists' this :
  with_idLists lists' (with_idLists lists this) = with_idLists lists' this.
Proof. reflexivity. Qed.

(** [this'] is [this] but for the ID lists. *)
Definition only_idLists (this this' : SpecStore) : Prop :=
  this' = with_idLists (idLists (store this')) this.

Lemma only_idLists_refl this : only_idLists this this.
Proof. unfold only_idLists. symmetry. apply with_idLists_same. Qed.

Lemma only_idLists_with lists this : only_idLists this (with_idLists lists this).
Proof. reflexivity. Qed.

Lemma only_idLists_trans a b c : only_idLists a b -> only_idLists b c -> only_idLists a c.
Proof.
  unfold only_idLists. intros Hab Hbc. rewrite Hbc at 1. rewrite Hab.
  apply with_idLists_twice.
Qed.

Lemma only_idLists_genFetchIDList safeFetch name url readSize this :
  only_idLists this (genFetchIDList safeFetch name url readSize this).
Proof.
  unfold genFetchIDList.
  destruct (safeFetch url readSize) as [| |[contentLength|] text];
    try apply only_idLists_refl.
  destruct (typeof_number (parseInt contentLength)); [|apply only_idLists_with].
  destruct (idLists (store this) !! name); [|apply only_idLists_refl].
  destruct text; apply only_idLists_with.
Qed.

Lemma only_idLists_settle safeFetch promises : forall this,
  only_idLists this (settle safeFetch promises this).
Proof.
  unfold settle. induction promises as [|[[name url] readSize] rest IH]; intros this.
  - apply only_idLists_refl.
  - cbn. eapply only_idLists_trans; [apply only_idLists_genFetchIDList|apply IH].
Qed.

Lemma only_idLists_lookupEntry name item this promises this' promises' :
  lookupEntry name item (this, promises) = Some (this', promises') ->
  only_idLists this this'.
Proof.
  unfold lookupEntry. intros H.
  repeat match type of H with
  | context [match ?x with _ => _ end] => destruct x
  end; try discriminate H; injection H as <- _;
    first [apply only_idLists_refl | apply only_idLists_with].
Qed.

Lemma only_idLists_lookupEntries lookup : forall this promises this' promises',
  lookupEntries lookup (this, promises) = Some (this', promises') ->
  only_idLists this this'.
Proof.
  induction lookup as [|[name item] rest IH]; intros this promises this' promises' H.
  - injection H as <- _. apply only_idLists_refl.
  - cbn [lookupEntries] in H.
    destruct (lookupEntry name item (this, promises)) as [[this1 promises1]|] eqn:Hone;
      [|discriminate H].
    eapply only_idLists_trans;
      [exact (only_idLists_lookupEntry _ _ _ _ _ _ Hone)|exact (IH _ _ _ _ H)].
Qed.

Lemma only_idLists_syncIdListsFromNetwork env this :
  only_idLists this (snd (syncIdListsFromNetwork env this)).
Proof.
  unfold syncIdListsFromNetwork.
  destruct (getIDLists env) as [?| |[json|]]; try apply only_idLists_refl.
  destruct (parseLookupResponse json) as [lookup|]; [|apply only_idLists_refl].
  destruct (lookupEntries lookup (this, [])) as [[this1 promises]|] eqn:Hl;
    [|apply only_idLists_refl].
  apply only_idLists_lookupEntries in Hl.
  assert (only_idLists this
            (settle (safeFetch env) promises
               (with_idLists (removeOldIdLists (idLists (store this1)) lookup) this1)))
    as Hs.
  { eapply only_idLists_trans; [exact Hl|].
    eapply only_idLists_trans; [apply only_idLists_with|apply only_idLists_settle]. }
  destruct (dataAdapter options); [destruct (saveToDataAdapterThrows env)|]; exact Hs.
Qed.

Lemma only_idLists_adapterTask env name this rejected :
  only_idLists this (fst (adapterTask env name (this, rejected))).
Proof.
  unfold adapterTask.
  destruct (adapterList env (getIdListDataStoreKey name)) as [|result];
    [apply only_idLists_refl|].
  destruct (truthy_string result); [apply only_idLists_with|apply only_idLists_refl].
Qed.

Lemma only_idLists_syncIdListsFromDataAdapter env this :
  only_idLists this (snd (syncIdListsFromDataAdapter env this)).
Proof.
  unfold syncIdListsFromDataAdapter.
  destruct (dataAdapter options); [|apply only_idLists_refl].
  destruct (adapterIDLists env) as [|result]; [apply only_idLists_refl|].
  destruct (truthy_string result) as [listsLookupString|]; [|apply only_idLists_refl].
  destruct (parseBootstrapLookup listsLookupString) as [lookup|];
    [|apply only_idLists_refl].
  assert (forall acc,
            only_idLists (fst acc)
              (fst (fold_left (fun acc name => adapterTask env name acc) lookup acc)))
    as Hfold.
  { induction lookup as [|name rest IH]; intros [this1 rejected];
      [apply only_idLists_refl|].
    cbn [fold_left]. eapply only_idLists_trans; [|apply IH].
    apply only_idLists_adapterTask. }
  specialize (Hfold (this, false)).
  destruct (fold_left _ lookup (this, false)) as [this1 [|]]; exact Hfold.
Qed.

Lemma only_idLists_initIDLists env this : only_idLists this (_initIDLists env this).
Proof.
  unfold _initIDLists.
  destruct (dataAdapter options) eqn:Hadapter.
  - pose proof (only_idLists_syncIdListsFromDataAdapter env this) as H1.
    destruct (syncIdListsFromDataAdapter env this) as [r this1]. cbn in H1.
    destruct (error r); [|exact H1].
    eapply only_idLists_trans; [exact H1|apply only_idLists_syncIdListsFromNetwork].
  - pose proof (only_idLists_syncIdListsFromNetwork env this) as H1.
    destruct (syncIdListsFromNetwork env this) as [r this1]. cbn in H1.
    destruct (error r); exact H1.
Qed.

(** The sync of [_syncIdLists], before the failure count is updated. *)
Lemma syncIdLists_frame env this :
  exists lists count,
    _syncIdLists env this
    = set_idListsSyncFailureCount count (with_idLists lists this)
    /\ (count = 0 \/ count = idListsSyncFailureCount this
        \/ (count = idListsSyncFailureCount this + 1
            /\ count * idListsSyncIntervalMs options <= SYNC_OUTDATED_MAX)).
Proof.
  assert (Hsame : forall lists,
            with_idLists lists this
            = set_idListsSyncFailureCount (idListsSyncFailureCount this)
                (with_idLists lists this)).
  { intros lists. destruct this. reflexivity. }
  unfold _syncIdLists.
  pose proof (only_idLists_syncIdListsFromDataAdapter env this) as H1.
  pose proof (only_idLists_syncIdListsFromNetwork env this) as H2.
  destruct (syncIdListsFromDataAdapter env this) as [r1 this1].
  destruct (syncIdListsFromNetwork env this) as [r2 this2].
  cbn [snd] in H1, H2.
  assert (Hcount : forall r this',
            only_idLists this this' ->
            exists lists count,
              (if synced r then set_idListsSyncFailureCount 0 this'
               else if error r then
                 if (idListsSyncFailureCount this' + 1) * idListsSyncIntervalMs options
                    >? SYNC_OUTDATED_MAX
                 then set_idListsSyncFailureCount 0 this'
                 else set_idListsSyncFailureCount (idListsSyncFailureCount this' + 1) this'
               else this')
              = set_idListsSyncFailureCount count (with_idLists lists this)
              /\ (count = 0 \/ count = idListsSyncFailureCount this
                  \/ (count = idListsSyncFailureCount this + 1
                      /\ count * idListsSyncIntervalMs options <= SYNC_OUTDATED_MAX))).
  { intros r this' Honly. rewrite Honly.
    change (idListsSyncFailureCount (with_idLists (idLists (store this')) this))
      with (idListsSyncFailureCount this).
    exists (idLists (store this')).
    destruct (synced r); [exists 0; auto|].
    destruct (error r); [|eexists; split; [apply Hsame|auto]].
    destruct (_ >? _) eqn:Hgt; [exists 0; auto|].
    eexists; split; [reflexivity|]. right. right. split; [reflexivity|].
    rewrite Z.gtb_ltb in Hgt. apply Z.ltb_ge in Hgt. exact Hgt. }
  destruct (initStrategyForIDLists options);
    [ | | exists (idLists (store this)), (idListsSyncFailureCount this);
          split; [|auto];
          destruct this as [? ? ? [? ? ? ? ?] ? ? ? ? ? ? ? ? ?]; reflexivity ];
    (destruct shouldSyncIDListsFromAdapter; cbn [andb];
     [ destruct (error r1) eqn:He1;
       [ pose proof (only_idLists_syncIdListsFromNetwork env this1) as H3;
         destruct (syncIdListsFromNetwork env this1) as [r3 this3]; cbn [snd] in H3;
         apply Hcount; eapply only_idLists_trans; [exact H1|exact H3]
       | apply Hcount; exact H1 ]
     | apply Hcount; exact H2 ]).
Qed.

(** An ID-list sync changes nothing but the ID lists: the tick of the
    ID-list timer leaves every field of the store as it was, except
    [store.idLists], the failure count of its loop (set to 0, left as it
    was, or increased by one while count times period stays within 120000)
    and the loop's last-active timestamp; the initialisation of the ID
    lists changes [store.idLists] only. Gates, configs, layers,
    lastUpdateTime, initReason and the sampling rates are never touched. *)
Theorem idLists_sync_changes_only_idLists (now : Z) (env : IdListsEnv) (this : SpecStore) :
  (exists lists count,
     idListsSyncPromise now env this
     = set_idListsSyncFailureCount count
         (set_idListsSyncTimerLastActiveTime now (with_idLists lists this))
     /\ (count = 0 \/ count = idListsSyncFailureCount this
         \/ (count = idListsSyncFailureCount this + 1
             /\ count * idListsSyncIntervalMs options <= SYNC_OUTDATED_MAX)))
  /\ exists lists, _initIDLists env this = with_idLists lists this.
Proof.
  split.
  - unfold idListsSyncPromise.
    destruct (syncIdLists_frame env (set_idListsSyncTimerLastActiveTime now this))
      as (lists & count & Hrun & Hcount).
    exists lists, count. split; [|exact Hcount]. rewrite Hrun. reflexivity.
  - exists (idLists (store (_initIDLists env this))). apply only_idLists_initIDLists.
Qed.

(** What lies outside the snapshot of rulesets: the ID lists, the timers
    and their timestamps, the failure counts, and what [init] sets. *)
Definition outside_snapshot (this : SpecStore) :=
  (idLists (store this), initialUpdateTime this, initialized this,
   rulesetsSyncTimer this, idListsSyncTimer this,
   rulesetsSyncTimerLastActiveTime this, idListsSyncTimerLastActiveTime this,
   rulesetsSyncFailureCount this, idListsSyncFailureCount this).

Lemma outside_process specsJSON this :
  outside_snapshot (snd (_process specsJSON this)) = outside_snapshot this.
Proof.
  destruct (truthy (get "has_updates" specsJSON)) eqn:Hup.
  - destruct (process_outcomes specsJSON this Hup)
      as [H|[H|(g & c & l & e & _ & H)]]; rewrite H; cbn [snd];
      rewrite updateSamplingRates_frame; reflexivity.
  - rewrite (process_no_updates specsJSON this Hup). reflexivity.
Qed.

(** Whatever the payload and whatever [_process] comes to, it assigns
    nothing but the sampling rates and the snapshot (gates, configs,
    layers, experimentToLayer, lastUpdateTime, clientSDKKeyToAppMap): the
    ID lists, [initReason], [initialUpdateTime], [initialized], the timers,
    their timestamps and the failure counts are as they were. *)
Theorem process_touches_only_the_snapshot (specsJSON : JSON) (this : SpecStore) :
  outside_snapshot (snd (_process specsJSON this)) = outside_snapshot this
  /\ initReason (snd (_process specsJSON this)) = initReason this.
Proof. split; [apply outside_process|apply initReason_process]. Qed.

Lemma outside_fetchConfigSpecsFromServer env this :
  outside_snapshot (snd (_fetchConfigSpecsFromServer env this)) = outside_snapshot this.
Proof.
  unfold _fetchConfigSpecsFromServer.
  destruct (downloadConfigSpecs env) as [?|[|specsJSON]]; try reflexivity.
  pose proof (outside_process specsJSON this) as H.
  destruct (_process specsJSON this) as [[[|] hasUpdates|] this1]; cbn in *; try exact H.
  destruct (rulesUpdatedCallbackThrows env); exact H.
Qed.

Lemma outside_fetchConfigSpecsFromAdapter env this :
  outside_snapshot (snd (_fetchConfigSpecsFromAdapter env this)) = outside_snapshot this.
Proof.
  unfold _fetchConfigSpecsFromAdapter.
  destruct (dataAdapter options); [|reflexivity].
  destruct (adapterRulesets env) as [|[[|configSpecs]|] [|]]; try reflexivity.
  pose proof (outside_process configSpecs this) as H.
  destruct (_process configSpecs this) as [[[|] hasUpdates|] this1]; cbn in *; exact H.
Qed.

(** The two failure counts. *)
Definition counts (this : SpecStore) : Z * Z :=
  (rulesetsSyncFailureCount this, idListsSyncFailureCount this).

Lemma counts_outside this this' :
  outside_snapshot this' = outside_snapshot this -> counts this' = counts this.
Proof. unfold outside_snapshot, counts. intros H. injection H as _ _ _ _ _ _ _ -> ->. reflexivity. Qed.

Lemma counts_syncConfigSpecs env this :
  idListsSyncFailureCount (_syncConfigSpecs env this) = idListsSyncFailureCount this
  /\ (rulesetsSyncFailureCount (_syncConfigSpecs env this) = 0
      \/ rulesetsSyncFailureCount (_syncConfigSpecs env this) = rulesetsSyncFailureCount this
      \/ (rulesetsSyncFailureCount (_syncConfigSpecs env this)
          = rulesetsSyncFailureCount this + 1
          /\ rulesetsSyncFailureCount (_syncConfigSpecs env this)
             * rulesetsSyncIntervalMs options <= SYNC_OUTDATED_MAX)).
Proof.
  unfold _syncConfigSpecs.
  assert (exists r this1,
            (if shouldSyncRulesetsFromAdapter then _fetchConfigSpecsFromAdapter env this
             else _fetchConfigSpecsFromServer env this) = (r, this1)
            /\ counts this1 = counts this) as (r & this1 & -> & Hc).
  { destruct shouldSyncRulesetsFromAdapter.
    - pose proof (outside_fetchConfigSpecsFromAdapter env this) as H.
      destruct (_fetchConfigSpecsFromAdapter env this) as [r this1].
      exists r, this1. split; [reflexivity|]. apply counts_outside, H.
    - pose proof (outside_fetchConfigSpecsFromServer env this) as H.
      destruct (_fetchConfigSpecsFromServer env this) as [r this1].
      exists r, this1. split; [reflexivity|]. apply counts_outside, H. }
  unfold counts in Hc. injection Hc as Hr Hi.
  destruct (synced r); [cbn; auto|].
  destruct (error r); [|cbn; rewrite Hr, Hi; auto].
  destruct (_ >? _) eqn:Hgt; cbn; [auto|].
  rewrite Hr, Hi. split; [reflexivity|]. right. right. split; [reflexivity|].
  rewrite Z.gtb_ltb in Hgt. apply Z.ltb_ge in Hgt. rewrite Hr in Hgt. exact Hgt.
Qed.

Lemma counts_pollForUpdates now this rt :
  counts (fst (pollForUpdates now this rt)) = counts this.
Proof.
  unfold pollForUpdates, poll.
  destruct this as [? ? ? ? ? [tR|] [tI|] ? ? ? ? ? ?]; reflexivity.
Qed.

Lemma counts_clearTimers this rt : counts (fst (clearTimers this rt)) = counts this.
Proof.
  unfold clearTimers, clearRulesetsSyncTimer, clearIdListsSyncTimer.
  destruct this as [? ? ? ? ? [tR|] [tI|] ? ? ? ? ? ?]; reflexivity.
Qed.

Lemma counts_resetSyncTimerIfExited now this rt :
  counts (snd (fst (resetSyncTimerIfExited now this rt))) = counts this.
Proof.
  unfold resetSyncTimerIfExited, clearRulesetsSyncTimer, clearIdListsSyncTimer,
    pollForUpdates, poll.
  destruct (rulesetsSyncTimerInactive now this), (idListsSyncTimerInactive now this);
    destruct this as [? ? ? ? ? [tR|] [tI|] ? ? ? ? ? ?]; reflexivity.
Qed.

(** Both failure counts are non-negative and within the bound: count times
    period is at most 120000. *)
Definition counts_bounded (this : SpecStore) : Prop :=
  0 <= rulesetsSyncFailureCount this
  /\ rulesetsSyncFailureCount this * rulesetsSyncIntervalMs options <= SYNC_OUTDATED_MAX
  /\ 0 <= idListsSyncFailureCount this
  /\ idListsSyncFailureCount this * idListsSyncIntervalMs options <= SYNC_OUTDATED_MAX.

Lemma counts_bounded_same this this' :
  counts this' = counts this -> counts_bounded this -> counts_bounded this'.
Proof.
  unfold counts, counts_bounded. intros H. injection H as -> ->. auto.
Qed.

Lemma counts_bounded_rulesetsSyncPromise now env this :
  counts_bounded this -> counts_bounded (rulesetsSyncPromise now env this).
Proof.
  unfold rulesetsSyncPromise. intros (Hr0 & Hr & Hi0 & Hi).
  destruct (counts_syncConfigSpecs env (set_rulesetsSyncTimerLastActiveTime now this))
    as [Hids Hrules].
  cbn in Hids, Hrules. unfold counts_bounded. rewrite Hids.
  unfold SYNC_OUTDATED_MAX in *.
  destruct Hrules as [->|[->|[-> Hle]]]; repeat split; auto; lia.
Qed.

Lemma counts_bounded_idListsSyncPromise now env this :
  counts_bounded this -> counts_bounded (idListsSyncPromise now env this).
Proof.
  unfold idListsSyncPromise. intros (Hr0 & Hr & Hi0 & Hi).
  destruct (syncIdLists_frame env (set_idListsSyncTimerLastActiveTime now this))
    as (lists & count & -> & Hcount).
  cbn in Hcount. unfold counts_bounded. cbn. unfold SYNC_OUTDATED_MAX in *.
  destruct Hcount as [->|[->|[-> Hle]]]; repeat split; auto; lia.
Qed.

(** The count a sync leaves, by what the sync reports: 0 if it synced;
    one more if it reports an error, and 0 if that would pass the bound;
    the count as it was if it reports neither. *)
Definition counted (interval : Z) (result : SyncResult) (count : Z) : Z :=
  if synced result then 0
  else if error result then
    if (count + 1) * interval >? SYNC_OUTDATED_MAX then 0 else count + 1
  else count.

(** What the sync of a ruleset tick reports. *)
Definition rulesetsSyncResult (env : RulesetsEnv) (this : SpecStore) : SyncResult :=
  fst (if shouldSyncRulesetsFromAdapter then _fetchConfigSpecsFromAdapter env this
       else _fetchConfigSpecsFromServer env this).

(** What the sync of an ID-list tick reports, the retry from the network
    after an adapter's error included; [None] when the strategy is [none]
    and no sync is run. *)
Definition idListsSyncResult (env : IdListsEnv) (this : SpecStore) : option SyncResult :=
  match initStrategyForIDLists options with
  | StrategyNone => None
  | _ =>
      let first :=
        if shouldSyncIDListsFromAdapter then syncIdListsFromDataAdapter env this
        else syncIdListsFromNetwork env this in
      if shouldSyncIDListsFromAdapter && error (fst first)
      then Some (fst (syncIdListsFromNetwork env (snd first)))
      else Some (fst first)
  end.

(** The operations that run a sync. *)
Definition syncs (op : Operation) : bool :=
  match op with
  | RulesetsTick _ _ | IdListsTick _ _ | ShutdownAsync _ _ _ _ => true
  | _ => false
  end.

Lemma counts_only_idLists this this' : only_idLists this this' -> counts this' = counts this.
Proof. unfold only_idLists. intros H. rewrite H. reflexivity. Qed.

Lemma counts_rulesetsSyncPromise now env this :
  counts (rulesetsSyncPromise now env this)
  = (counted (rulesetsSyncIntervalMs options)
       (rulesetsSyncResult env (set_rulesetsSyncTimerLastActiveTime now this))
       (rulesetsSyncFailureCount this),
     idListsSyncFailureCount this).
Proof.
  unfold rulesetsSyncPromise, _syncConfigSpecs, rulesetsSyncResult, counted.
  set (this0 := set_rulesetsSyncTimerLastActiveTime now this).
  assert (exists r this1,
            (if shouldSyncRulesetsFromAdapter then _fetchConfigSpecsFromAdapter env this0
             else _fetchConfigSpecsFromServer env this0) = (r, this1)
            /\ counts this1 = counts this) as (r & this1 & -> & Hc).
  { destruct shouldSyncRulesetsFromAdapter.
    - pose proof (outside_fetchConfigSpecsFromAdapter env this0) as H.
      destruct (_fetchConfigSpecsFromAdapter env this0) as [r this1].
      exists r, this1. split; [reflexivity|]. apply (counts_outside this0), H.
    - pose proof (outside_fetchConfigSpecsFromServer env this0) as H.
      destruct (_fetchConfigSpecsFromServer env this0) as [r this1].
      exists r, this1. split; [reflexivity|]. apply (counts_outside this0), H. }
  unfold counts in *. injection Hc as Hr Hi. cbn [fst].
  destruct (synced r); [cbn; rewrite Hi; reflexivity|].
  destruct (error r); [|rewrite Hr, Hi; reflexivity].
  rewrite Hr. destruct (_ >? _); cbn; rewrite Hi; reflexivity.
Qed.

Lemma counts_idListsSyncPromise now env this :
  counts (idListsSyncPromise now env this)
  = (rulesetsSyncFailureCount this,
     match idListsSyncResult env (set_idListsSyncTimerLastActiveTime now this) with
     | Some result =>
         counted (idListsSyncIntervalMs options) result (idListsSyncFailureCount this)
     | None => idListsSyncFailureCount this
     end).
Proof.
  unfold idListsSyncPromise, _syncIdLists, idListsSyncResult, counted.
  set (this0 := set_idListsSyncTimerLastActiveTime now this).
  assert (Hclose : forall r this',
            only_idLists this0 this' ->
            counts (if synced r then set_idListsSyncFailureCount 0 this'
                    else if error r then
                      if (idListsSyncFailureCount this' + 1) * idListsSyncIntervalMs options
                         >? SYNC_OUTDATED_MAX
                      then set_idListsSyncFailureCount 0 this'
                      else set_idListsSyncFailureCount (idListsSyncFailureCount this' + 1) this'
                    else this')
            = (rulesetsSyncFailureCount this,
               if synced r then 0
               else if error r then
                 if (idListsSyncFailureCount this + 1) * idListsSyncIntervalMs options
                    >? SYNC_OUTDATED_MAX
                 then 0 else idListsSyncFailureCount this + 1
               else idListsSyncFailureCount this)).
  { intros r this' Honly. apply counts_only_idLists in Honly.
    unfold counts in *. injection Honly as Hr Hi. cbn in Hr, Hi.
    destruct (synced r); [cbn; rewrite Hr; reflexivity|].
    destruct (error r); [|rewrite Hr, Hi; reflexivity].
    rewrite Hi. destruct (_ >? _); cbn; rewrite Hr; reflexivity. }
  pose proof (only_idLists_syncIdListsFromDataAdapter env this0) as H1.
  pose proof (only_idLists_syncIdListsFromNetwork env this0) as H2.
  destruct (syncIdListsFromDataAdapter env this0) as [r1 this1].
  destruct (syncIdListsFromNetwork env this0) as [r2 this2].
  cbn [fst snd] in H1, H2.
  destruct (initStrategyForIDLists options); [ | |reflexivity];
    (destruct shouldSyncIDListsFromAdapter; cbn [andb fst snd];
     [ destruct (error r1) eqn:He1;
       [ pose proof (only_idLists_syncIdListsFromNetwork env this1) as H3;
         destruct (syncIdListsFromNetwork env this1) as [r3 this3]; cbn [fst snd] in *;
         apply Hclose; eapply only_idLists_trans; [exact H1|exact H3]
       | apply Hclose; exact H1 ]
     | apply Hclose; exact H2 ]).
Qed.

(** The failure counts follow the syncs. A tick of the ruleset timer
    leaves its count at 0 if the sync synced, one higher if the sync
    reports an error (or at 0, with a warning, if count times period would
    pass 120000), and as it was if the sync reports neither; it leaves the
    other loop's count alone. A tick of the ID-list timer does the same to
    its own count, by the result of the sync and of its retry from the
    network. An operation that runs no sync changes no count. So counts
    that are non-negative with count times period at most 120000 are
    still so after any operation. *)
Theorem failure_counts_follow_the_syncs (this : SpecStore) (rt : Runtime) :
  (forall now env,
     counts (fst (run (RulesetsTick now env) this rt))
     = (counted (rulesetsSyncIntervalMs options)
          (rulesetsSyncResult env (set_rulesetsSyncTimerLastActiveTime now this))
          (rulesetsSyncFailureCount this),
        idListsSyncFailureCount this))
  /\ (forall now env,
        counts (fst (run (IdListsTick now env) this rt))
        = (rulesetsSyncFailureCount this,
           match idListsSyncResult env (set_idListsSyncTimerLastActiveTime now this) with
           | Some result =>
               counted (idListsSyncIntervalMs options) result (idListsSyncFailureCount this)
           | None => idListsSyncFailureCount this
           end))
  /\ (forall op, syncs op = false -> counts (fst (run op this rt)) = counts this)
  /\ (counts_bounded this -> forall op, counts_bounded (fst (run op this rt))).
Proof.
  split; [intros now env; apply counts_rulesetsSyncPromise|].
  split; [intros now env; apply counts_idListsSyncPromise|].
  split.
  - intros [now env|now env|env|now| |now env now' ids_env] Hop; try discriminate Hop;
      cbn [run fst].
    + apply counts_only_idLists, only_idLists_initIDLists.
    + pose proof (counts_resetSyncTimerIfExited now this rt) as H.
      destruct (resetSyncTimerIfExited now this rt) as [[result this1] rt1]. exact H.
    + apply counts_clearTimers.
  - intros Hb [now env|now env|env|now| |now env now' ids_env]; cbn [run fst].
    + apply counts_bounded_rulesetsSyncPromise, Hb.
    + apply counts_bounded_idListsSyncPromise, Hb.
    + pose proof (only_idLists_initIDLists env this) as ->. exact Hb.
    + pose proof (counts_resetSyncTimerIfExited now this rt) as H.
      destruct (resetSyncTimerIfExited now this rt) as [[result this1] rt1].
      exact (counts_bounded_same _ _ H Hb).
    + apply (counts_bounded_same _ _ (counts_clearTimers this rt) Hb).
    + unfold shutdownAsync, shutdown.
      pose proof (counts_clearTimers this rt) as H.
      destruct (clearTimers this rt) as [this1 rt1]. cbn [fst] in *.
      apply counts_bounded_idListsSyncPromise, counts_bounded_rulesetsSyncPromise.
      exact (counts_bounded_same _ _ H Hb).
Qed.

(** ** Timers: none is started twice, none is lost *)

(** [pollForUpdates] leaves both timers set; a timer that was set keeps its
    handle and its loop's timestamp, and no second timer is started for it;
    so a second call changes nothing and starts nothing. *)
Theorem pollForUpdates_starts_each_timer_once (now now' : Z) (this : SpecStore)
    (rt : Runtime) :
  is_Some (rulesetsSyncTimer (fst (pollForUpdates now this rt)))
  /\ is_Some (idListsSyncTimer (fst (pollForUpdates now this rt)))
  /\ pollForUpdates now' (fst (pollForUpdates now this rt)) (snd (pollForUpdates now this rt))
     = pollForUpdates now this rt
  /\ (is_Some (rulesetsSyncTimer this) ->
      rulesetsSyncTimer (fst (pollForUpdates now this rt)) = rulesetsSyncTimer this
      /\ rulesetsSyncTimerLastActiveTime (fst (pollForUpdates now this rt))
         = rulesetsSyncTimerLastActiveTime this)
  /\ (is_Some (idListsSyncTimer this) ->
      idListsSyncTimer (fst (pollForUpdates now this rt)) = idListsSyncTimer this
      /\ idListsSyncTimerLastActiveTime (fst (pollForUpdates now this rt))
         = idListsSyncTimerLastActiveTime this)
  /\ (is_Some (rulesetsSyncTimer this) -> is_Some (idListsSyncTimer this) ->
      pollForUpdates now this rt = (this, rt)).
Proof.
  unfold pollForUpdates, poll.
  destruct this as [? ? ? ? ? [tR|] [tI|] ? ? ? ? ? ?]; cbn;
    (split; [eauto|split; [eauto|split; [reflexivity|split; [|split]]]]);
    try (intros [? Hsome]; try discriminate Hsome; split; reflexivity);
    intros [? HR] [? HI]; try discriminate HR; try discriminate HI; reflexivity.
Qed.

(** The timers the runtime has running: started by [poll] and not cleared
    since. *)
Definition step_running (live : gset Timer) (e : TimerEvent) : gset Timer :=
  match e with
  | Polled _ _ t => {[t]} ∪ live
  | Cleared t => live ∖ {[t]}
  end.

Definition running (rt : Runtime) : gset Timer :=
  fold_left step_running (timerLog rt) ∅.

Definition handle (timer : option Timer) : gset Timer :=
  match timer with
  | Some t => {[t]}
  | None => ∅
  end.

(** The timers the store holds a handle of. *)
Definition held_timers (this : SpecStore) : gset Timer :=
  handle (rulesetsSyncTimer this) ∪ handle (idListsSyncTimer this).

(** The store holds exactly the running timers, under two handles that
    differ and that [poll] has already given out. *)
Definition timers_accounted (this : SpecStore) (rt : Runtime) : Prop :=
  running rt = held_timers this
  /\ (forall t, t ∈ held_timers this -> (t < nextTimer rt)%nat)
  /\ (forall t, rulesetsSyncTimer this = Some t -> idListsSyncTimer this <> Some t).

Lemma accounted_same this this' rt :
  rulesetsSyncTimer this' = rulesetsSyncTimer this ->
  idListsSyncTimer this' = idListsSyncTimer this ->
  timers_accounted this rt -> timers_accounted this' rt.
Proof.
  unfold timers_accounted, held_timers. intros -> ->. auto.
Qed.

Lemma accounted_clearRulesetsSyncTimer this rt :
  timers_accounted this rt ->
  timers_accounted (fst (clearRulesetsSyncTimer this rt))
                   (snd (clearRulesetsSyncTimer this rt)).
Proof.
  unfold clearRulesetsSyncTimer, timers_accounted, held_timers.
  destruct this as [? ? ? ? ? [tR|] tI ? ? ? ? ? ?]; cbn; [|auto].
  intros (Hrun & Hfresh & Hdiff).
  unfold running in *; cbn; rewrite ?fold_left_app; cbn; rewrite Hrun.
  split; [|split].
  - assert (tR ∉ handle tI).
    { destruct tI as [tI|]; cbn; [|set_solver].
      intros Hin. apply elem_of_singleton in Hin. subst tI.
      exact (Hdiff tR eq_refl eq_refl). }
    set_solver.
  - intros t Ht. apply Hfresh. set_solver.
  - intros t Ht. discriminate Ht.
Qed.

Lemma accounted_clearIdListsSyncTimer this rt :
  timers_accounted this rt ->
  timers_accounted (fst (clearIdListsSyncTimer this rt))
                   (snd (clearIdListsSyncTimer this rt)).
Proof.
  unfold clearIdListsSyncTimer, timers_accounted, held_timers.
  destruct this as [? ? ? ? ? tR [tI|] ? ? ? ? ? ?]; cbn; [|auto].
  intros (Hrun & Hfresh & Hdiff).
  unfold running in *; cbn; rewrite ?fold_left_app; cbn; rewrite Hrun.
  split; [|split].
  - assert (tI ∉ handle tR).
    { destruct tR as [tR|]; cbn; [|set_solver].
      intros Hin. apply elem_of_singleton in Hin. subst tI.
      exact (Hdiff tR eq_refl eq_refl). }
    set_solver.
  - intros t Ht. apply Hfresh. set_solver.
  - intros t _ Ht. discriminate Ht.
Qed.

Lemma accounted_pollForUpdates now this rt :
  timers_accounted this rt ->
  timers_accounted (fst (pollForUpdates now this rt)) (snd (pollForUpdates now this rt)).
Proof.
  unfold pollForUpdates, timers_accounted, held_timers.
  destruct this as [? ? ? ? ? [tR|] [tI|] ? ? ? ? ? ?]; cbn; [auto| | |];
    intros (Hrun & Hfresh & Hdiff);
    unfold running in *; cbn; rewrite ?fold_left_app; cbn; rewrite ?fold_left_app; cbn;
    rewrite Hrun;
    (split; [set_solver|split]).
  - intros t Ht. apply elem_of_union in Ht as [Ht|Ht]; apply elem_of_singleton in Ht;
      subst t; [|lia].
    assert (tR < nextTimer rt)%nat by (apply Hfresh; set_solver). lia.
  - intros t Ht Ht'. injection Ht as <-. injection Ht' as Heq.
    assert (tR < nextTimer rt)%nat by (apply Hfresh; set_solver). lia.
  - intros t Ht. apply elem_of_union in Ht as [Ht|Ht]; apply elem_of_singleton in Ht;
      subst t; [lia|].
    assert (tI < nextTimer rt)%nat by (apply Hfresh; set_solver). lia.
  - intros t Ht Ht'. injection Ht as <-. injection Ht' as Heq.
    assert (tI < nextTimer rt)%nat by (apply Hfresh; set_solver). lia.
  - intros t Ht. apply elem_of_union in Ht as [Ht|Ht]; apply elem_of_singleton in Ht;
      subst t; lia.
  - intros t Ht Ht'. injection Ht as <-. injection Ht' as Heq. lia.
Qed.

Lemma accounted_clearTimers this rt :
  timers_accounted this rt ->
  timers_accounted (fst (clearTimers this rt)) (snd (clearTimers this rt)).
Proof.
  intros H. unfold clearTimers.
  pose proof (accounted_clearRulesetsSyncTimer this rt H) as H1.
  destruct (clearRulesetsSyncTimer this rt) as [this1 rt1].
  exact (accounted_clearIdListsSyncTimer this1 rt1 H1).
Qed.

Lemma accounted_resetSyncTimerIfExited now this rt :
  timers_accounted this rt ->
  timers_accounted (snd (fst (resetSyncTimerIfExited now this rt)))
                   (snd (resetSyncTimerIfExited now this rt)).
Proof.
  intros H. unfold resetSyncTimerIfExited.
  destruct (negb (rulesetsSyncTimerInactive now this)
            && negb (idListsSyncTimerInactive now this)); [exact H|].
  assert (exists this1 rt1 message,
            (if rulesetsSyncTimerInactive now this then
               let '(this', rt') := clearRulesetsSyncTimer this rt in
               (this', rt',
                ("" ++ rulesetsResetMessage (rulesetsSyncTimerLastActiveTime this') now)%string)
             else (this, rt, "")) = (this1, rt1, message)
            /\ timers_accounted this1 rt1) as (this1 & rt1 & m1 & -> & H1).
  { destruct (rulesetsSyncTimerInactive now this); [|eauto].
    pose proof (accounted_clearRulesetsSyncTimer this rt H) as H1.
    destruct (clearRulesetsSyncTimer this rt) as [this1 rt1]. eauto. }
  assert (exists this2 rt2 message,
            (if idListsSyncTimerInactive now this then
               let '(this', rt') := clearIdListsSyncTimer this1 rt1 in
               (this', rt',
                (m1 ++ idListsResetMessage (idListsSyncTimerLastActiveTime this') now)%string)
             else (this1, rt1, m1)) = (this2, rt2, message)
            /\ timers_accounted this2 rt2) as (this2 & rt2 & m2 & -> & H2).
  { destruct (idListsSyncTimerInactive now this); [|eauto].
    pose proof (accounted_clearIdListsSyncTimer this1 rt1 H1) as H2.
    destruct (clearIdListsSyncTimer this1 rt1) as [this2 rt2]. eauto. }
  pose proof (accounted_pollForUpdates now this2 rt2 H2) as H3.
  destruct (pollForUpdates now this2 rt2) as [this3 rt3]. exact H3.
Qed.

Lemma timers_outside this this' :
  outside_snapshot this' = outside_snapshot this ->
  rulesetsSyncTimer this' = rulesetsSyncTimer this
  /\ idListsSyncTimer this' = idListsSyncTimer this.
Proof.
  unfold outside_snapshot. intros H. injection H as _ _ _ -> -> _ _ _ _. auto.
Qed.

Lemma timers_syncConfigSpecs env this :
  rulesetsSyncTimer (_syncConfigSpecs env this) = rulesetsSyncTimer this
  /\ idListsSyncTimer (_syncConfigSpecs env this) = idListsSyncTimer this.
Proof.
  unfold _syncConfigSpecs.
  assert (exists r this1,
            (if shouldSyncRulesetsFromAdapter then _fetchConfigSpecsFromAdapter env this
             else _fetchConfigSpecsFromServer env this) = (r, this1)
            /\ rulesetsSyncTimer this1 = rulesetsSyncTimer this
            /\ idListsSyncTimer this1 = idListsSyncTimer this) as (r & this1 & -> & <- & <-).
  { destruct shouldSyncRulesetsFromAdapter.
    - pose proof (outside_fetchConfigSpecsFromAdapter env this) as H.
      destruct (_fetchConfigSpecsFromAdapter env this) as [r this1].
      exists r, this1. split; [reflexivity|]. apply timers_outside, H.
    - pose proof (outside_fetchConfigSpecsFromServer env this) as H.
      destruct (_fetchConfigSpecsFromServer env this) as [r this1].
      exists r, this1. split; [reflexivity|]. apply timers_outside, H. }
  destruct (synced r); [split; reflexivity|].
  destruct (error r); [|split; reflexivity].
  destruct (_ >? _); split; reflexivity.
Qed.

Lemma accounted_rulesetsSyncPromise now env this rt :
  timers_accounted this rt -> timers_accounted (rulesetsSyncPromise now env this) rt.
Proof.
  unfold rulesetsSyncPromise.
  destruct (timers_syncConfigSpecs env (set_rulesetsSyncTimerLastActiveTime now this))
    as [HR HI].
  apply accounted_same; [exact HR|exact HI].
Qed.

Lemma accounted_idListsSyncPromise now env this rt :
  timers_accounted this rt -> timers_accounted (idListsSyncPromise now env this) rt.
Proof.
  unfold idListsSyncPromise.
  destruct (syncIdLists_frame env (set_idListsSyncTimerLastActiveTime now this))
    as (lists & count & -> & _).
  apply accounted_same; reflexivity.
Qed.

Lemma accounted_initIDLists env this rt :
  timers_accounted this rt -> timers_accounted (_initIDLists env this) rt.
Proof.
  pose proof (only_idLists_initIDLists env this) as ->.
  apply accounted_same; reflexivity.
Qed.

(** No timer is lost and none is left running behind the store's back: if
    the store holds exactly the running timers (under two different
    handles), it still does after any operation. *)
Theorem timers_stay_accounted (op : Operation) (this : SpecStore) (rt : Runtime) :
  timers_accounted this rt ->
  timers_accounted (fst (run op this rt)) (snd (run op this rt)).
Proof.
  intros Ha. destruct op as [now env|now env|env|now| |now env now' ids_env];
    cbn [run fst snd].
  - apply accounted_rulesetsSyncPromise, Ha.
  - apply accounted_idListsSyncPromise, Ha.
  - apply accounted_initIDLists, Ha.
  - pose proof (accounted_resetSyncTimerIfExited now this rt Ha) as H.
    destruct (resetSyncTimerIfExited now this rt) as [[result this1] rt1]. exact H.
  - apply accounted_clearTimers, Ha.
  - unfold shutdownAsync, shutdown.
    pose proof (accounted_clearTimers this rt Ha) as H.
    destruct (clearTimers this rt) as [this1 rt1]. cbn [fst snd] in *.
    apply accounted_idListsSyncPromise, accounted_rulesetsSyncPromise, H.
Qed.

Lemma clearTimers_unset this rt :
  rulesetsSyncTimer (fst (clearTimers this rt)) = None
  /\ idListsSyncTimer (fst (clearTimers this rt)) = None.
Proof.
  unfold clearTimers, clearRulesetsSyncTimer, clearIdListsSyncTimer.
  destruct this as [? ? ? ? ? [tR|] [tI|] ? ? ? ? ? ?]; split; reflexivity.
Qed.

(** [shutdown] leaves the store without a timer, a second [shutdown]
    changes nothing and clears nothing, and when the store held exactly the
    running timers no timer is running afterwards. *)
Theorem shutdown_stops_every_timer (this : SpecStore) (rt : Runtime) :
  rulesetsSyncTimer (fst (shutdown this rt)) = None
  /\ idListsSyncTimer (fst (shutdown this rt)) = None
  /\ shutdown (fst (shutdown this rt)) (snd (shutdown this rt)) = shutdown this rt
  /\ (timers_accounted this rt -> running (snd (shutdown this rt)) = ∅).
Proof.
  unfold shutdown.
  destruct (clearTimers_unset this rt) as [HR HI].
  split; [exact HR|split; [exact HI|split]].
  - unfold clearTimers, clearRulesetsSyncTimer, clearIdListsSyncTimer.
    destruct this as [? ? ? ? ? [tR|] [tI|] ? ? ? ? ? ?]; reflexivity.
  - intros Ha. destruct (accounted_clearTimers this rt Ha) as (Hrun & _ & _).
    rewrite Hrun. unfold held_timers. rewrite HR, HI. cbn. set_solver.
Qed.

(** After [shutdown] the watchdog starts the polling again once a loop's
    timestamp is stale: [shutdown] clears the timers and leaves the
    timestamps, so [resetSyncTimerIfExited] then reports an error and sets
    two new timers, with both timestamps at now. *)
Theorem watchdog_restarts_after_shutdown (now : Z) (this : SpecStore) (rt : Runtime) :
  rulesetsSyncTimerInactive now this || idListsSyncTimerInactive now this = true ->
  exists message,
    resetSyncTimerIfExited now (fst (shutdown this rt)) (snd (shutdown this rt))
    = (Some message,
       set_idListsSyncTimerLastActiveTime now
         (set_idListsSyncTimer (Some (S (nextTimer rt)))
            (set_rulesetsSyncTimerLastActiveTime now
               (set_rulesetsSyncTimer (Some (nextTimer rt)) (fst (shutdown this rt))))),
       mkRuntime (S (S (nextTimer rt)))
         (timerLog (snd (shutdown this rt))
          ++ [Polled Rulesets (rulesetsSyncIntervalMs options) (nextTimer rt);
              Polled IdLists (idListsSyncIntervalMs options) (S (nextTimer rt))])).
Proof.
  unfold shutdown, resetSyncTimerIfExited, clearTimers, clearRulesetsSyncTimer,
    clearIdListsSyncTimer, pollForUpdates, poll, rulesetsSyncTimerInactive,
    idListsSyncTimerInactive, clearInterval.
  destruct this as [? ? ? ? ? [tR|] [tI|] aR aI ? ? ? ?]; cbn;
    destruct (aR <? _); destruct (aI <? _); cbn;
    intros H; try discriminate H; eexists; rewrite <- ?app_assoc; reflexivity.
Qed.

(** ** What [init] leaves behind *)

Lemma timers_initFromBootstrap this :
  rulesetsSyncTimer (initFromBootstrap this) = rulesetsSyncTimer this
  /\ idListsSyncTimer (initFromBootstrap this) = idListsSyncTimer this.
Proof.
  unfold initFromBootstrap.
  destruct (bootstrapValues options) as [bootstrap|]; [|split; reflexivity].
  destruct (String.eqb _ _); [|split; reflexivity].
  destruct bootstrap as [|specsJSON]; [split; reflexivity|].
  pose proof (timers_outside _ _ (outside_process specsJSON this)) as H.
  destruct (_process specsJSON this) as [[success hasUpdates|] this1]; cbn [snd] in H;
    [|exact H].
  destruct (not_zero _); exact H.
Qed.

Lemma pollForUpdates_sets now this rt :
  is_Some (rulesetsSyncTimer (fst (pollForUpdates now this rt)))
  /\ is_Some (idListsSyncTimer (fst (pollForUpdates now this rt)))
  /\ lastUpdateTime (fst (pollForUpdates now this rt)) = lastUpdateTime this
  /\ initialUpdateTime (fst (pollForUpdates now this rt)) = initialUpdateTime this.
Proof.
  unfold pollForUpdates, poll.
  destruct this as [? ? ? ? ? [tR|] [tI|] ? ? ? ? ? ?]; cbn; repeat split; eauto.
Qed.

(** When the adapter's [initialize] does not throw, [init] completes
    whatever the sources answer, and leaves the store initialized, with
    both polling timers set, and with [initialUpdateTime] equal to
    [lastUpdateTime] if the store serves checks and to -1 if not; a store
    that held exactly the running timers still does. *)
Theorem init_leaves_the_store_polling (now : Z) (env : RulesetsEnv) (ids_env : IdListsEnv)
    (this : SpecStore) (rt : Runtime) :
  exists this' rt',
    init now false env ids_env this rt = Some (this', rt')
    /\ initialized this' = true
    /\ is_Some (rulesetsSyncTimer this')
    /\ is_Some (idListsSyncTimer this')
    /\ initialUpdateTime this'
       = (if isServingChecks this' then lastUpdateTime this' else JNum (-1))
    /\ (timers_accounted this rt -> timers_accounted this' rt').
Proof.
  unfold init.
  assert (exists thisA,
            match dataAdapter options with
            | Some _ =>
                if false then None
                else Some (snd (_fetchConfigSpecsFromAdapter env this))
            | None => Some this
            end = Some thisA
            /\ rulesetsSyncTimer thisA = rulesetsSyncTimer this
            /\ idListsSyncTimer thisA = idListsSyncTimer this) as (thisA & -> & HA).
  { destruct (dataAdapter options); eexists; (split; [reflexivity|]); [|auto].
    apply timers_outside, outside_fetchConfigSpecsFromAdapter. }
  cbv zeta.
  destruct (timers_initFromBootstrap thisA) as [HB1 HB2].
  set (thisB := initFromBootstrap thisA) in *.
  assert (HC : rulesetsSyncTimer
                 (if String.eqb (initReason thisB) "Uninitialized"
                  then snd (_fetchConfigSpecsFromServer env thisB) else thisB)
               = rulesetsSyncTimer thisB
               /\ idListsSyncTimer
                    (if String.eqb (initReason thisB) "Uninitialized"
                     then snd (_fetchConfigSpecsFromServer env thisB) else thisB)
                  = idListsSyncTimer thisB).
  { destruct (String.eqb _ _); [|auto].
    apply timers_outside, outside_fetchConfigSpecsFromServer. }
  set (thisC := if String.eqb (initReason thisB) "Uninitialized"
                then snd (_fetchConfigSpecsFromServer env thisB) else thisB) in *.
  assert (HD : initialUpdateTime (setInitialUpdateTime thisC)
               = (if not_zero (lastUpdateTime (setInitialUpdateTime thisC))
                  then lastUpdateTime (setInitialUpdateTime thisC) else JNum (-1))
               /\ rulesetsSyncTimer (setInitialUpdateTime thisC) = rulesetsSyncTimer thisC
               /\ idListsSyncTimer (setInitialUpdateTime thisC) = idListsSyncTimer thisC).
  { repeat split. }
  set (thisD := setInitialUpdateTime thisC) in *.
  assert (HE : exists thisE,
            match initStrategyForIDLists options with
            | StrategyAwait => _initIDLists ids_env thisD
            | _ => thisD
            end = thisE
            /\ lastUpdateTime thisE = lastUpdateTime thisD
            /\ initialUpdateTime thisE = initialUpdateTime thisD
            /\ rulesetsSyncTimer thisE = rulesetsSyncTimer thisD
            /\ idListsSyncTimer thisE = idListsSyncTimer thisD).
  { destruct (initStrategyForIDLists options); eexists; (split; [reflexivity|]); auto.
    pose proof (only_idLists_initIDLists ids_env thisD) as ->. repeat split. }
  destruct HE as (thisE & HEeq & HE1 & HE2 & HE3 & HE4).
  replace (match initStrategyForIDLists options with
           | StrategyAwait => _initIDLists ids_env thisD
           | _ => thisD
           end) with thisE
    by (rewrite <- HEeq; destruct (initStrategyForIDLists options); reflexivity).
  destruct (pollForUpdates_sets now thisE rt) as (HP1 & HP2 & HP3 & HP4).
  pose proof (accounted_pollForUpdates now thisE rt) as HP5.
  destruct (pollForUpdates now thisE rt) as [thisF rtF]. cbn [fst snd] in *.
  exists (set_initialized true thisF), rtF.
  split; [reflexivity|]. split; [reflexivity|].
  split; [exact HP1|]. split; [exact HP2|]. split.
  - unfold isServingChecks. cbn. rewrite HP4, HP3, HE2, HE1. apply HD.
  - intros Ha. apply (accounted_same thisF); [reflexivity|reflexivity|].
    apply HP5. apply (accounted_same this); [|  |exact Ha].
    + rewrite HE3. destruct HD as (_ & -> & _). destruct HC as [-> _].
      rewrite HB1. apply HA.
    + rewrite HE4. destruct HD as (_ & _ & ->). destruct HC as [_ ->].
      rewrite HB2. apply HA.
Qed.

(** ** The snapshot a successful [_process] installs *)

(** The spec of the last element of the array whose spec has the name. *)
Fixpoint lastNamed (name : string) (arr : list JSON) : option ConfigSpec :=
  match arr with
  | [] => None
  | json :: rest =>
      match lastNamed name rest with
      | Some spec => Some spec
      | None =>
          match newConfigSpec json with
          | Some spec => if String.eqb (spec_name spec) name then Some spec else None
          | None => None
          end
      end
  end.

Lemma buildSpecs_lookup arr : forall updated m name,
  buildSpecs arr updated = Some m ->
  m !! name = match lastNamed name arr with
              | Some spec => Some spec
              | None => updated !! name
              end.
Proof.
  induction arr as [|json rest IH]; intros updated m name H; cbn in *.
  - injection H as <-. reflexivity.
  - destruct (newConfigSpec json) as [spec|]; [|discriminate H].
    rewrite (IH _ _ name H). destruct (lastNamed name rest); [reflexivity|].
    destruct (String.eqb_spec (spec_name spec) name) as [Heq|Hne].
    + subst name. apply lookup_insert_eq.
    + apply lookup_insert_ne. exact Hne.
Qed.

(** The entries [_reverseLayerExperimentMapping] loops over. *)
Definition layer_entries (layersMapping : option JSON) : list (string * JSON) :=
  match layersMapping with
  | Some (JObj _ as v) | Some (JArr _ as v) => entries v
  | _ => []
  end.

(** The layer has an entry whose experiments, iterated, yield a value that
    makes the property key [experimentName], and that key is not
    [__proto__]. *)
Definition lists_experiment (es : list (string * JSON)) (layerName experimentName : string)
  : Prop :=
  exists experiments xs x,
    (layerName, experiments) ∈ es /\ iterate experiments = Some xs
    /\ x ∈ xs /\ toPropertyKey x = Some experimentName
    /\ experimentName <> "__proto__".

(** Some layer has experiments that cannot be iterated, or an experiment
    that cannot be made a property key. *)
Definition throwing_layer (es : list (string * JSON)) : Prop :=
  exists layerName experiments,
    (layerName, experiments) ∈ es
    /\ (iterate experiments = None
        \/ exists xs x,
             iterate experiments = Some xs /\ x ∈ xs /\ toPropertyKey x = None).

Ltac none_in_nil :=
  intros;
  first [ apply not_elem_of_nil
        | match goal with
          | H : _ |- _ => solve [apply elem_of_nil in H; destruct H]
          end ].

Lemma assign_layer_lookup key layerName m e :
  assign_layer key layerName m !! e
  = if bool_decide (key = e /\ e <> "__proto__") then Some layerName else m !! e.
Proof.
  unfold assign_layer. destruct (String.eqb_spec key "__proto__") as [->|Hkey].
  - rewrite bool_decide_eq_false_2; [reflexivity|]. intros [<- H]. apply H. reflexivity.
  - destruct (decide (key = e)) as [<-|Hne].
    + rewrite bool_decide_eq_true_2 by auto. apply lookup_insert_eq.
    + rewrite bool_decide_eq_false_2 by (intros [H _]; contradiction).
      apply lookup_insert_ne. exact Hne.
Qed.

Lemma reverseLayer_lookup layerName xs : forall m,
  match reverseLayer layerName xs m with
  | None => exists x, x ∈ xs /\ toPropertyKey x = None
  | Some m' =>
      (forall x, x ∈ xs -> is_Some (toPropertyKey x))
      /\ forall e,
           m' !! e
           = if bool_decide (e <> "__proto__" /\ Some e ∈ toPropertyKey <$> xs)
             then Some layerName else m !! e
  end.
Proof.
  induction xs as [|x xs IH]; intros m; cbn [reverseLayer].
  - split; [none_in_nil|]. intros e.
    rewrite bool_decide_eq_false_2; [reflexivity|].
    intros (_ & Hx). apply elem_of_nil in Hx. destruct Hx.
  - destruct (toPropertyKey x) as [key|] eqn:Hkey.
    2:{ exists x. split; [apply list_elem_of_here|exact Hkey]. }
    specialize (IH (assign_layer key layerName m)).
    destruct (reverseLayer layerName xs (assign_layer key layerName m)) as [m'|].
    2:{ destruct IH as (y & Hy & Hnone). exists y.
        split; [apply list_elem_of_further, Hy|exact Hnone]. }
    destruct IH as [Hall Hlook]. split.
    + intros y Hy. apply elem_of_cons in Hy as [->|Hy]; [rewrite Hkey; eauto|auto].
    + intros e. rewrite Hlook, assign_layer_lookup, fmap_cons, Hkey.
      destruct (decide (e <> "__proto__" /\ Some e ∈ toPropertyKey <$> xs)) as [Hin|Hout].
      * rewrite bool_decide_eq_true_2 by exact Hin.
        rewrite bool_decide_eq_true_2; [reflexivity|].
        destruct Hin as (He & Hy). split; [exact He|apply list_elem_of_further, Hy].
      * rewrite (bool_decide_eq_false_2 _ Hout).
        destruct (decide (key = e /\ e <> "__proto__")) as [[<- He]|Hk].
        { rewrite bool_decide_eq_true_2 by auto.
          rewrite bool_decide_eq_true_2; [reflexivity|].
          split; [exact He|apply list_elem_of_here]. }
        { rewrite (bool_decide_eq_false_2 _ Hk).
          rewrite bool_decide_eq_false_2; [reflexivity|].
          intros (He & Hy). apply elem_of_cons in Hy as [Hy|Hy].
          - apply Hk. split; [congruence|exact He].
          - apply Hout. auto. }
Qed.

Lemma reverseEntries_spec es : forall m0,
  match reverseEntries es m0 with
  | None => throwing_layer es
  | Some m =>
      ~ throwing_layer es
      /\ forall experimentName,
           match m !! experimentName with
           | Some layerName =>
               lists_experiment es layerName experimentName
               \/ m0 !! experimentName = Some layerName
           | None =>
               m0 !! experimentName = None
               /\ forall layerName, ~ lists_experiment es layerName experimentName
           end
  end.
Proof.
  induction es as [|[layer exps] rest IH]; intros m0; cbn.
  - split.
    + intros (l & e & H & _). apply elem_of_nil in H. destruct H.
    + intros e. destruct (m0 !! e) eqn:Hm; [auto|]. split; [reflexivity|].
      intros l (? & ? & ? & H & _). apply elem_of_nil in H. destruct H.
  - destruct (iterate exps) as [xs|] eqn:Hit.
    2:{ exists layer, exps. split; [apply list_elem_of_here|left; exact Hit]. }
    pose proof (reverseLayer_lookup layer xs m0) as Hlayer.
    destruct (reverseLayer layer xs m0) as [m1|].
    2:{ destruct Hlayer as (x & Hx & Hnone). exists layer, exps.
        split; [apply list_elem_of_here|]. right. exists xs, x. auto. }
    destruct Hlayer as [Hkeys Hm1].
    specialize (IH m1).
    destruct (reverseEntries rest m1) as [m|].
    2:{ destruct IH as (l & e & Hin & Hthrow). exists l, e.
        split; [apply list_elem_of_further, Hin|exact Hthrow]. }
    destruct IH as [Hnone Hlook]. split.
    + intros (l & e & Hin & Hthrow). apply elem_of_cons in Hin as [Heq|Hin].
      * injection Heq as -> ->.
        destruct Hthrow as [Hthrow|(xs' & x & Hit' & Hx & Hk)]; [congruence|].
        rewrite Hit in Hit'. injection Hit' as <-.
        destruct (Hkeys x Hx) as [k Hk']. congruence.
      * apply Hnone. exists l, e. auto.
    + intros e. specialize (Hlook e). rewrite Hm1 in Hlook.
      destruct (m !! e) as [l|].
      * destruct Hlook as [(exps' & xs' & x & Hin & Hit' & Hx & Hkey)|Hlook].
        { left. exists exps', xs', x. split; [apply list_elem_of_further, Hin|auto]. }
        case_bool_decide as Hmem; [|right; exact Hlook].
        injection Hlook as <-. left.
        destruct Hmem as (He & Hmem).
        apply list_elem_of_fmap in Hmem as (x & Hkey & Hx).
        exists exps, xs, x. split; [apply list_elem_of_here|auto].
      * destruct Hlook as [Hlook Hnot].
        case_bool_decide as Hmem; [discriminate Hlook|]. split; [exact Hlook|].
        intros l (exps' & xs' & x & Hin & Hit' & Hx & Hkey & He).
        apply elem_of_cons in Hin as [Heq|Hin].
        { injection Heq as -> ->. rewrite Hit in Hit'. injection Hit' as <-.
          apply Hmem. split; [exact He|]. apply list_elem_of_fmap. exists x. auto. }
        { apply (Hnot l). exists exps', xs', x. auto. }
Qed.

Lemma reverseMapping_entries layersMapping :
  _reverseLayerExperimentMapping layersMapping
  = reverseEntries (layer_entries layersMapping) ∅.
Proof. destruct layersMapping as [[| | | | |]|]; reflexivity. Qed.

(** The reverse mapping has, as properties of its own, exactly the
    experiments that some layer lists (by the property key each makes),
    but for [__proto__], each mapped to a layer that lists it. It is built
    if every layer's experiments can be iterated and made property keys;
    the call throws if not. A [layers] that is absent, null or not an
    object gives the empty mapping. *)
Theorem reverse_mapping_maps_listed_experiments (layersMapping : option JSON) :
  match _reverseLayerExperimentMapping layersMapping with
  | None => throwing_layer (layer_entries layersMapping)
  | Some reverseMapping =>
      ~ throwing_layer (layer_entries layersMapping)
      /\ forall experimentName,
           match reverseMapping !! experimentName with
           | Some layerName =>
               lists_experiment (layer_entries layersMapping) layerName experimentName
           | None =>
               forall layerName,
                 ~ lists_experiment (layer_entries layersMapping) layerName experimentName
           end
  end.
Proof.
  rewrite reverseMapping_entries.
  pose proof (reverseEntries_spec (layer_entries layersMapping) ∅) as H.
  destruct (reverseEntries (layer_entries layersMapping) ∅) as [m|]; [|exact H].
  destruct H as [Hall Hlook]. split; [exact Hall|].
  intros e. specialize (Hlook e). destruct (m !! e) as [l|].
  - destruct Hlook as [H|H]; [exact H|]. rewrite lookup_empty in H. discriminate H.
  - apply Hlook.
Qed.

(** [_process] throws exactly on a payload with updates whose three arrays
    are arrays of specs that construct and whose [layers] gives some layer
    experiments that cannot be iterated, or an experiment that cannot be
    made a property key; the store is then as it was, but for the sampling
    rates. *)
Theorem process_throws_exactly_on_a_throwing_layer (specsJSON : JSON) (this : SpecStore) :
  (fst (_process specsJSON this) = Threw <->
   truthy (get "has_updates" specsJSON) = true
   /\ well_formed specsJSON = true
   /\ throwing_layer (layer_entries (get "layers" specsJSON)))
  /\ (fst (_process specsJSON this) = Threw ->
      snd (_process specsJSON this)
      = updateSamplingRates (get "diagnostics" specsJSON) this).
Proof.
  pose proof (reverseEntries_spec (layer_entries (get "layers" specsJSON)) ∅) as Hrev.
  rewrite <- reverseMapping_entries in Hrev.
  destruct (truthy (get "has_updates" specsJSON)) eqn:Hup.
  2:{ rewrite (process_no_updates _ _ Hup). cbn.
      split; [split|]; [discriminate|intros (H & _); discriminate H|discriminate]. }
  split.
  - destruct (well_formed specsJSON) eqn:Hwf.
    + rewrite (process_well_formed _ this Hup Hwf).
      destruct (_reverseLayerExperimentMapping (get "layers" specsJSON)) as [m|].
      * split; [discriminate|]. intros (_ & _ & Hthrow).
        destruct Hrev as [Hnone _]. contradiction.
      * split; auto.
    + assert (Hmal : malformed specsJSON = true) by (unfold malformed; rewrite Hwf; reflexivity).
      rewrite (process_malformed _ this Hup Hmal). cbn.
      split; [discriminate|intros (_ & H & _); discriminate H].
  - destruct (process_outcomes specsJSON this Hup)
      as [H|[H|(g & c & l & e & _ & H)]]; rewrite H; cbn; try discriminate; reflexivity.
Qed.

(** What the getter of a spec answers for a name, by the array the specs
    were constructed from: the spec of the last element with that name;
    with no such element, what the last element named [__proto__] inherits
    to the object if there is one, and what [Object.prototype] does if not. *)
Definition named (name : string) (arr : list JSON) : Read ConfigSpec :=
  match lastNamed name arr with
  | Some spec => Found spec
  | None =>
      match lastNamed "__proto__" arr with
      | Some proto => Through proto name
      | None => if bool_decide (name ∈ Object_prototype) then Inherited name else Null
      end
  end.

Lemma read_buildSpecs arr m name :
  buildSpecs arr ∅ = Some m -> read m name = named name arr.
Proof.
  intros Hb. unfold read, named.
  rewrite (buildSpecs_lookup arr ∅ m name Hb), (buildSpecs_lookup arr ∅ m "__proto__" Hb).
  rewrite !lookup_empty.
  destruct (lastNamed name arr); [reflexivity|].
  destruct (lastNamed "__proto__" arr); reflexivity.
Qed.

(** After a successful [_process] with updates, [getGate], [getConfig]
    and [getLayer] answer, for every name, with the spec constructed from
    the last element of the payload's array that has that name; for a name
    no element has they answer [null], unless the name is a member of
    [Object.prototype] (then that member), or an element is named
    [__proto__] (then what that spec has under the name).
    [experimentToLayer] is the reverse mapping of the payload's [layers],
    which [getExperimentLayer] reads in the same way, and the ID lists are
    as they were. *)
Theorem process_installs_last_named (specsJSON : JSON) (this this' : SpecStore) :
  _process specsJSON this = (Returned true true, this') ->
  exists gateArray configArray layersArray reverseMapping,
    get "feature_gates" specsJSON = Some (JArr gateArray)
    /\ get "dynamic_configs" specsJSON = Some (JArr configArray)
    /\ get "layer_configs" specsJSON = Some (JArr layersArray)
    /\ _reverseLayerExperimentMapping (get "layers" specsJSON) = Some reverseMapping
    /\ (forall name, getGate name this' = named name gateArray)
    /\ (forall name, getConfig name this' = named name configArray)
    /\ (forall name, getLayer name this' = named name layersArray)
    /\ (forall name,
          getExperimentLayer name this'
          = match reverseMapping !! name with
            | Some layerName => Found layerName
            | None => if bool_decide (name ∈ Object_prototype) then Inherited name else Null
            end)
    /\ idLists (store this') = idLists (store this).
Proof.
  unfold _process.
  destruct (truthy (get "has_updates" specsJSON)); cbn [negb]; [|discriminate].
  destruct (get "feature_gates" specsJSON) as [[| | | |gateArray|]|]; try discriminate.
  destruct (get "dynamic_configs" specsJSON) as [[| | | |configArray|]|]; try discriminate.
  destruct (get "layer_configs" specsJSON) as [[| | | |layersArray|]|]; try discriminate.
  destruct (buildSpecs gateArray ∅) as [g|] eqn:Hg; [|discriminate].
  destruct (buildSpecs configArray ∅) as [c|] eqn:Hc; [|discriminate].
  destruct (buildSpecs layersArray ∅) as [l|] eqn:Hl; [|discriminate].
  pose proof (reverseEntries_spec (layer_entries (get "layers" specsJSON)) ∅) as Hrev.
  rewrite <- reverseMapping_entries in Hrev.
  destruct (_reverseLayerExperimentMapping (get "layers" specsJSON)) as [e|];
    [|discriminate].
  intros H. injection H as <-. exists gateArray, configArray, layersArray, e.
  repeat (split; [reflexivity|]).
  split; [intros name; apply read_buildSpecs, Hg|].
  split; [intros name; apply read_buildSpecs, Hc|].
  split; [intros name; apply read_buildSpecs, Hl|].
  split.
  - intros name. unfold getExperimentLayer, read. cbn.
    destruct (e !! name) as [layerName|]; [reflexivity|].
    destruct Hrev as [_ Hlook]. specialize (Hlook "__proto__").
    destruct (e !! "__proto__") as [layerName|]; [|reflexivity].
    destruct Hlook as [(? & ? & ? & _ & _ & _ & _ & Hne)|Hempty].
    + destruct Hne. reflexivity.
    + rewrite lookup_empty in Hempty. discriminate Hempty.
  - cbn. unfold updateSamplingRates.
    destruct (negb (truthy (get "diagnostics" specsJSON))
              || negb (typeof_object (get "diagnostics" specsJSON))); reflexivity.
Qed.

(** ** The lookup loop of [syncIdListsFromNetwork] *)









(** ** What a ruleset sync that fails leaves behind *)

Lemma process_failed specsJSON this :
  (forall hasUpdates, fst (_process specsJSON this) <> Returned true hasUpdates) ->
  snd (_process specsJSON this)
  = set_samplingRates (samplingRates (snd (_process specsJSON this))) this.
Proof.
  intros Hfail. destruct (truthy (get "has_updates" specsJSON)) eqn:Hup.
  - destruct (process_outcomes specsJSON this Hup)
      as [H|[H|(g & c & l & e & _ & H)]]; rewrite H in *; cbn [fst snd] in *.
    + rewrite updateSamplingRates_frame. reflexivity.
    + rewrite updateSamplingRates_frame. reflexivity.
    + destruct (Hfail true). reflexivity.
  - rewrite (process_no_updates specsJSON this Hup) in Hfail.
    destruct (Hfail false). reflexivity.
Qed.

(** A ruleset sync that reports [synced: false] has changed nothing in the
    store but the sampling rates, from the adapter always and from the
    network unless it is the rulesUpdatedCallback that threw (the payload
    is then installed and [initReason] set, and still an error reported);
    one that reports [synced: true] reports no error and has set
    [initReason] to its source. *)
Theorem failed_ruleset_sync_keeps_the_rules (env : RulesetsEnv) (this : SpecStore) :
  (synced (fst (_fetchConfigSpecsFromServer env this)) = false ->
   rulesUpdatedCallbackThrows env = false ->
   snd (_fetchConfigSpecsFromServer env this)
   = set_samplingRates (samplingRates (snd (_fetchConfigSpecsFromServer env this))) this)
  /\ (synced (fst (_fetchConfigSpecsFromAdapter env this)) = false ->
      snd (_fetchConfigSpecsFromAdapter env this)
      = set_samplingRates (samplingRates (snd (_fetchConfigSpecsFromAdapter env this))) this)
  /\ (synced (fst (_fetchConfigSpecsFromServer env this)) = true ->
      error (fst (_fetchConfigSpecsFromServer env this)) = false
      /\ initReason (snd (_fetchConfigSpecsFromServer env this)) = "Network")
  /\ (synced (fst (_fetchConfigSpecsFromAdapter env this)) = true ->
      error (fst (_fetchConfigSpecsFromAdapter env this)) = false
      /\ initReason (snd (_fetchConfigSpecsFromAdapter env this)) = "DataAdapter").
Proof.
  assert (Hsame : this = set_samplingRates (samplingRates this) this)
    by (destruct this; reflexivity).
  unfold _fetchConfigSpecsFromServer, _fetchConfigSpecsFromAdapter.
  split; [|split; [|split]].
  - destruct (downloadConfigSpecs env) as [?|[|specsJSON]]; cbn; auto.
    pose proof (process_failed specsJSON this) as Hfail.
    destruct (_process specsJSON this) as [[[|] hasUpdates|] this1]; cbn [fst snd] in *.
    + intros Hs Hcb. rewrite Hcb in Hs. discriminate Hs.
    + intros _ _. apply Hfail. discriminate.
    + intros _ _. apply Hfail. discriminate.
  - destruct (dataAdapter options); cbn; auto.
    destruct (adapterRulesets env) as [|[[|configSpecs]|] [|]]; cbn; auto.
    pose proof (process_failed configSpecs this) as Hfail.
    destruct (_process configSpecs this) as [[[|] hasUpdates|] this1]; cbn [fst snd] in *.
    + discriminate.
    + intros _. apply Hfail. discriminate.
    + intros _. apply Hfail. discriminate.
  - destruct (downloadConfigSpecs env) as [?|[|specsJSON]]; cbn; try discriminate.
    destruct (_process specsJSON this) as [[[|] hasUpdates|] this1]; cbn;
      try discriminate.
    destruct (rulesUpdatedCallbackThrows env); cbn; [discriminate|auto].
  - destruct (dataAdapter options); cbn; try discriminate.
    destruct (adapterRulesets env) as [|[[|configSpecs]|] [|]]; cbn; try discriminate.
    destruct (_process configSpecs this) as [[[|] hasUpdates|] this1]; cbn;
      try discriminate. auto.
Qed.

(** ** The sampling rates stay in range *)

Definition rates_in_range (this : SpecStore) : Prop :=
  forall key, 0 <= rate key (samplingRates this) <= MAX_SAMPLING_RATE.

Lemma rates_same this this' :
  samplingRates this' = samplingRates this -> rates_in_range this -> rates_in_range this'.
Proof. unfold rates_in_range. intros ->. auto. Qed.

Lemma rates_updateSamplingRates obj this :
  0 <= MAX_SAMPLING_RATE -> rates_in_range this ->
  rates_in_range (updateSamplingRates obj this).
Proof.
  intros Hmax Hin key. rewrite updateSamplingRates_rate.
  destruct (get_opt (key_name key) obj) as [[| |v| | |]|]; try apply Hin.
  destruct (Z.ltb_spec v 0); [lia|].
  destruct (v >? MAX_SAMPLING_RATE) eqn:Hgt; [lia|].
  rewrite Z.gtb_ltb in Hgt. apply Z.ltb_ge in Hgt. lia.
Qed.

Lemma rates_process specsJSON this :
  0 <= MAX_SAMPLING_RATE -> rates_in_range this ->
  rates_in_range (snd (_process specsJSON this)).
Proof.
  intros Hmax Hin. destruct (truthy (get "has_updates" specsJSON)) eqn:Hup.
  - apply (rates_same (updateSamplingRates (get "diagnostics" specsJSON) this)).
    + apply process_samplingRates, Hup.
    + apply rates_updateSamplingRates; assumption.
  - rewrite (process_no_updates specsJSON this Hup). exact Hin.
Qed.

Lemma rates_fetchConfigSpecsFromServer env this :
  0 <= MAX_SAMPLING_RATE -> rates_in_range this ->
  rates_in_range (snd (_fetchConfigSpecsFromServer env this)).
Proof.
  intros Hmax Hin. unfold _fetchConfigSpecsFromServer.
  destruct (downloadConfigSpecs env) as [?|[|specsJSON]]; try exact Hin.
  pose proof (rates_process specsJSON this Hmax Hin) as H.
  destruct (_process specsJSON this) as [[[|] hasUpdates|] this1]; cbn [snd] in *;
    try exact H.
  destruct (rulesUpdatedCallbackThrows env); exact H.
Qed.

Lemma rates_fetchConfigSpecsFromAdapter env this :
  0 <= MAX_SAMPLING_RATE -> rates_in_range this ->
  rates_in_range (snd (_fetchConfigSpecsFromAdapter env this)).
Proof.
  intros Hmax Hin. unfold _fetchConfigSpecsFromAdapter.
  destruct (dataAdapter options); [|exact Hin].
  destruct (adapterRulesets env) as [|[[|configSpecs]|] [|]]; try exact Hin.
  pose proof (rates_process configSpecs this Hmax Hin) as H.
  destruct (_process configSpecs this) as [[[|] hasUpdates|] this1]; exact H.
Qed.

Lemma rates_rulesetsSyncPromise now env this :
  0 <= MAX_SAMPLING_RATE -> rates_in_range this ->
  rates_in_range (rulesetsSyncPromise now env this).
Proof.
  intros Hmax Hin. unfold rulesetsSyncPromise, _syncConfigSpecs.
  assert (Hin' : rates_in_range (set_rulesetsSyncTimerLastActiveTime now this)) by exact Hin.
  pose proof (rates_fetchConfigSpecsFromAdapter env _ Hmax Hin') as HA.
  pose proof (rates_fetchConfigSpecsFromServer env _ Hmax Hin') as HS.
  destruct shouldSyncRulesetsFromAdapter;
    [destruct (_fetchConfigSpecsFromAdapter env _) as [r this1]
    |destruct (_fetchConfigSpecsFromServer env _) as [r this1]];
    cbn [snd] in *; split_ifs; assumption.
Qed.

Lemma rates_idListsSyncPromise now env this :
  rates_in_range this -> rates_in_range (idListsSyncPromise now env this).
Proof.
  unfold idListsSyncPromise.
  destruct (syncIdLists_frame env (set_idListsSyncTimerLastActiveTime now this))
    as (lists & count & -> & _).
  apply rates_same. reflexivity.
Qed.

Lemma rates_initIDLists env this :
  rates_in_range this -> rates_in_range (_initIDLists env this).
Proof.
  pose proof (only_idLists_initIDLists env this) as ->. apply rates_same. reflexivity.
Qed.

Lemma rates_pollForUpdates now this rt :
  samplingRates (fst (pollForUpdates now this rt)) = samplingRates this.
Proof.
  unfold pollForUpdates, poll.
  destruct this as [? ? ? ? ? [tR|] [tI|] ? ? ? ? ? ?]; reflexivity.
Qed.

Lemma rates_clearTimers this rt :
  samplingRates (fst (clearTimers this rt)) = samplingRates this.
Proof.
  unfold clearTimers, clearRulesetsSyncTimer, clearIdListsSyncTimer.
  destruct this as [? ? ? ? ? [tR|] [tI|] ? ? ? ? ? ?]; reflexivity.
Qed.

Lemma rates_resetSyncTimerIfExited now this rt :
  samplingRates (snd (fst (resetSyncTimerIfExited now this rt))) = samplingRates this.
Proof.
  unfold resetSyncTimerIfExited, clearRulesetsSyncTimer, clearIdListsSyncTimer,
    pollForUpdates, poll.
  destruct (rulesetsSyncTimerInactive now this), (idListsSyncTimerInactive now this);
    destruct this as [? ? ? ? ? [tR|] [tI|] ? ? ? ? ? ?]; reflexivity.
Qed.

Lemma rates_initFromBootstrap this :
  0 <= MAX_SAMPLING_RATE -> rates_in_range this -> rates_in_range (initFromBootstrap this).
Proof.
  intros Hmax Hin. unfold initFromBootstrap.
  destruct (bootstrapValues options) as [bootstrap|]; [|exact Hin].
  destruct (String.eqb _ _); [|exact Hin].
  destruct bootstrap as [|specsJSON]; [exact Hin|].
  pose proof (rates_process specsJSON this Hmax Hin) as H.
  destruct (_process specsJSON this) as [[success hasUpdates|] this1]; cbn [snd] in H;
    [|exact H].
  destruct (not_zero _); exact H.
Qed.

(** With [MAX_SAMPLING_RATE] not negative, the four sampling rates are
    within [0, MAX_SAMPLING_RATE] in a new store, and stay so through
    [init] and through every operation, whatever the payloads carry in
    [diagnostics]. *)
Theorem sampling_rates_stay_in_range (now : Z) (this : SpecStore) (rt : Runtime) :
  0 <= MAX_SAMPLING_RATE ->
  rates_in_range (new_SpecStore now)
  /\ (rates_in_range this ->
      (forall op, rates_in_range (fst (run op this rt)))
      /\ forall adapterInitializeThrows env ids_env this' rt',
           init now adapterInitializeThrows env ids_env this rt = Some (this', rt') ->
           rates_in_range this').
Proof.
  intros Hmax. split; [intros [| | |]; cbn; lia|]. intros Hin. split.
  - intros [now1 env|now1 env|env|now1| |now1 env now' ids_env]; cbn [run fst].
    + apply rates_rulesetsSyncPromise; assumption.
    + apply rates_idListsSyncPromise, Hin.
    + apply rates_initIDLists, Hin.
    + pose proof (rates_resetSyncTimerIfExited now1 this rt) as H.
      destruct (resetSyncTimerIfExited now1 this rt) as [[result this1] rt1].
      exact (rates_same _ _ H Hin).
    + exact (rates_same _ _ (rates_clearTimers this rt) Hin).
    + unfold shutdownAsync, shutdown.
      pose proof (rates_clearTimers this rt) as H.
      destruct (clearTimers this rt) as [this1 rt1]. cbn [fst] in *.
      apply rates_idListsSyncPromise, rates_rulesetsSyncPromise; [exact Hmax|].
      exact (rates_same _ _ H Hin).
  - intros b env ids_env this' rt'. unfold init.
    assert (HA : forall thisA,
              match dataAdapter options with
              | Some _ =>
                  if b then None else Some (snd (_fetchConfigSpecsFromAdapter env this))
              | None => Some this
              end = Some thisA -> rates_in_range thisA).
    { intros thisA. destruct (dataAdapter options); [destruct b|];
        intros H; try discriminate H; injection H as <-; [|exact Hin].
      apply rates_fetchConfigSpecsFromAdapter; assumption. }
    destruct (match dataAdapter options with
              | Some _ =>
                  if b then None else Some (snd (_fetchConfigSpecsFromAdapter env this))
              | None => Some this
              end) as [thisA|]; [|discriminate].
    specialize (HA thisA eq_refl). cbv zeta.
    pose proof (rates_initFromBootstrap thisA Hmax HA) as HB.
    set (thisB := initFromBootstrap thisA) in *.
    assert (HC : rates_in_range
                   (if String.eqb (initReason thisB) "Uninitialized"
                    then snd (_fetchConfigSpecsFromServer env thisB) else thisB)).
    { destruct (String.eqb _ _); [|exact HB].
      apply rates_fetchConfigSpecsFromServer; assumption. }
    set (thisC := if String.eqb (initReason thisB) "Uninitialized"
                  then snd (_fetchConfigSpecsFromServer env thisB) else thisB) in *.
    assert (HD : rates_in_range (setInitialUpdateTime thisC)) by exact HC.
    set (thisD := setInitialUpdateTime thisC) in *.
    assert (HE : rates_in_range
                   match initStrategyForIDLists options with
                   | StrategyAwait => _initIDLists ids_env thisD
                   | _ => thisD
                   end).
    { destruct (initStrategyForIDLists options); try exact HD.
      apply rates_initIDLists, HD. }
    set (thisE := match initStrategyForIDLists options with
                  | StrategyAwait => _initIDLists ids_env thisD
                  | _ => thisD
                  end) in *.
    replace (match initStrategyForIDLists options with
             | StrategyLazy | StrategyNone => thisD
             | StrategyAwait => _initIDLists ids_env thisD
             end) with thisE
      by (unfold thisE; destruct (initStrategyForIDLists options); reflexivity).
    pose proof (rates_pollForUpdates now thisE rt) as HP.
    destruct (pollForUpdates now thisE rt) as [thisF rtF]. cbn [fst] in HP.
    intros H. injection H as <- _.
    apply (rates_same thisE); [exact HP|exact HE].
Qed.

End Store.

(** ** Concrete runs *)

(** The store of the runs below holds the [ConfigSpec] of [Evaluator];
    [MAX_SAMPLING_RATE] is taken to be 10000. *)
Definition Spec : Type := Evaluator.ConfigSpec.

Definition MAX_RATE : Z := 10000.

Definition store0 : SpecStore Spec := new_SpecStore Spec MAX_RATE 0.

Definition process (specsJSON : JSON) (this : SpecStore Spec)
  : ProcessResult * SpecStore Spec :=
  _process Spec Evaluator.newConfigSpec Evaluator.name MAX_RATE specsJSON this.

(** A well-formed payload with one gate, stamped [time]. *)
Definition payload (time : Z) : JSON :=
  JObj [("has_updates", JBool true);
        ("time", JNum time);
        ("feature_gates", JArr [Evaluator.gate_json true "rule_id_gate"]);
        ("dynamic_configs", JArr []);
        ("layer_configs", JArr []);
        ("layers", JObj [("layer_1", JArr [JStr "experiment_1"])]);
        ("diagnostics", JObj [("dcs", JNum 5)])].

(** A payload with no [feature_gates]: [_process] rejects it. *)
Definition rejected_payload : JSON :=
  JObj [("has_updates", JBool true);
        ("time", JNum 20);
        ("dynamic_configs", JArr []);
        ("layer_configs", JArr []);
        ("diagnostics", JObj [("dcs", JNum 5); ("log", JNum 20000);
                              ("idlist", JNum (-3)); ("initialize", JStr "all")])].

Definition no_updates : JSON := JObj [("has_updates", JBool false)].

(** C1, as stated, fails: the payload with no [feature_gates] is rejected,
    and the sampling rates are not what they were. *)
Lemma process_rejected_changes_sampling_rates :
  truthy (get "has_updates" rejected_payload) = true
  /\ malformed Spec Evaluator.newConfigSpec rejected_payload = true
  /\ fst (process rejected_payload store0) = Returned false true
  /\ samplingRates Spec store0 = mkRates 0 0 0 10000
  /\ samplingRates Spec (snd (process rejected_payload store0)) = mkRates 5 10000 0 10000
  /\ samplingRates Spec (snd (process rejected_payload store0)) <> samplingRates Spec store0.
Proof.
  repeat split; try reflexivity. vm_compute. discriminate.
Qed.

Lemma process_malformed_keeps_snapshot_witness :
  fst (process rejected_payload store0) = Returned false true
  /\ store Spec (snd (process rejected_payload store0)) = store Spec store0
  /\ lastUpdateTime Spec (snd (process rejected_payload store0)) = lastUpdateTime Spec store0
  /\ clientSDKKeyToAppMap Spec (snd (process rejected_payload store0))
     = clientSDKKeyToAppMap Spec store0
  /\ snd (process rejected_payload store0)
     = set_samplingRates Spec
         (samplingRates Spec
            (updateSamplingRates Spec MAX_RATE (get "diagnostics" rejected_payload) store0))
         store0.
Proof.
  apply (process_malformed_keeps_snapshot Spec Evaluator.newConfigSpec Evaluator.name
           MAX_RATE rejected_payload store0); reflexivity.
Defined.

Lemma process_sets_lastUpdateTime_witness :
  (well_formed Spec Evaluator.newConfigSpec (payload 1234) = true
   /\ lastUpdateTime Spec (snd (process (payload 1234) store0)) = JNum 1234)
  /\ process no_updates store0 = (Returned true false, store0).
Proof.
  split.
  - apply (proj1 (process_sets_lastUpdateTime Spec Evaluator.newConfigSpec Evaluator.name
                    MAX_RATE (payload 1234) store0)
             true (snd (process (payload 1234) store0)));
      [reflexivity|vm_compute; reflexivity].
  - apply (proj2 (process_sets_lastUpdateTime Spec Evaluator.newConfigSpec Evaluator.name
                    MAX_RATE no_updates store0)).
    reflexivity.
Defined.

(** A well-formed payload with updates that carries no [time]. *)
Definition payload_without_time : JSON :=
  JObj [("has_updates", JBool true);
        ("feature_gates", JArr [Evaluator.gate_json true "rule_id_gate"]);
        ("dynamic_configs", JArr []);
        ("layer_configs", JArr [])].

(** The store after a payload stamped 10 has been applied. *)
Definition store_at_10 : SpecStore Spec := snd (process (payload 10) store0).

(** C2, as stated, fails: the payload is well-formed and has updates,
    [_process] returns success, and [lastUpdateTime] is not the payload's
    [time], which is [undefined]: it is still 10. *)
Lemma process_without_time_keeps_lastUpdateTime :
  truthy (get "has_updates" payload_without_time) = true
  /\ well_formed Spec Evaluator.newConfigSpec payload_without_time = true
  /\ get "time" payload_without_time = None
  /\ lastUpdateTime Spec store_at_10 = JNum 10
  /\ fst (process payload_without_time store_at_10) = Returned true true
  /\ lastUpdateTime Spec (snd (process payload_without_time store_at_10)) = JNum 10
  /\ Some (lastUpdateTime Spec (snd (process payload_without_time store_at_10)))
     <> get "time" payload_without_time.
Proof. repeat split; try (vm_compute; reflexivity). discriminate. Qed.

(** C3, as stated, fails: two successful applications, the second of a
    payload stamped earlier than the first, and [lastUpdateTime] goes from
    10 down to 5. *)
Lemma lastUpdateTime_decreases :
  fst (process (payload 10) store0) = Returned true true
  /\ lastUpdateTime Spec (snd (process (payload 10) store0)) = JNum 10
  /\ fst (process (payload 5) (snd (process (payload 10) store0))) = Returned true true
  /\ lastUpdateTime Spec (snd (process (payload 5) (snd (process (payload 10) store0))))
     = JNum 5.
Proof. repeat split; vm_compute; reflexivity. Qed.

Lemma lastUpdateTime_monotone_for_fresh_payloads_witness :
  exists t',
    lastUpdateTime Spec (snd (process (payload 10) (snd (process (payload 5) store0))))
    = JNum t' /\ 0 <= t'.
Proof.
  apply (lastUpdateTime_monotone_for_fresh_payloads Spec Evaluator.newConfigSpec
           Evaluator.name MAX_RATE [payload 5; payload 10] store0).
  - apply (applied_cons Spec Evaluator.newConfigSpec Evaluator.name MAX_RATE
             store0 (payload 5) true (snd (process (payload 5) store0))).
    + vm_compute. reflexivity.
    + apply (applied_cons Spec Evaluator.newConfigSpec Evaluator.name MAX_RATE
               _ (payload 10) true
               (snd (process (payload 10) (snd (process (payload 5) store0))))).
      * vm_compute. reflexivity.
      * apply applied_nil.
  - reflexivity.
  - reflexivity.
Defined.

Lemma process_updates_sampling_rates_witness :
  rate Klog (samplingRates Spec (snd (process rejected_payload store0)))
  = Z.max 0 (Z.min 20000 MAX_RATE)
  /\ 0 <= rate Klog (samplingRates Spec (snd (process rejected_payload store0))) <= MAX_RATE.
Proof.
  apply (process_updates_sampling_rates Spec Evaluator.newConfigSpec Evaluator.name
           MAX_RATE rejected_payload store0 Klog).
  - unfold MAX_RATE. lia.
  - reflexivity.
Defined.

(** *** The watchdog on one dead and one live timer *)

Definition options_network : ExplicitStatsigOptions :=
  mkOptions 10000 60000 None None StrategyNone.

(** Both timers set (handles 1 and 2); the ruleset loop was last active at
    0, the ID-list loop at 190000. *)
Definition stalled_rulesets : SpecStore Spec :=
  set_idListsSyncTimerLastActiveTime Spec 190000
    (set_rulesetsSyncTimerLastActiveTime Spec 0
       (set_idListsSyncTimer Spec (Some 2%nat)
          (set_rulesetsSyncTimer Spec (Some 1%nat) store0))).

Definition runtime7 : Runtime := mkRuntime 7%nat [].

Definition watchdog_at_200000 : option string * SpecStore Spec * Runtime :=
  resetSyncTimerIfExited Spec options_network 200000 stalled_rulesets runtime7.

(** C9, as stated, fails: at 200000 the ruleset timer is dead and the
    ID-list timer is alive; the call returns an error, clears and starts
    anew the ruleset timer only, and the ID-list timer keeps its handle and
    its timestamp: it is not rescheduled. *)
Lemma watchdog_leaves_live_timer :
  fst (fst watchdog_at_200000)
    = Some "Force reset sync timer. Last update time: 0, now: 200000"
  /\ timerLog (snd watchdog_at_200000) = [Cleared 1%nat; Polled Rulesets 10000 7%nat]
  /\ rulesetsSyncTimer Spec (snd (fst watchdog_at_200000)) = Some 7%nat
  /\ idListsSyncTimer Spec (snd (fst watchdog_at_200000)) = Some 2%nat
  /\ idListsSyncTimerLastActiveTime Spec (snd (fst watchdog_at_200000)) = 190000.
Proof. repeat split; vm_compute; reflexivity. Qed.

Lemma resetSyncTimerIfExited_contract_witness :
  fst (fst watchdog_at_200000)
    = Some "Force reset sync timer. Last update time: 0, now: 200000"
  /\ rulesetsSyncTimer Spec (snd (fst watchdog_at_200000)) = Some 7%nat
  /\ rulesetsSyncTimerLastActiveTime Spec (snd (fst watchdog_at_200000)) = 200000
  /\ idListsSyncTimer Spec (snd (fst watchdog_at_200000)) = Some 2%nat
  /\ idListsSyncTimerLastActiveTime Spec (snd (fst watchdog_at_200000)) = 190000
  /\ timerLog (snd watchdog_at_200000) = [Cleared 1%nat; Polled Rulesets 10000 7%nat].
Proof.
  apply (proj2 (proj2 (resetSyncTimerIfExited_contract Spec options_network 200000
                         stalled_rulesets runtime7))).
  vm_compute. discriminate.
Defined.

(** *** Ranged fetches with a bad Content-Length *)

Module IDListUtil.

Definition newline : ascii := ascii_of_nat 10.

(** The lines of a text: the pieces between line feeds. *)
Fixpoint lines (s current : string) : list string :=
  match s with
  | EmptyString => [current]
  | String c rest =>
      if Ascii.eqb c newline then current :: lines rest ""
      else lines rest (current ++ String c "")%string
  end.

Definition applyLine (ids : gset string) (line : string) : gset string :=
  match line with
  | String "+" id => {[id]} ∪ ids
  | String "-" id => ids ∖ {[id]}
  | _ => ids
  end.

(** The lines of a text that end in a line feed; what follows the last
    line feed is left out. *)
Fixpoint complete_lines (s current : string) : list string :=
  match s with
  | EmptyString => []
  | String c rest =>
      if Ascii.eqb c newline then current :: complete_lines rest ""
      else complete_lines rest (current ++ String c "")%string
  end.

(** Modelled from the spec: [IDListUtil.updateIdList] is not among the
    sources. Section 4.6, step 4: the body is a newline-separated sequence
    of lines [+id] or [-id]; [+] inserts the id, [-] removes it. Section 6:
    a trailing partial line (with no line feed) is discarded. *)
Definition updateIdList (lists : gmap string IDList) (name data : string)
  : gmap string IDList :=
  match lists !! name with
  | Some l =>
      <[name := mkIDList (fold_left applyLine (complete_lines data "") (ids l)) (readBytes l)
                         (url l) (fileID l) (creationTime l)]> lists
  | None => lists
  end.

(** Modelled from the spec: [IDListUtil.removeOldIdLists] is not among the
    sources. Section 4.6, step 5: lists present in the store but absent
    from the lookup are deleted. *)
Definition removeOldIdLists (lists : gmap string IDList)
    (lookup : list (string * IDListItem)) : gmap string IDList :=
  filter (fun entry => fst entry ∈ map fst lookup) lists.

Definition number (v : option JSON) : option Z :=
  match v with
  | Some (JNum n) => Some n
  | _ => None
  end.

(** Modelled from the spec: [IDListUtil.parseLookupResponse] is not among
    the sources. Section 6: the lookup is an object that holds, per list
    name, [{ url, fileID, size, creationTime }]. *)
Definition parseLookupResponse (json : JSON) : option (list (string * IDListItem)) :=
  match json with
  | JObj props =>
      Some (map (fun '(name, item) =>
                   (name,
                    mkItem (Evaluator.get_string "url" item)
                           (Evaluator.get_string "fileID" item)
                           (match number (get "creationTime" item) with
                            | Some n => n
                            | None => 0
                            end)
                           (number (get "size" item)))) props)
  | _ => None
  end.

(** Neither the sources nor the specification give the format of the
    adapter's list of names or of its keys; the runs below, which sync no
    ID list from an adapter, take one name per line and the name as key. *)
Definition parseBootstrapLookup (s : string) : option (list string) :=
  Some (lines s "").

Definition getIdListDataStoreKey (name : string) : string := name.

End IDListUtil.

Definition list_1 : IDList :=
  mkIDList ∅ (Num 0) "https://idliststorage.example/list_1" "file_id_1" 1.

Definition store_with_list_1 : SpecStore Spec :=
  with_idLists Spec {[ "list_1" := list_1 ]} store0.

(** A response with the given Content-Length header and two added ids,
    one on each line. *)
Definition respond (contentLength : option string) : Network :=
  fun _ _ =>
    Fetched contentLength
      (Some ("+1" ++ String IDListUtil.newline ("+2" ++ String IDListUtil.newline ""))%string).

(** [list_1] after the ranged GET has been answered. *)
Definition fetched_list_1 (contentLength : option string) : option IDList :=
  idLists Spec
    (store Spec
       (genFetchIDList Spec IDListUtil.updateIdList (respond contentLength)
          "list_1" (url list_1) (Num 0) store_with_list_1))
    !! "list_1".

(** C7, where the code departs from it. With no Content-Length header the
    list is left in the store as it was; with a header that is no number
    the list stays too, its [readBytes] becomes [NaN] and the body is
    applied; with a negative header [readBytes] becomes negative. The list
    is deleted in none of these cases. A header that is a number is added
    to [readBytes]. *)
Theorem genFetchIDList_keeps_list_on_bad_content_length :
  fetched_list_1 None = Some list_1
  /\ readBytes <$> fetched_list_1 (Some "abc") = Some NaN
  /\ ids <$> fetched_list_1 (Some "abc") = Some ({["1"; "2"]} : gset string)
  /\ readBytes <$> fetched_list_1 (Some "-5") = Some (Num (-5))
  /\ readBytes <$> fetched_list_1 (Some "6") = Some (Num 6).
Proof. repeat split; vm_compute; reflexivity. Qed.

(** *** A data adapter that supports polling *)

(** An adapter that supports polling for rulesets, no bootstrap values, no
    ID lists. *)
Definition options_adapter : ExplicitStatsigOptions :=
  mkOptions 10000 60000 (Some (mkAdapterCaps true false)) None StrategyNone.

(** At [init] the adapter holds nothing and the network answers; later the
    adapter holds a payload. *)
Definition env_at_init : RulesetsEnv :=
  mkRulesetsEnv (AdapterGot None false) (Downloaded (Parses (payload 10))) false.

Definition env_at_poll : RulesetsEnv :=
  mkRulesetsEnv (AdapterGot (Some (Parses (payload 20))) false) (DownloadThrows false) false.

Definition no_id_lists : IdListsEnv :=
  mkIdListsEnv LookupNull (fun _ _ => FetchNull) false GetRejects (fun _ => GetRejects).

Definition init_adapter : option (SpecStore Spec * Runtime) :=
  init Spec Evaluator.newConfigSpec Evaluator.name MAX_RATE options_adapter
    IDListUtil.updateIdList IDListUtil.parseLookupResponse IDListUtil.removeOldIdLists
    IDListUtil.parseBootstrapLookup IDListUtil.getIdListDataStoreKey
    0 false env_at_init no_id_lists store0 runtime7.

Definition run_adapter (op : Operation) (this : SpecStore Spec) (rt : Runtime)
  : SpecStore Spec * Runtime :=
  run Spec Evaluator.newConfigSpec Evaluator.name MAX_RATE options_adapter
    IDListUtil.updateIdList IDListUtil.parseLookupResponse IDListUtil.removeOldIdLists
    IDListUtil.parseBootstrapLookup IDListUtil.getIdListDataStoreKey op this rt.

(** The store after [init] (the store before it if [init] failed). *)
Definition initialised : SpecStore Spec :=
  match init_adapter with
  | Some (this, _) => this
  | None => store0
  end.

(** C8, as stated, fails: after an [init] from the network, a polling tick
    that syncs from the data adapter sets [initReason] to DataAdapter. *)
Lemma adapter_poll_sets_DataAdapter :
  option_map (fun r => initReason Spec (fst r)) init_adapter = Some "Network"
  /\ initReason Spec (fst (run_adapter (RulesetsTick 10000 env_at_poll) initialised runtime7))
     = "DataAdapter".
Proof. split; vm_compute; reflexivity. Qed.

Lemma initReason_changes_only_in_ruleset_syncs_witness :
  let this' := fst (run_adapter (RulesetsTick 10000 env_at_poll) initialised runtime7) in
  known_reason (initReason Spec this')
  /\ (initReason Spec this' <> initReason Spec initialised ->
      exists now env before,
        Some (10000, env_at_poll, initialised) = Some (now, env, before)
        /\ let started := set_rulesetsSyncTimerLastActiveTime Spec now before in
           (shouldSyncRulesetsFromAdapter options_adapter = false
            /\ networkLoads Spec Evaluator.newConfigSpec Evaluator.name MAX_RATE env started
               = true
            /\ initReason Spec this' = "Network")
           \/ (shouldSyncRulesetsFromAdapter options_adapter = true
               /\ adapterLoads Spec Evaluator.newConfigSpec Evaluator.name MAX_RATE
                    options_adapter env started = true
               /\ initReason Spec this' = "DataAdapter")).
Proof.
  apply (proj2 (proj2 (initReason_changes_only_in_ruleset_syncs Spec
                         Evaluator.newConfigSpec Evaluator.name MAX_RATE options_adapter
                         IDListUtil.updateIdList IDListUtil.parseLookupResponse
                         IDListUtil.removeOldIdLists IDListUtil.parseBootstrapLookup
                         IDListUtil.getIdListDataStoreKey))
           (RulesetsTick 10000 env_at_poll) initialised runtime7).
  right. left. vm_compute. reflexivity.
Defined.

(** ** Concrete runs: counts, timers, snapshot, lookup, rates *)

Definition run_network (op : Operation) (this : SpecStore Spec) (rt : Runtime)
  : SpecStore Spec * Runtime :=
  run Spec Evaluator.newConfigSpec Evaluator.name MAX_RATE options_network
    IDListUtil.updateIdList IDListUtil.parseLookupResponse IDListUtil.removeOldIdLists
    IDListUtil.parseBootstrapLookup IDListUtil.getIdListDataStoreKey op this rt.

(** Twelve failed ruleset syncs at a period of 10 s: the next failure
    passes the bound. *)
Definition twelve_failures : SpecStore Spec :=
  set_rulesetsSyncFailureCount Spec 12 store0.

Lemma failure_counts_follow_the_syncs_witness :
  counts Spec (fst (run_network (RulesetsTick 10000 env_at_poll) twelve_failures runtime7))
  = (0, 0)
  /\ counts Spec (fst (run_network (RulesetsTick 10000 env_at_poll) store0 runtime7))
     = (1, 0)
  /\ counts_bounded Spec options_network
       (fst (run_network (RulesetsTick 10000 env_at_poll) twelve_failures runtime7)).
Proof.
  split; [|split].
  - apply (proj1 (failure_counts_follow_the_syncs Spec Evaluator.newConfigSpec Evaluator.name
                    MAX_RATE options_network IDListUtil.updateIdList
                    IDListUtil.parseLookupResponse IDListUtil.removeOldIdLists
                    IDListUtil.parseBootstrapLookup IDListUtil.getIdListDataStoreKey
                    twelve_failures runtime7) 10000 env_at_poll).
  - apply (proj1 (failure_counts_follow_the_syncs Spec Evaluator.newConfigSpec Evaluator.name
                    MAX_RATE options_network IDListUtil.updateIdList
                    IDListUtil.parseLookupResponse IDListUtil.removeOldIdLists
                    IDListUtil.parseBootstrapLookup IDListUtil.getIdListDataStoreKey
                    store0 runtime7) 10000 env_at_poll).
  - apply (proj2 (proj2 (proj2
             (failure_counts_follow_the_syncs Spec Evaluator.newConfigSpec Evaluator.name
                MAX_RATE options_network IDListUtil.updateIdList
                IDListUtil.parseLookupResponse IDListUtil.removeOldIdLists
                IDListUtil.parseBootstrapLookup IDListUtil.getIdListDataStoreKey
                twelve_failures runtime7)))).
    repeat split; vm_compute; discriminate.
Defined.

(** The runtime in which the two timers of [stalled_rulesets] run. *)
Definition runtime_polling : Runtime :=
  mkRuntime 3%nat [Polled Rulesets 10000 1%nat; Polled IdLists 60000 2%nat].

Lemma stalled_rulesets_accounted : timers_accounted Spec stalled_rulesets runtime_polling.
Proof.
  split; [|split].
  - vm_compute. reflexivity.
  - intros t Ht. change (t ∈ ({[1%nat]} ∪ {[2%nat]} : gset Timer)) in Ht.
    apply elem_of_union in Ht as [Ht|Ht];
      apply elem_of_singleton in Ht; subst t; cbn; lia.
  - intros t Ht. injection Ht as <-. discriminate.
Qed.

Lemma timers_stay_accounted_witness :
  timers_accounted Spec
    (fst (run_network (ResetSyncTimerIfExited 200000) stalled_rulesets runtime_polling))
    (snd (run_network (ResetSyncTimerIfExited 200000) stalled_rulesets runtime_polling)).
Proof.
  apply (timers_stay_accounted Spec Evaluator.newConfigSpec Evaluator.name MAX_RATE
           options_network IDListUtil.updateIdList IDListUtil.parseLookupResponse
           IDListUtil.removeOldIdLists IDListUtil.parseBootstrapLookup
           IDListUtil.getIdListDataStoreKey
           (ResetSyncTimerIfExited 200000) stalled_rulesets runtime_polling).
  exact stalled_rulesets_accounted.
Defined.

Lemma watchdog_restarts_after_shutdown_witness :
  exists message,
    resetSyncTimerIfExited Spec options_network 200000
      (fst (shutdown Spec stalled_rulesets runtime_polling))
      (snd (shutdown Spec stalled_rulesets runtime_polling))
    = (Some message,
       set_idListsSyncTimerLastActiveTime Spec 200000
         (set_idListsSyncTimer Spec (Some 4%nat)
            (set_rulesetsSyncTimerLastActiveTime Spec 200000
               (set_rulesetsSyncTimer Spec (Some 3%nat)
                  (fst (shutdown Spec stalled_rulesets runtime_polling))))),
       mkRuntime 5%nat
         (timerLog (snd (shutdown Spec stalled_rulesets runtime_polling))
          ++ [Polled Rulesets 10000 3%nat; Polled IdLists 60000 4%nat])%list).
Proof.
  apply (watchdog_restarts_after_shutdown Spec options_network 200000 stalled_rulesets
           runtime_polling).
  vm_compute. reflexivity.
Defined.

(** A payload whose two gates have the same name. *)
Definition payload_twice : JSON :=
  JObj [("has_updates", JBool true);
        ("time", JNum 30);
        ("feature_gates", JArr [Evaluator.gate_json true "rule_id_gate";
                                Evaluator.gate_json false "rule_id_gate"]);
        ("dynamic_configs", JArr []);
        ("layer_configs", JArr []);
        ("layers", JObj [("layer_1", JArr [JStr "experiment_1"; JStr "experiment_2"])])].

Lemma process_installs_last_named_witness :
  exists gateArray configArray layersArray reverseMapping,
    get "feature_gates" payload_twice = Some (JArr gateArray)
    /\ get "dynamic_configs" payload_twice = Some (JArr configArray)
    /\ get "layer_configs" payload_twice = Some (JArr layersArray)
    /\ _reverseLayerExperimentMapping (get "layers" payload_twice) = Some reverseMapping
    /\ (forall name,
          getGate Spec name (snd (process payload_twice store0))
          = named Spec Evaluator.newConfigSpec Evaluator.name name gateArray)
    /\ (forall name,
          getConfig Spec name (snd (process payload_twice store0))
          = named Spec Evaluator.newConfigSpec Evaluator.name name configArray)
    /\ (forall name,
          getLayer Spec name (snd (process payload_twice store0))
          = named Spec Evaluator.newConfigSpec Evaluator.name name layersArray)
    /\ (forall name,
          getExperimentLayer Spec name (snd (process payload_twice store0))
          = match reverseMapping !! name with
            | Some layerName => Found layerName
            | None => if bool_decide (name ∈ Object_prototype) then Inherited name else Null
            end)
    /\ idLists Spec (store Spec (snd (process payload_twice store0)))
       = idLists Spec (store Spec store0).
Proof.
  apply (process_installs_last_named Spec Evaluator.newConfigSpec Evaluator.name MAX_RATE
           payload_twice store0 (snd (process payload_twice store0))).
  vm_compute. reflexivity.
Defined.



Lemma sampling_rates_stay_in_range_witness :
  rates_in_range Spec MAX_RATE (new_SpecStore Spec MAX_RATE 0)
  /\ (rates_in_range Spec MAX_RATE store0 ->
      (forall op, rates_in_range Spec MAX_RATE (fst (run_adapter op store0 runtime7)))
      /\ forall adapterInitializeThrows env ids_env this' rt',
           init Spec Evaluator.newConfigSpec Evaluator.name MAX_RATE options_adapter
             IDListUtil.updateIdList IDListUtil.parseLookupResponse
             IDListUtil.removeOldIdLists IDListUtil.parseBootstrapLookup
             IDListUtil.getIdListDataStoreKey
             0 adapterInitializeThrows env ids_env store0 runtime7 = Some (this', rt') ->
           rates_in_range Spec MAX_RATE this').
Proof.
  apply (sampling_rates_stay_in_range Spec Evaluator.newConfigSpec Evaluator.name MAX_RATE
           options_adapter IDListUtil.updateIdList IDListUtil.parseLookupResponse
           IDListUtil.removeOldIdLists IDListUtil.parseBootstrapLookup
           IDListUtil.getIdListDataStoreKey 0 store0 runtime7).
  vm_compute. discriminate.
Defined.

End SpecStore.

(** ** Diagnostics: markers and their flush *)

Module Diagnostics.
Import Json.

(** [string | number | boolean] *)
Inductive MarkerValue : Type :=
| VString (s : string)
| VNumber (n : Z)
| VBoolean (b : bool).

(** A marker; [None] is [null] for [step] and [value], [undefined] for
    [metadata]. *)
Record Marker : Type := mkMarker {
  key : string;
  action : string;
  step : option string;
  value : option MarkerValue;
  timestamp : Z;
  metadata : option JSON;
}.

Record DiagnosticsMarkers : Type := mkMarkers {
  intialize : list Marker;
  configSync : list Marker;
  eventLogging : list Marker;
}.

(** The instance: its markers, [disable], and [options.initTimeoutMs]. *)
Record Diagnostics : Type := mkDiagnostics {
  markers : DiagnosticsMarkers;
  disable : bool;
  initTimeoutMs : option Z;
}.

(** What [logger.logDiagnosticsEvent] is called with. *)
Record DiagnosticsEvent : Type := mkEvent {
  event_context : string;
  event_markers : list Marker;
  event_initTimeoutMs : option Z;
}.

(** What a call comes to: the instance and the events logged, or an
    [ExhaustSwitchError] on the context. *)
Inductive Result : Type :=
| Done (this : Diagnostics) (logged : list DiagnosticsEvent)
| ExhaustSwitchError (context : string).

Definition set_markers (m : DiagnosticsMarkers) (this : Diagnostics) : Diagnostics :=
  mkDiagnostics m (disable this) (initTimeoutMs this).



Definition logDiagnostics (context : string) (this : Diagnostics) : Result :=
  if disable this then Done this []
  else
    let m := markers this in
    if String.eqb context "config_sync" then
      Done (set_markers (mkMarkers (intialize m) [] (eventLogging m)) this)
           [mkEvent context (configSync m) None]
    else if String.eqb context "initialize" then
      Done (set_markers (mkMarkers [] (configSync m) (eventLogging m)) this)
           [mkEvent context (intialize m) (initTimeoutMs this)]
    else if String.eqb context "event_logging" then
      Done (set_markers (mkMarkers (intialize m) (configSync m) []) this)
           [mkEvent context (eventLogging m) None]
    else ExhaustSwitchError context.

(** The three contexts of the switch. *)
Definition known (context : string) : bool :=
  String.eqb context "config_sync" || String.eqb context "initialize"
  || String.eqb context "event_logging".

(** The markers held for a context (none for an unknown one). *)
Definition held (context : string) (this : Diagnostics) : list Marker :=
  if String.eqb context "config_sync" then configSync (markers this)
  else if String.eqb context "initialize" then intialize (markers this)
  else if String.eqb context "event_logging" then eventLogging (markers this)
  else [].





(** *** Properties *)

Ltac contexts :=
  repeat match goal with
  | |- context [String.eqb ?a ?b] => destruct (String.eqb_spec a b); subst; try discriminate
  | H : context [String.eqb ?a ?b] |- _ =>
      destruct (String.eqb_spec a b); subst; try discriminate
  end.



Lemma logDiagnostics_known context this :
  disable this = false -> known context = true ->
  exists this',
    logDiagnostics context this
    = Done this' [mkEvent context (held context this)
                          (if String.eqb context "initialize"
                           then initTimeoutMs this else None)]
    /\ held context this' = []
    /\ (forall other, other <> context -> held other this' = held other this)
    /\ logDiagnostics context this'
       = Done this' [mkEvent context []
                             (if String.eqb context "initialize"
                              then initTimeoutMs this else None)].
Proof.
  intros Hd Hk. unfold logDiagnostics. rewrite Hd. unfold known in Hk.
  destruct (String.eqb_spec context "config_sync") as [->|H1];
    [|destruct (String.eqb_spec context "initialize") as [->|H2];
      [|destruct (String.eqb_spec context "event_logging") as [->|H3];
        [|discriminate Hk]]];
    (eexists; split; [reflexivity|]; split; [reflexivity|]; split;
     [ intros other Hother; unfold held; cbn; contexts; try reflexivity; congruence
     | cbn; rewrite Hd; destruct this as [[? ? ?] ? ?]; reflexivity ]).
Qed.

(** [logDiagnostics] on an instance that is not disabled, with one of the
    three contexts, logs one event that carries the markers held for that
    context, in the order they were added, and (for [initialize] only) the
    init timeout; afterwards no marker is held for that context, and the
    markers of the other contexts are left as they are. With any other
    context it throws; on a disabled instance it logs nothing and keeps the
    markers. *)
Theorem logDiagnostics_flushes_one_context (context : string) (this : Diagnostics) :
  (disable this = true -> logDiagnostics context this = Done this [])
  /\ (disable this = false -> known context = false ->
      logDiagnostics context this = ExhaustSwitchError context)
  /\ (disable this = false -> known context = true ->
      exists this',
        logDiagnostics context this
        = Done this' [mkEvent context (held context this)
                              (if String.eqb context "initialize"
                               then initTimeoutMs this else None)]
        /\ held context this' = []
        /\ (forall other, other <> context -> held other this' = held other this)
        /\ logDiagnostics context this'
           = Done this' [mkEvent context []
                                 (if String.eqb context "initialize"
                                  then initTimeoutMs this else None)]).
Proof.
  unfold logDiagnostics. split; [|split].
  - intros ->. reflexivity.
  - intros -> Hk. unfold known in Hk.
    apply orb_false_elim in Hk as [Hk H3]. apply orb_false_elim in Hk as [H1 H2].
    rewrite H1, H2, H3. reflexivity.
  - intros Hd Hk. fold (logDiagnostics context this).
    exact (logDiagnostics_known context this Hd Hk).
Qed.



(** *** Concrete runs *)

Definition diagnostics0 : Diagnostics :=
  mkDiagnostics (mkMarkers [] [] []) false (Some 3000).





Lemma logDiagnostics_flushes_one_context_witness :
  exists this',
    logDiagnostics "initialize" diagnostics0
    = Done this' [mkEvent "initialize" (held "initialize" diagnostics0) (Some 3000)]
    /\ held "initialize" this' = []
    /\ (forall other, other <> "initialize" -> held other this' = held other diagnostics0)
    /\ logDiagnostics "initialize" this'
       = Done this' [mkEvent "initialize" [] (Some 3000)].
Proof.
  apply (proj2 (proj2 (logDiagnostics_flushes_one_context "initialize" diagnostics0)));
    reflexivity.
Defined.


End Diagnostics.

(** ** parseUserAgent *)

Module UserAgent.

(** What the store reads of the result of [ua-parser-js]: the names and the
    type the function tests and assigns ([None] for [undefined]). Every
    other field of the result is returned as the parser gave it. *)
Record UAResult : Type := mkUA {
  os_name : option string;
  browser_name : option string;
  device_type : option string;
}.

Section Parser.

(** The library [ua-parser-js]. *)
Variable uaparser : string -> UAResult.

Definition parseUserAgent (uaString : string) : UAResult :=
  let res := uaparser uaString in
  let res :=
    if bool_decide (os_name res = Some "Mac OS")
    then mkUA (Some "Mac OS X") (browser_name res) (device_type res)
    else res in
  if (bool_decide (browser_name res = Some "Chrome")
      || bool_decide (browser_name res = Some "Firefox"))
     && (bool_decide (device_type res = Some "mobile")
         || bool_decide (device_type res = Some "tablet"))
  then mkUA (os_name res)
            (match browser_name res with
             | Some name => Some (name ++ " Mobile")%string
             | None => None
             end)
            (device_type res)
  else res.

Definition handheld (device : option string) : bool :=
  bool_decide (device = Some "mobile") || bool_decide (device = Some "tablet").

(** [parseUserAgent] never reports the OS as [Mac OS] (it reports
    [Mac OS X] instead, and any other OS name as parsed), never reports a
    bare [Chrome] or [Firefox] on a mobile or tablet device ([Chrome Mobile]
    and [Firefox Mobile] instead), leaves every other browser name, and
    every browser name on other devices, as parsed, and never changes the
    device type. *)
Theorem parseUserAgent_renames (uaString : string) :
  let parsed := uaparser uaString in
  let res := parseUserAgent uaString in
  device_type res = device_type parsed
  /\ os_name res <> Some "Mac OS"
  /\ os_name res
     = (if bool_decide (os_name parsed = Some "Mac OS") then Some "Mac OS X"
        else os_name parsed)
  /\ (handheld (device_type parsed) = true ->
      browser_name res <> Some "Chrome" /\ browser_name res <> Some "Firefox")
  /\ (browser_name parsed = Some "Chrome" -> handheld (device_type parsed) = true ->
      browser_name res = Some "Chrome Mobile")
  /\ (browser_name parsed = Some "Firefox" -> handheld (device_type parsed) = true ->
      browser_name res = Some "Firefox Mobile")
  /\ (handheld (device_type parsed) = false
      \/ (browser_name parsed <> Some "Chrome" /\ browser_name parsed <> Some "Firefox") ->
      browser_name res = browser_name parsed).
Proof.
  cbv zeta. unfold parseUserAgent, handheld.
  destruct (uaparser uaString) as [os browser device]. cbn.
  repeat case_bool_decide; subst; cbn in *;
    repeat split; intros; subst; cbn in *;
    repeat match goal with
    | H : _ /\ _ |- _ => destruct H
    | H : _ \/ _ |- _ => destruct H
    end;
    try congruence; try discriminate; try reflexivity;
    try (intros Heq; vm_compute in Heq; discriminate Heq).
Qed.

End Parser.

Definition parser_chrome_tablet (uaString : string) : UAResult :=
  mkUA (Some "Mac OS") (Some "Chrome") (Some "tablet").

Lemma parseUserAgent_renames_witness :
  browser_name (parseUserAgent parser_chrome_tablet "Mozilla/5.0") = Some "Chrome Mobile".
Proof.
  apply (proj1 (proj2 (proj2 (proj2 (proj2
           (parseUserAgent_renames parser_chrome_tablet "Mozilla/5.0"))))));
    reflexivity.
Defined.

End UserAgent.
